(** * Beam playground infrastructure: [helper.py]

    A shallow embedding of [playground/infrastructure/helper.py] and the
    properties of its tag extractor, tag validator, example builder and
    status polling engine.

    Conventions.  Python [str] values are [string]s over the 8-bit alphabet
    (code points below 256).  Python dictionaries keyed by strings are
    [gmap string _].  A call that can raise returns a [result]. *)

From Stdlib Require Import ZArith Lia Ascii String Permutation Sorted.
From stdpp Require Import base option list strings pretty gmap.

Open Scope string_scope.
Open Scope list_scope.

Set Warnings "-register-all".

(** ** Exceptions *)

Inductive exn : Type :=
| ValueError (msg : string)
| KeyError (key : string)
| TypeError (msg : string)
| AttributeError (msg : string)
| YAMLError
| OSError (path : string)
| ValidationException (msg : string)
| BackendError (msg : string).

Inductive result (A : Type) : Type :=
| Ok (a : A)
| Raise (e : exn).
Arguments Ok {A} a.
Arguments Raise {A} e.

Global Instance result_ret : MRet result := fun A a => Ok a.
Global Instance result_bind : MBind result := fun A B k r =>
  match r with
  | Ok a => k a
  | Raise e => Raise e
  end.

Definition raises {A} (r : result A) : Prop := ∃ e, r = Raise e.

(** ** Python string primitives *)

Module Str.

Definition LF : string := String "010"%char "".
Definition TAB : string := String "009"%char "".

(** [str.isspace] on one character: the code points below 256 that
    Python classifies as whitespace. *)
Definition isspace (c : ascii) : bool :=
  match c with
  | "009" | "010" | "011" | "012" | "013"
  | "028" | "029" | "030" | "031" | " " | "133" | "160" => true
  | _ => false
  end%char.

(** [s.lstrip()] *)
Fixpoint lstrip (s : string) : string :=
  match s with
  | "" => ""
  | String c s' => if isspace c then lstrip s' else s
  end.

(** [s.startswith(p)] *)
Definition startswith (p s : string) : bool := String.prefix p s.

(** [s.endswith(suffix)]: some tail of [s] is [suffix]. *)
Fixpoint endswith (suffix s : string) : bool :=
  if String.eqb s suffix then true
  else match s with
       | "" => false
       | String _ s' => endswith suffix s'
       end.

(** [new.join(s)] with a separator before, between and after the
    characters: what [s.replace("", new)] returns. *)
Fixpoint intersperse (new s : string) : string :=
  match s with
  | "" => new
  | String c s' => new +:+ String c (intersperse new s')
  end.

(** Left-to-right scan replacing non-overlapping occurrences of a
    non-empty [old]; [skip] counts the characters of a match still to be
    dropped. *)
Fixpoint replace_go (old new : string) (skip : nat) (s : string) : string :=
  match s with
  | "" => ""
  | String c s' =>
      match skip with
      | S k => replace_go old new k s'
      | O =>
          if String.prefix old s
          then new +:+ replace_go old new (String.length old - 1) s'
          else String c (replace_go old new 0 s')
      end
  end.

(** [s.replace(old, new)] *)
Definition replace (old new s : string) : string :=
  match old with
  | "" => intersperse new s
  | _ => replace_go old new 0 s
  end.

Fixpoint count_go (sub : string) (skip : nat) (s : string) : nat :=
  match s with
  | "" => 0
  | String c s' =>
      match skip with
      | S k => count_go sub k s'
      | O =>
          if String.prefix sub s
          then S (count_go sub (String.length sub - 1) s')
          else count_go sub 0 s'
      end
  end.

(** [s.count(sub)]: non-overlapping occurrences. *)
Definition count (sub s : string) : nat :=
  match sub with
  | "" => S (String.length s)
  | _ => count_go sub 0 s
  end.

Fixpoint split_go (sep : string) (skip : nat) (cur s : string) : list string :=
  match s with
  | "" => [cur]
  | String c s' =>
      match skip with
      | S k => split_go sep k cur s'
      | O =>
          if String.prefix sep s
          then cur :: split_go sep (String.length sep - 1) "" s'
          else split_go sep 0 (cur +:+ String c "") s'
      end
  end.

(** [s.split(sep)] for a non-empty separator. *)
Definition split (sep s : string) : list string := split_go sep 0 "" s.

(** [s.split(sep)[-1]] *)
Definition split_last (sep s : string) : string := List.last (split sep s) "".

(** [sub in s] *)
Fixpoint contains (sub s : string) : bool :=
  if String.prefix sub s then true
  else match s with
       | "" => false
       | String _ s' => contains sub s'
       end.

Definition lower_char (c : ascii) : ascii :=
  let n := nat_of_ascii c in
  if (((65 <=? n) && (n <=? 90)) ||
      ((192 <=? n) && (n <=? 222) && negb (n =? 215)))%nat
  then ascii_of_nat (n + 32) else c.

(** [s.lower()] *)
Fixpoint lower (s : string) : string :=
  match s with
  | "" => ""
  | String c s' => String (lower_char c) (lower s')
  end.

(** [s.upper()] on ASCII letters, the alphabet of emulator names. *)
Definition upper_char (c : ascii) : ascii :=
  let n := nat_of_ascii c in
  if ((97 <=? n) && (n <=? 122))%nat then ascii_of_nat (n - 32) else c.

Fixpoint upper (s : string) : string :=
  match s with
  | "" => ""
  | String c s' => String (upper_char c) (upper s')
  end.

(** [''.join(l)] *)
Definition concat (l : list string) : string := foldr String.app "" l.

End Str.

Example replace_slashes : Str.replace "//" "" "// a///b" = " a/b".
Proof. reflexivity. Qed.
Example replace_empty_old : Str.replace "" "-" "abc" = "-a-b-c-".
Proof. reflexivity. Qed.
Example count_overlap : Str.count "aa" "aaa" = 1.
Proof. reflexivity. Qed.
Example split_dots : Str.split "." "a.b..c" = ["a"; "b"; ""; "c"].
Proof. reflexivity. Qed.
Example split_empty : Str.split "/" "" = [""].
Proof. reflexivity. Qed.
Example endswith_helper :
  Str.endswith "infrastructure/helper.py" "playground/infrastructure/helper.py" = true.
Proof. reflexivity. Qed.

(** ** [pathlib.PurePath], POSIX flavour

    A pure path is kept as pathlib parses it: the root (empty, one slash or
    two slashes) and the name components.  Comparison and equality go
    through [_cparts], the list of parts with the root first, as pathlib
    does up to Python 3.11. *)

Module Path.

Record PurePath : Type := mk { root : string; names : list string }.

Fixpoint lstrip_sep (s : string) : string :=
  match s with
  | String "/" s' => lstrip_sep s'
  | _ => s
  end.

(** [_PosixFlavour.splitroot]: exactly two leading slashes are kept as a
    root of their own, any other number is one slash. *)
Definition splitroot (part : string) : string * string :=
  match part with
  | String "/" _ =>
      let stripped_part := lstrip_sep part in
      if (String.length part - String.length stripped_part =? 2)%nat
      then ("//", stripped_part)
      else ("/", stripped_part)
  | _ => ("", part)
  end.

(** [PurePath(s)]: [parse_parts] drops empty components and dots. *)
Definition of_string (s : string) : PurePath :=
  let '(r, rel) := splitroot s in
  {| root := r; names := filter (λ x, x ≠ "" ∧ x ≠ ".") (Str.split "/" rel) |}.

(** [_cparts] *)
Definition cparts (p : PurePath) : list string :=
  (if decide (root p = "") then [] else [root p]) ++ names p.

(** [str(p)] *)
Fixpoint join_sep (l : list string) : string :=
  match l with
  | [] => ""
  | [x] => x
  | x :: l' => x +:+ "/" +:+ join_sep l'
  end.

Definition to_str (p : PurePath) : string :=
  match root p, names p with
  | "", [] => "."
  | r, ns => r +:+ join_sep ns
  end.

(** Python's list comparison on lists of [str]. *)
Fixpoint parts_compare (l k : list string) : comparison :=
  match l, k with
  | [], [] => Eq
  | [], _ :: _ => Lt
  | _ :: _, [] => Gt
  | x :: l', y :: k' =>
      match (x ?= y)%string with
      | Eq => parts_compare l' k'
      | c => c
      end
  end.

(** [p < q] *)
Definition lt (p q : PurePath) : bool :=
  match parts_compare (cparts p) (cparts q) with
  | Lt => true
  | _ => false
  end.

(** [p == q] *)
Definition eqb (p q : PurePath) : bool := bool_decide (cparts p = cparts q).

(** [p in l] *)
Definition path_in (p : PurePath) (l : list PurePath) : bool := existsb (eqb p) l.

(** [p.parents]: the root is kept and the names lose their last
    components one at a time, nearest ancestor first. *)
Definition parents (p : PurePath) : list PurePath :=
  map (λ k, mk (root p) (take k (names p))) (rev (seq 0 (length (names p)))).

(** [sorted(l)]: a stable sort that only asks [<]. *)
Fixpoint insert (x : PurePath) (l : list PurePath) : list PurePath :=
  match l with
  | [] => [x]
  | y :: l' => if lt y x then y :: insert x l' else x :: l
  end.

Definition sorted (l : list PurePath) : list PurePath := foldr insert [] l.

End Path.

Import Path.

(** ** [_check_no_nested] *)

Fixpoint check_pairs (pairs : list (PurePath * PurePath)) : result unit :=
  match pairs with
  | [] => Ok tt
  | (dir1, dir2) :: rest =>
      if path_in dir1 (dir2 :: parents dir2)
      then Raise (ValueError (to_str dir2 +:+ " is a subdirectory of " +:+ to_str dir1))
      else check_pairs rest
  end.

Definition _check_no_nested (subdirs : list string) : result unit :=
  let sorted_subdirs := sorted (map of_string subdirs) in
  check_pairs (zip sorted_subdirs (tail sorted_subdirs)).

(** From Python 3.12 on, pathlib orders pure paths by the pieces of
    [str(p)] between slashes instead of [_cparts]; equality and [parents]
    are as before.  The check under that ordering: *)
Definition lt_normcase (p q : PurePath) : bool :=
  match parts_compare (Str.split "/" (to_str p)) (Str.split "/" (to_str q)) with
  | Lt => true
  | _ => false
  end.

Fixpoint insert_normcase (x : PurePath) (l : list PurePath) : list PurePath :=
  match l with
  | [] => [x]
  | y :: l' => if lt_normcase y x then y :: insert_normcase x l' else x :: l
  end.

Definition _check_no_nested_normcase (subdirs : list string) : result unit :=
  let sorted_subdirs := foldr insert_normcase [] (map of_string subdirs) in
  check_pairs (zip sorted_subdirs (tail sorted_subdirs)).

(** [a] is a strict ancestor of [b]: one of [b.parents]. *)
Definition strict_ancestor (a b : PurePath) : Prop := path_in a (parents b) = true.

Example parse_trailing : of_string "a/b/" = of_string "a/b".
Proof. reflexivity. Qed.
Example parse_dot : of_string "./a//b/." = mk "" ["a"; "b"].
Proof. reflexivity. Qed.
Example parse_root2 : of_string "//a" = mk "//" ["a"] ∧ of_string "///a" = mk "/" ["a"].
Proof. split; reflexivity. Qed.
Example parents_abs : parents (of_string "/a/b") = [mk "/" ["a"]; mk "/" []].
Proof. reflexivity. Qed.
Example parents_rel : parents (of_string "a/b") = [mk "" ["a"]; mk "" []].
Proof. reflexivity. Qed.
Example nested_detected :
  _check_no_nested ["sdks/go"; "learning"; "sdks/"]
  = Raise (ValueError "sdks/go is a subdirectory of sdks").
Proof. reflexivity. Qed.
Example disjoint_accepted : _check_no_nested ["./learning/katas"; "./examples"; "./sdks"] = Ok tt.
Proof. reflexivity. Qed.

(** ** YAML values

    What [yaml.load] with [SafeLoader] builds.  Floats are kept by their
    [repr]; nested mappings keep the order of their entries. *)

Inductive yaml_value : Type :=
| YNull
| YBool (b : bool)
| YInt (n : Z)
| YFloat (repr : string)
| YStr (s : string)
| YList (items : list yaml_value)
| YMap (entries : list (string * yaml_value)).

(** A Python [dict] keyed by strings. *)
Abbreviation dict := (gmap string yaml_value).

(** [dict(entries)]: a later entry overrides an earlier one. *)
Definition dict_of_entries (entries : list (string * yaml_value)) : dict :=
  foldl (λ d kv, <[kv.1 := kv.2]> d) ∅ entries.

(** [d.get(key)] *)
Definition dict_get (d : dict) (key : string) : yaml_value := default YNull (d !! key).

(** [d[key]] *)
Definition dict_item (d : dict) (key : string) : result yaml_value :=
  match d !! key with
  | Some v => Ok v
  | None => Raise (KeyError key)
  end.

(** [v == s] for a string [s] *)
Definition yaml_eq_str (v : yaml_value) (s : string) : bool :=
  match v with
  | YStr t => String.eqb t s
  | _ => false
  end.

(** [v is None] *)
Definition is_none (v : yaml_value) : bool :=
  match v with
  | YNull => true
  | _ => false
  end.

(** [bool(v)] *)
Definition truthy (v : yaml_value) : bool :=
  match v with
  | YNull => false
  | YBool b => b
  | YInt n => negb (n =? 0)%Z
  | YFloat r => negb (bool_decide (r ∈ ["0.0"; "-0.0"]))
  | YStr s => negb (String.eqb s "")
  | YList items => match items with [] => false | _ => true end
  | YMap entries => match entries with [] => false | _ => true end
  end.

(** [isinstance(v, int)]: [bool] is a subclass of [int]. *)
Definition isinstance_int (v : yaml_value) : bool :=
  match v with
  | YInt _ | YBool _ => true
  | _ => false
  end.

(** [repr(v)] and [str(v)].  Inside containers a string is shown between
    single quotes, without Python's escapes. *)
Fixpoint py_repr (v : yaml_value) : string :=
  match v with
  | YNull => "None"
  | YBool true => "True"
  | YBool false => "False"
  | YInt n => pretty n
  | YFloat r => r
  | YStr s => "'" +:+ s +:+ "'"
  | YList items =>
      "[" +:+ (fix go (l : list yaml_value) : string :=
                 match l with
                 | [] => ""
                 | [x] => py_repr x
                 | x :: l' => py_repr x +:+ ", " +:+ go l'
                 end) items +:+ "]"
  | YMap entries =>
      "{" +:+ (fix go (l : list (string * yaml_value)) : string :=
                 match l with
                 | [] => ""
                 | [(k, x)] => "'" +:+ k +:+ "': " +:+ py_repr x
                 | (k, x) :: l' => "'" +:+ k +:+ "': " +:+ py_repr x +:+ ", " +:+ go l'
                 end) entries +:+ "}"
  end.

Definition py_str (v : yaml_value) : string :=
  match v with
  | YStr s => s
  | _ => py_repr v
  end.

Example py_str_bool : Str.lower (py_str (YBool true)) = "true".
Proof. reflexivity. Qed.
Example py_str_list : py_str (YList [YStr "a"; YInt (-3)]) = "['a', -3]".
Proof. reflexivity. Qed.

(** ** Configuration *)

(** Modelled from the spec: [config.TagFields] and
    [config.OptionalTagFields] are not part of the sources; the field names
    are those of the metadata schema, and the optional ones are
    [emulators], [datasets] and [url_notebook]. *)
Module TagFields.
Definition name : string := "name".
Definition description : string := "description".
Definition multifile : string := "multifile".
Definition categories : string := "categories".
Definition pipeline_options : string := "pipeline_options".
Definition default_example : string := "default_example".
Definition context_line : string := "context_line".
Definition complexity : string := "complexity".
Definition tags : string := "tags".
Definition emulators : string := "emulators".
Definition datasets : string := "datasets".
Definition url_notebook : string := "url_notebook".
(** All fields, in the order the [Tag] tuple lists them. *)
Definition all : list string :=
  [name; complexity; emulators; datasets; description; multifile; categories;
   pipeline_options; default_example; context_line; tags; url_notebook].
Definition optional : list string := [emulators; datasets; url_notebook].
(** The required fields: all fields but the optional ones. *)
Definition required : list string := filter (λ f, f ∉ optional) all.
End TagFields.

Example required_fields :
  TagFields.required
  = ["name"; "complexity"; "description"; "multifile"; "categories";
     "pipeline_options"; "default_example"; "context_line"; "tags"].
Proof. reflexivity. Qed.

(** ** Diagnostics

    One record per [logging] call: the [logging.error] calls, and the
    info lines of [get_statuses] and [find_examples]. *)

Inductive log_record : Type :=
| LogMissingField (field : string)
| LogEmptyField (field : string)
| LogMultifile (value : yaml_value)
| LogCategoriesType (value : yaml_value)
| LogUnsupportedCategory (category : yaml_value)
| LogContextLine (value : yaml_value)
| LogIncorrectFormat (filepath : string)
| LogValidationError (msg : string)
| LogInfoConcurrency (n : Z)
| LogInfoSubdir (subdir : string).

(** The level of a record: the two info lines are no errors. *)
Definition is_error (r : log_record) : bool :=
  match r with
  | LogInfoConcurrency _ | LogInfoSubdir _ => false
  | _ => true
  end.

(** ** [_validate]

    [required_tag_fields] is a Python set: the loop meets its elements in
    an order the program does not choose, so the order is an argument. *)

Section validate.

Variable required_tag_fields : list string.

(** One round of the loop over the required fields. *)
Definition check_field (tag : dict) (st : bool * list log_record) (field : string)
  : bool * list log_record :=
  let '(valid, logs) := st in
  let '(valid, logs) :=
    if decide (tag !! field = None)
    then (false, logs ++ [LogMissingField field])
    else (valid, logs) in
  if valid then
    let value := dict_get tag field in
    if (yaml_eq_str value "" || is_none value)
       && negb (String.eqb field TagFields.pipeline_options)
    then (false, logs ++ [LogEmptyField field])
    else (valid, logs)
  else (valid, logs).

(** One round of the loop over the categories. *)
Definition check_category (supported_categories : list string)
    (st : bool * list log_record) (category : yaml_value) : bool * list log_record :=
  let '(valid, logs) := st in
  if negb (existsb (yaml_eq_str category) supported_categories)
  then (false, logs ++ [LogUnsupportedCategory category])
  else (valid, logs).

Definition _validate (tag : dict) (supported_categories : list string)
  : bool * list log_record :=
  let '(valid, logs) := foldl (check_field tag) (true, []) required_tag_fields in
  if negb valid then (valid, logs)
  else
    let multifile := dict_get tag TagFields.multifile in
    let '(valid, logs) :=
      if negb (bool_decide (Str.lower (py_str multifile) ∈ ["true"; "false"]))
      then (false, logs ++ [LogMultifile multifile])
      else (valid, logs) in
    let categories := dict_get tag TagFields.categories in
    let '(valid, logs) :=
      match categories with
      | YList items => foldl (check_category supported_categories) (valid, logs) items
      | _ => (false, logs ++ [LogCategoriesType categories])
      end in
    let context_line := dict_get tag TagFields.context_line in
    let '(valid, logs) :=
      if negb (isinstance_int context_line)
      then (false, logs ++ [LogContextLine context_line])
      else (valid, logs) in
    (valid, logs).

(** [field in tag] on any value: a key of a mapping, a piece of a
    string, an item of a list; a value that is no container raises. *)
Definition contains_field (tag : yaml_value) (field : string) : result bool :=
  match tag with
  | YMap entries => Ok (bool_decide (is_Some (dict_of_entries entries !! field)))
  | YStr s => Ok (Str.contains field s)
  | YList items => Ok (existsb (λ item, yaml_eq_str item field) items)
  | _ => Raise (TypeError "argument is not iterable")
  end.

(** The loop over the required fields on a tag that is no dictionary,
    with [valid] and the diagnostics so far.  What has no [get] raises
    [AttributeError] at [tag.get(field)], which is reached only while
    [valid] is [True]. *)
Fixpoint check_fields_other (tag : yaml_value) (fields : list string)
    (valid : bool) (logs : list log_record) : result bool * list log_record :=
  match fields with
  | [] => (Ok valid, logs)
  | field :: rest =>
      match contains_field tag field with
      | Raise e => (Raise e, logs)
      | Ok present =>
          let '(valid, logs) :=
            if negb present then (false, logs ++ [LogMissingField field])
            else (valid, logs) in
          if valid
          then (Raise (AttributeError "object has no attribute 'get'"), logs)
          else check_fields_other tag rest valid logs
      end
  end.

(** [_validate] on whatever value the tag is.  Nothing in [get_tag] or in
    [_check_file] tests that the value under the top-level key is a
    mapping.  On a value that is none, the loop over the fields runs as
    above, and [tag.get(TagFields.multifile)] raises after it if [valid] is
    still [True]. *)
Definition _validate_value (tag : yaml_value) (supported_categories : list string)
  : result bool * list log_record :=
  match tag with
  | YMap entries =>
      let '(valid, logs) := _validate (dict_of_entries entries) supported_categories in
      (Ok valid, logs)
  | _ =>
      match check_fields_other tag required_tag_fields true [] with
      | (Ok valid, logs) =>
          if negb valid then (Ok valid, logs)
          else (Raise (AttributeError "object has no attribute 'get'"), logs)
      | (Raise e, logs) => (Raise e, logs)
      end
  end.

End validate.

(** ** The world of a run: files, environment, diagnostics

    [opened] records every [open] call in order; [log] every [logging]
    call. *)

Record world : Type := mkWorld {
  files : gmap string string;
  environ : gmap string string;
  opened : list string;
  log : list log_record
}.

(** A computation that reads and writes the world and can raise; the world
    that an exception leaves behind is kept. *)
Definition M (A : Type) : Type := world → result A * world.

Global Instance M_ret : MRet M := fun A a w => (Ok a, w).
Global Instance M_bind : MBind M := fun A B k m w =>
  match m w with
  | (Ok a, w') => k a w'
  | (Raise e, w') => (Raise e, w')
  end.

Definition lift {A} (r : result A) : M A := fun w => (r, w).

Definition logging_error (r : log_record) : M unit := fun w =>
  (Ok tt, mkWorld (files w) (environ w) (opened w) (log w ++ [r])).

Definition logging_errors (rs : list log_record) : M unit := fun w =>
  (Ok tt, mkWorld (files w) (environ w) (opened w) (log w ++ rs)).

Definition logging_info (r : log_record) : M unit := fun w =>
  (Ok tt, mkWorld (files w) (environ w) (opened w) (log w ++ [r])).

(** Text mode with universal newlines: [\r\n] and [\r] are read as [\n]. *)
Definition CR : string := String "013"%char "".

Definition universal_newlines (text : string) : string :=
  Str.replace CR Str.LF (Str.replace (CR +:+ Str.LF) Str.LF text).

(** [open(path, encoding="utf-8").read()] *)
Definition open_read (path : string) : M string := fun w =>
  let w' := mkWorld (files w) (environ w) (opened w ++ [path]) (log w) in
  match files w !! path with
  | Some text => (Ok (universal_newlines text), w')
  | None => (Raise (OSError path), w')
  end.

(** [os.getenv(key, default)] *)
Definition getenv (key fallback : string) : M string := fun w =>
  (Ok (default fallback (environ w !! key)), w).

(** [str.splitlines(keepends=True)] on text whose only line end is [\n]:
    what [readlines] returns. *)
Fixpoint lines_go (cur s : string) : list string :=
  match s with
  | "" => if String.eqb cur "" then [] else [cur]
  | String c s' =>
      if Ascii.eqb c "010"
      then (cur +:+ Str.LF) :: lines_go "" s'
      else lines_go (cur +:+ String c "") s'
  end.

Definition readlines (text : string) : list string := lines_go "" text.

Example readlines_terminated : readlines ("a" +:+ Str.LF +:+ Str.LF +:+ "b")
  = ["a" +:+ Str.LF; Str.LF; "b"].
Proof. reflexivity. Qed.

(** ** [get_tag] *)

(** The [ExampleTag] named tuple.  A named tuple holds what it is given,
    whatever the annotation of the field says: [get_tag] puts the value
    under the top-level key in [tag_as_dict], mapping or not, and
    [_get_example] reads a dictionary there.  [V] is the type of what the
    first field holds. *)
Record ExampleTagOf (V : Type) : Type := mkExampleTag {
  tag_as_dict : V;
  tag_as_string : string
}.
Arguments mkExampleTag {V} _ _.
Arguments tag_as_dict {V} _.
Arguments tag_as_string {V} _.

(** A tag with a dictionary in its first field. *)
Abbreviation ExampleTag := (ExampleTagOf dict).

(** [obj[key]] for a string key: only a mapping can be subscripted so. *)
Definition subscript (obj : yaml_value) (key : string) : result yaml_value :=
  match obj with
  | YMap entries => dict_item (dict_of_entries entries) key
  | _ => Raise (TypeError "not subscriptable by a string")
  end.

Section get_tag.

(** [yaml.load(text, Loader=yaml.SafeLoader)]: the parsed value, or the
    exception the loader raises.  That is a [YAMLError] for text that is no
    YAML; a constructor of the loader can raise another one, as the
    [ValueError] of [datetime.date] for a date that does not exist.  The
    parser is a library and stays a parameter. *)
Variable yaml_load : string → result yaml_value.

(** [Config.BEAM_PLAYGROUND_TITLE] and [Config.BEAM_PLAYGROUND]. *)
Variable BEAM_PLAYGROUND_TITLE : string.
Variable BEAM_PLAYGROUND : string.

Definition format_line (line : string) : string :=
  Str.replace Str.TAB "    " (Str.replace "#" "" (Str.replace "//" "" line)).

(** The loop over the lines, with its three variables.  Leaving the
    recursion with the variables is the [break]; an exception of the
    loader that is no [YAMLError] is not caught and leaves [get_tag]. *)
Fixpoint get_tag_loop (lines : list string)
    (add_to_yaml : bool) (yaml_string tag_string : string)
  : result (bool * string * string) :=
  match lines with
  | [] => Ok (add_to_yaml, yaml_string, tag_string)
  | line :: rest =>
      let formatted_line := format_line line in
      if negb add_to_yaml then
        if String.eqb (Str.lstrip formatted_line) BEAM_PLAYGROUND_TITLE
        then get_tag_loop rest true
               (yaml_string +:+ Str.lstrip formatted_line) (tag_string +:+ line)
        else get_tag_loop rest add_to_yaml yaml_string tag_string
      else
        let yaml_with_new_string := yaml_string +:+ formatted_line in
        match yaml_load yaml_with_new_string with
        | Ok _ =>
            get_tag_loop rest add_to_yaml
              (yaml_string +:+ formatted_line) (tag_string +:+ line)
        | Raise YAMLError => Ok (add_to_yaml, yaml_string, tag_string)
        | Raise e => Raise e
        end
  end.

(** The part of [get_tag] after the file is read. *)
Definition get_tag_lines (lines : list string)
  : result (option (ExampleTagOf yaml_value)) :=
  '(add_to_yaml, yaml_string, tag_string) ← get_tag_loop lines false "" "";
  if add_to_yaml : bool then
    tag_object ← yaml_load yaml_string;
    tag ← subscript tag_object BEAM_PLAYGROUND;
    Ok (Some (mkExampleTag tag tag_string))
  else Ok None.

Definition get_tag (filepath : string) : M (option (ExampleTagOf yaml_value)) :=
  text ← open_read filepath;
  lift (get_tag_lines (readlines text)).

End get_tag.

(** ** A reference parser for a fragment of YAML

    [yaml.load] is a parameter of the extractor.  To run the extractor on
    concrete files, [MiniYaml.load] parses the fragment the documented tags
    are written in: block mappings nested by space indentation, one
    [key: value] per line, plain one-line scalars and one-line flow
    sequences of them.  [MiniYaml.parse] answers [None] for everything
    else, and [MiniYaml.load] raises [YAMLError] then. *)

Module MiniYaml.

Definition is_digit (c : ascii) : bool :=
  let n := nat_of_ascii c in ((48 <=? n) && (n <=? 57))%nat.

Definition is_letter (c : ascii) : bool :=
  let n := nat_of_ascii c in
  (((65 <=? n) && (n <=? 90)) || ((97 <=? n) && (n <=? 122)))%nat.

Definition is_key_char (c : ascii) : bool :=
  is_letter c || is_digit c || bool_decide (c ∈ ["_"; "-"]%char).

Definition is_plain_char (c : ascii) : bool :=
  is_key_char c || bool_decide (c ∈ [" "; "."; "/"; ":"; "#"]%char).

Fixpoint all_chars (p : ascii → bool) (s : string) : bool :=
  match s with
  | "" => true
  | String c s' => p c && all_chars p s'
  end.

Definition head_is (p : ascii → bool) (s : string) : bool :=
  match s with
  | "" => false
  | String c _ => p c
  end.

Fixpoint rstrip_spaces (s : string) : string :=
  match s with
  | "" => ""
  | String c s' =>
      match rstrip_spaces s' with
      | "" => if Ascii.eqb c " " then "" else String c ""
      | r => String c r
      end
  end.

Fixpoint lstrip_spaces (s : string) : string :=
  match s with
  | String " " s' => lstrip_spaces s'
  | _ => s
  end.

Fixpoint decimal_go (acc : Z) (s : string) : Z :=
  match s with
  | "" => acc
  | String c s' => decimal_go (10 * acc + Z.of_nat (nat_of_ascii c - 48)) s'
  end.

(** The implicit types of a plain scalar: the words for booleans and null,
    decimal integers without a sign or a leading zero, and strings that
    start with a letter. *)
Definition scalar (v : string) : option yaml_value :=
  if bool_decide (v ∈ ["yes"; "Yes"; "YES"; "true"; "True"; "TRUE"; "on"; "On"; "ON"])
  then Some (YBool true)
  else if bool_decide (v ∈ ["no"; "No"; "NO"; "false"; "False"; "FALSE"; "off"; "Off"; "OFF"])
  then Some (YBool false)
  else if bool_decide (v ∈ ["~"; "null"; "Null"; "NULL"])
  then Some YNull
  else if String.eqb v "0" || (all_chars is_digit v && negb (head_is (Ascii.eqb "0") v)
                               && negb (String.eqb v ""))
  then Some (YInt (decimal_go 0 v))
  else if head_is is_letter v && all_chars is_plain_char v
          && negb (Str.contains ": " v) && negb (Str.contains " #" v)
          && negb (Str.endswith ":" v)
  then Some (YStr v)
  else None.

Fixpoint drop_last (s : string) : string :=
  match s with
  | "" | String _ "" => ""
  | String c s' => String c (drop_last s')
  end.

Definition flow_item (s : string) : option yaml_value :=
  let v := rstrip_spaces (lstrip_spaces s) in
  if negb (Str.contains ":" v) && negb (Str.contains "#" v) then scalar v else None.

(** A value: a scalar, or a one-line flow sequence of scalars between
    square brackets. *)
Definition value (v : string) : option yaml_value :=
  match v with
  | String "[" inner =>
      if Str.endswith "]" inner then
        let body := drop_last inner in
        if String.eqb (lstrip_spaces body) "" then Some (YList [])
        else YList <$> mapM flow_item (Str.split "," body)
      else None
  | _ => scalar v
  end.

Fixpoint count_indent (s : string) : nat * string :=
  match s with
  | String " " s' => let '(n, r) := count_indent s' in (S n, r)
  | _ => (0, s)
  end.

(** Splits [key: value] at the first colon. *)
Fixpoint split_colon (key s : string) : option (string * string) :=
  match s with
  | "" => None
  | String c s' =>
      if Ascii.eqb c ":" then Some (key, s') else split_colon (key +:+ String c "") s'
  end.

Inductive line_kind : Type :=
| Blank
| Entry (indent : nat) (key : string) (value : option yaml_value)
| Bad.

Definition classify (line : string) : line_kind :=
  let '(indent, rest) := count_indent line in
  if String.eqb rest "" then Blank
  else
    match split_colon "" rest with
    | None => Bad
    | Some (key, after) =>
        if head_is is_letter key && all_chars is_key_char key
           && match scalar key with Some (YStr _) => true | _ => false end
        then
          if String.eqb (lstrip_spaces after) "" then Entry indent key None
          else if head_is (Ascii.eqb " ") after
          then match value (rstrip_spaces (lstrip_spaces after)) with
               | Some v => Entry indent key (Some v)
               | None => Bad
               end
          else Bad
        else Bad
    end.

(** An open block mapping: its indentation, its entries so far (latest
    first), and the key that still waits for its value. *)
Record frame : Type := mkFrame {
  f_indent : nat;
  f_entries : list (string * yaml_value);
  f_pending : option string
}.

Definition closed_entries (f : frame) : list (string * yaml_value) :=
  rev (match f_pending f with
       | Some k => (k, YNull) :: f_entries f
       | None => f_entries f
       end).

(** Closes the blocks indented deeper than [indent]; a line indented less
    than the outermost block is an error. *)
Fixpoint close_to (indent : nat) (top : frame) (below : list frame)
  : option (frame * list frame) :=
  if (f_indent top <=? indent)%nat then Some (top, below)
  else match below with
       | [] => None
       | parent :: below' =>
           match f_pending parent with
           | Some k =>
               close_to indent
                 (mkFrame (f_indent parent)
                    ((k, YMap (closed_entries top)) :: f_entries parent) None)
                 below'
           | None => None
           end
       end.

Definition add_entry (indent : nat) (key : string) (value : option yaml_value)
    (stack : list frame) : option (list frame) :=
  let fresh :=
    match value with
    | Some v => mkFrame indent [(key, v)] None
    | None => mkFrame indent [] (Some key)
    end in
  match stack with
  | [] => Some [fresh]
  | top :: below =>
      match close_to indent top below with
      | None => None
      | Some (top, below) =>
          if (f_indent top =? indent)%nat then
            let entries := rev (closed_entries top) in
            Some (match value with
                  | Some v => mkFrame indent ((key, v) :: entries) None
                  | None => mkFrame indent entries (Some key)
                  end :: below)
          else
            match f_pending top with
            | Some _ => Some (fresh :: top :: below)
            | None => None
            end
      end
  end.

Fixpoint parse_lines (lines : list string) (stack : list frame) : option (list frame) :=
  match lines with
  | [] => Some stack
  | line :: rest =>
      match classify line with
      | Blank => parse_lines rest stack
      | Bad => None
      | Entry indent key value =>
          match add_entry indent key value stack with
          | Some stack' => parse_lines rest stack'
          | None => None
          end
      end
  end.

Fixpoint close_all (top : frame) (below : list frame) : option yaml_value :=
  match below with
  | [] => Some (YMap (closed_entries top))
  | parent :: below' =>
      match f_pending parent with
      | Some k =>
          close_all
            (mkFrame (f_indent parent)
               ((k, YMap (closed_entries top)) :: f_entries parent) None)
            below'
      | None => None
      end
  end.

Definition parse (text : string) : option yaml_value :=
  match parse_lines (Str.split Str.LF text) [] with
  | None => None
  | Some [] => Some YNull
  | Some (top :: below) => close_all top below
  end.

Definition load (text : string) : result yaml_value :=
  match parse text with
  | Some v => Ok v
  | None => Raise YAMLError
  end.

End MiniYaml.

(** Modelled from the spec: [config.Config] is not part of the sources.
    The marker string is the title the docstring of [find_examples] shows,
    with its line end, and the top-level key is the title without the
    colon. *)
Module Config.
Definition BEAM_PLAYGROUND_TITLE : string := "Beam-playground:" +:+ Str.LF.
Definition BEAM_PLAYGROUND : string := "Beam-playground".
End Config.

(** A line of text with its line end. *)
Definition ln (s : string) : string := s +:+ Str.LF.

(** ** Backend enumerations and example records *)

(** Modelled from the spec: [api_pb2] is generated code outside the
    sources.  The SDK kinds, the object types the helper imports, and the
    job statuses: the four that are polled and the terminal variants. *)
Inductive Sdk : Type :=
| SDK_UNSPECIFIED | SDK_JAVA | SDK_GO | SDK_PYTHON | SDK_SCIO.

Inductive PrecompiledObjectType : Type :=
| PRECOMPILED_OBJECT_TYPE_UNSPECIFIED
| PRECOMPILED_OBJECT_TYPE_EXAMPLE
| PRECOMPILED_OBJECT_TYPE_KATA
| PRECOMPILED_OBJECT_TYPE_UNIT_TEST.

Inductive Status : Type :=
| STATUS_UNSPECIFIED
| STATUS_VALIDATING
| STATUS_VALIDATION_ERROR
| STATUS_PREPARING
| STATUS_PREPARATION_ERROR
| STATUS_COMPILING
| STATUS_COMPILE_ERROR
| STATUS_EXECUTING
| STATUS_FINISHED
| STATUS_RUN_ERROR
| STATUS_ERROR
| STATUS_RUN_TIMEOUT
| STATUS_CANCELED.

Global Instance Sdk_eq_dec : EqDecision Sdk.
Proof. solve_decision. Defined.
Global Instance Status_eq_dec : EqDecision Status.
Proof. solve_decision. Defined.

(** Modelled from the spec: [config.Dataset] and [config.Emulator] are
    not part of the sources; their fields are those of the data model. *)
Record Dataset : Type := mkDataset {
  dataset_name : string;
  dataset_location : string;
  dataset_format : string;
  dataset_path : string
}.

Record Topic : Type := mkTopic { topic_id : string; topic_dataset : string }.

Record Emulator : Type := mkEmulator {
  emulator_name : string;
  emulator_topic : Topic
}.

(** The [Tag] named tuple. *)
Record Tag : Type := mkTag {
  tag_name : yaml_value;
  tag_complexity : yaml_value;
  tag_emulators : yaml_value;
  tag_datasets : yaml_value;
  tag_description : yaml_value;
  tag_multifile : yaml_value;
  tag_categories : yaml_value;
  tag_pipeline_options : yaml_value;
  tag_default_example : yaml_value;
  tag_context_line : yaml_value;
  tag_tags : yaml_value;
  tag_url_notebook : yaml_value
}.

(** [Tag] called with the dictionary as keyword arguments: a key that is no field is a [TypeError]; a field without
    a key takes its default, [False] for [multifile] and
    [default_example], [None] for the others. *)
Definition make_Tag (d : dict) : result Tag :=
  if bool_decide (map_Forall (λ k _, k ∈ TagFields.all) d) then
    Ok {| tag_name := dict_get d TagFields.name;
          tag_complexity := dict_get d TagFields.complexity;
          tag_emulators := dict_get d TagFields.emulators;
          tag_datasets := dict_get d TagFields.datasets;
          tag_description := dict_get d TagFields.description;
          tag_multifile := default (YBool false) (d !! TagFields.multifile);
          tag_categories := dict_get d TagFields.categories;
          tag_pipeline_options := dict_get d TagFields.pipeline_options;
          tag_default_example := default (YBool false) (d !! TagFields.default_example);
          tag_context_line := dict_get d TagFields.context_line;
          tag_tags := dict_get d TagFields.tags;
          tag_url_notebook := dict_get d TagFields.url_notebook |}
  else Raise (TypeError "unexpected keyword argument").

(** The [Example] data class.  The fields taken from the tag hold
    whatever the tag holds. *)
Record Example : Type := mkExample {
  name : yaml_value;
  complexity : yaml_value;
  sdk : Sdk;
  filepath : string;
  code : string;
  status : Status;
  tag : Tag;
  url_vcs : string;
  url_notebook : yaml_value;
  logs : string;
  type : PrecompiledObjectType;
  pipeline_id : string;
  output : string;
  compile_output : string;
  graph : string;
  datasets : list Dataset;
  emulators : list Emulator
}.

(** [example.pipeline_id = p], [example.status = s] and the two list
    assignments of [_get_example]. *)
Definition set_pipeline_id (p : string) (e : Example) : Example :=
  mkExample (name e) (complexity e) (sdk e) (filepath e) (code e) (status e) (tag e)
    (url_vcs e) (url_notebook e) (logs e) (type e) p (output e) (compile_output e)
    (graph e) (datasets e) (emulators e).

Definition set_status (s : Status) (e : Example) : Example :=
  mkExample (name e) (complexity e) (sdk e) (filepath e) (code e) s (tag e)
    (url_vcs e) (url_notebook e) (logs e) (type e) (pipeline_id e) (output e)
    (compile_output e) (graph e) (datasets e) (emulators e).

Definition set_datasets (ds : list Dataset) (e : Example) : Example :=
  mkExample (name e) (complexity e) (sdk e) (filepath e) (code e) (status e) (tag e)
    (url_vcs e) (url_notebook e) (logs e) (type e) (pipeline_id e) (output e)
    (compile_output e) (graph e) ds (emulators e).

Definition set_emulators (es : list Emulator) (e : Example) : Example :=
  mkExample (name e) (complexity e) (sdk e) (filepath e) (code e) (status e) (tag e)
    (url_vcs e) (url_notebook e) (logs e) (type e) (pipeline_id e) (output e)
    (compile_output e) (graph e) (datasets e) es.

(** ** Building example records *)

(** [s.rfind(c)] for one character, counted from the left. *)
Fixpoint rfind_go (c : ascii) (i : nat) (found : option nat) (s : string) : option nat :=
  match s with
  | "" => found
  | String d s' => rfind_go c (S i) (if Ascii.eqb d c then Some i else found) s'
  end.

Definition rfind (c : ascii) (s : string) : option nat := rfind_go c 0 None s.

(** [os.path.splitext(p)[0]]: the extension starts at the last dot of the
    last component, unless only dots precede it there. *)
Definition splitext_root (p : string) : string :=
  let filenameIndex := match rfind "/" p with Some i => S i | None => 0 end in
  match rfind "." p with
  | Some dotIndex =>
      if (filenameIndex <=? dotIndex)%nat
         && existsb (λ i, negb (bool_decide (String.get i p = Some "."%char)))
              (seq filenameIndex (dotIndex - filenameIndex))
      then String.substring 0 dotIndex p
      else p
  | None => p
  end.

Example splitext_plain : splitext_root "a/b.tar.gz" = "a/b.tar".
Proof. reflexivity. Qed.
Example splitext_hidden : splitext_root "dir.d/.bashrc" = "dir.d/.bashrc".
Proof. reflexivity. Qed.

(** [validate_example_fields]'s two loops. *)
Definition dataset_valid (d : Dataset) : bool :=
  bool_decide (dataset_location d = "local")
  && bool_decide (dataset_format d ∈ ["json"; "avro"]).

Definition emulator_valid (dataset_names : list string) (e : Emulator) : bool :=
  bool_decide (emulator_name e = "kafka")
  && bool_decide (topic_dataset (emulator_topic e) ∈ dataset_names).

Definition _log_and_raise_validation_err {A} (msg : string) : M A := fun w =>
  (Raise (ValidationException msg),
   mkWorld (files w) (environ w) (opened w) (log w ++ [LogValidationError msg])).

(** [if cond: _log_and_raise_validation_err(msg)] *)
Definition check (cond : bool) (msg : string) : M unit :=
  if cond then _log_and_raise_validation_err msg else mret tt.

(** The message of a check, with the path of the example as the code
    appends it. *)
Definition with_path (msg : string) (example : Example) : string :=
  msg +:+ " Path: " +:+ filepath example.

(** The message of the first check ends with the [repr] of the record
    instead of its path, which is empty there; the [repr] is left out. *)
Definition validate_example_fields (example : Example) : M unit :=
  check (String.eqb (filepath example) "") "Example doesn't have a file path field.";;
  check (yaml_eq_str (name example) "")
    (with_path "Example doesn't have a name field." example);;
  check (bool_decide (sdk example = SDK_UNSPECIFIED))
    (with_path "Example doesn't have a sdk field." example);;
  check (String.eqb (code example) "")
    (with_path "Example doesn't have a code field." example);;
  check (String.eqb (url_vcs example) "")
    (with_path "Example doesn't have a url_vcs field." example);;
  check (yaml_eq_str (complexity example) "")
    (with_path "Example doesn't have a complexity field." example);;
  let datasets := datasets example in
  let emulators := emulators example in
  check (bool_decide (datasets ≠ []) && bool_decide (emulators = []))
    (with_path "Example has a datasets field but an emulators field not found." example);;
  check (bool_decide (emulators ≠ []) && bool_decide (datasets = []))
    (with_path "Example has an emulators field but a datasets field not found." example);;
  check (negb (forallb dataset_valid datasets))
    (with_path "Example has invalid dataset value." example);;
  check (negb (forallb (emulator_valid (dataset_name <$> datasets)) emulators))
    (with_path "Example has invalid emulator value." example).

(** [v -= n] on a tag value. *)
Definition py_sub (float_sub : string → Z → string) (v : yaml_value) (n : Z)
  : result yaml_value :=
  match v with
  | YInt i => Ok (YInt (i - n))
  | YBool b => Ok (YInt ((if b then 1 else 0) - n))
  | YFloat r => Ok (YFloat (float_sub r n))
  | _ => Raise (TypeError "unsupported operand type(s) for -=")
  end.

(** [for key in d: f(d.get(key))] over a tag value [d]: a mapping is
    walked in the order of its entries, which list the items of a dict. *)
Definition for_keys {A} (d : yaml_value) (f : string → yaml_value → result A)
  : result (list A) :=
  match d with
  | YMap entries =>
      mapM (λ key, f key (dict_get (dict_of_entries entries) key)) (entries.*1)
  | YList _ | YStr _ => Raise (AttributeError "object has no attribute 'get'")
  | _ => Raise (TypeError "object is not iterable")
  end.

Section get_example.

Variable yaml_load : string → result yaml_value.
Variable required_tag_fields : list string.

(** [Config.BEAM_PLAYGROUND_TITLE], [Config.BEAM_PLAYGROUND],
    [Config.EXTENSION_TO_SDK], [Config.SDK_TO_EXTENSION],
    [Config.URL_VCS_PREFIX] and the [PrecompiledExampleType] constants. *)
Variable BEAM_PLAYGROUND_TITLE : string.
Variable BEAM_PLAYGROUND : string.
Variable EXTENSION_TO_SDK : gmap string Sdk.
Variable SDK_TO_EXTENSION : Sdk → option string.
Variable URL_VCS_PREFIX : string.
Variable test_ends : list string.
Variable katas : string.
Variable examples_dir : string.

(** [os.path.relpath], which depends on the working directory; float
    subtraction; [Dataset.from_dict] and [Emulator.from_dict]. *)
Variable os_path_relpath : string → string → result string.
Variable float_sub : string → Z → string.
Variable Dataset_from_dict : yaml_value → result Dataset.
Variable Emulator_from_dict : yaml_value → result Emulator.

Definition _get_object_type (filename filepath : string) : PrecompiledObjectType :=
  let filename_no_ext := Str.lower (splitext_root filename) in
  if existsb (λ suffix, Str.endswith suffix filename_no_ext) test_ends
  then PRECOMPILED_OBJECT_TYPE_UNIT_TEST
  else if bool_decide (katas ∈ Str.split "/" filepath)
  then PRECOMPILED_OBJECT_TYPE_KATA
  else if bool_decide (examples_dir ∈ Str.split "/" filepath)
  then PRECOMPILED_OBJECT_TYPE_EXAMPLE
  else PRECOMPILED_OBJECT_TYPE_UNSPECIFIED.

Definition _get_url_vcs (filepath : string) : M string :=
  root_dir ← getenv "BEAM_ROOT_DIR" "../..";
  rel_path ← lift (os_path_relpath filepath root_dir);
  mret (URL_VCS_PREFIX +:+ "/" +:+ rel_path).

Definition _get_example (filepath filename : string) (tag : ExampleTag) : M Example :=
  name ← lift (dict_item (tag_as_dict tag) TagFields.name);
  complexity ← lift (dict_item (tag_as_dict tag) TagFields.complexity);
  let url_notebook := dict_get (tag_as_dict tag) TagFields.url_notebook in
  sdk ← lift (match EXTENSION_TO_SDK !! Str.split_last "." filename with
              | Some sdk => Ok sdk
              | None => Raise (KeyError (Str.split_last "." filename))
              end);
  let object_type := _get_object_type filename filepath in
  content ← open_read filepath;
  let content := Str.replace (tag_as_string tag) "" content in
  declared ← lift (dict_item (tag_as_dict tag) TagFields.context_line);
  context_line ← lift (py_sub float_sub declared
                         (Z.of_nat (Str.count Str.LF (tag_as_string tag))));
  let tag_as_dict := <[TagFields.context_line := context_line]> (tag_as_dict tag) in
  tag_tuple ← lift (make_Tag tag_as_dict);
  url_vcs ← _get_url_vcs filepath;
  let example :=
    mkExample name complexity sdk filepath content STATUS_UNSPECIFIED tag_tuple
      url_vcs url_notebook "" object_type "" "" "" "" [] [] in
  example ←
    (if truthy (dict_get tag_as_dict TagFields.datasets) then
       datasets ← lift (for_keys (dict_get tag_as_dict TagFields.datasets)
                          (λ key v, dataset ← Dataset_from_dict v;
                                    Ok (mkDataset key (dataset_location dataset)
                                          (dataset_format dataset) (dataset_path dataset))));
       mret (set_datasets datasets example)
     else mret example);
  example ←
    (if truthy (dict_get tag_as_dict TagFields.emulators) then
       emulators ← lift (for_keys (dict_get tag_as_dict TagFields.emulators)
                           (λ key v, emulator ← Emulator_from_dict v;
                                     Ok (mkEmulator key (emulator_topic emulator))));
       mret (set_emulators emulators example)
     else mret example);
  validate_example_fields example;;
  mret example.

(** [_get_example] on what [get_tag] returned.  The first thing it does
    is to subscript the tag by a field name, which only a mapping allows. *)
Definition _get_example_of (filepath filename : string) (tag : ExampleTagOf yaml_value)
  : M Example :=
  match tag_as_dict tag with
  | YMap entries =>
      _get_example filepath filename
        (mkExampleTag (dict_of_entries entries) (tag_as_string tag))
  | _ => lift (Raise (TypeError "not subscriptable by a string"))
  end.

(** [_check_file]: the list of examples comes back with the example
    appended. *)
Definition _check_file (examples : list Example) (filename filepath : string)
    (supported_categories : list string) (sdk : Sdk) : M (bool * list Example) :=
  if Str.endswith "infrastructure/helper.py" filepath then mret (false, examples)
  else
    let extension := Str.split_last "." filepath in
    sdk_extension ← lift (match SDK_TO_EXTENSION sdk with
                          | Some e => Ok e
                          | None => Raise (KeyError "sdk")
                          end);
    if String.eqb extension sdk_extension then
      tag ← get_tag yaml_load BEAM_PLAYGROUND_TITLE BEAM_PLAYGROUND filepath;
      match tag with
      | Some tag =>
          let '(outcome, errors) :=
            _validate_value required_tag_fields (tag_as_dict tag) supported_categories in
          logging_errors errors;;
          valid ← lift outcome;
          if negb valid then
            logging_error (LogIncorrectFormat filepath);;
            mret (true, examples)
          else
            example ← _get_example_of filepath filename tag;
            mret (false, examples ++ [example])
      | None => mret (false, examples)
      end
    else mret (false, examples).

End get_example.

(** Modelled from the spec: the remaining constants of [config.Config] and
    [config.PrecompiledExampleType], for running the builder on concrete
    files.  [relpath_from_root] stands for [os.path.relpath] in a working
    directory from which the example paths are already relative to the
    root. *)
Module ConfigValues.
Definition EXTENSION_TO_SDK : gmap string Sdk :=
  list_to_map [("java", SDK_JAVA); ("go", SDK_GO); ("py", SDK_PYTHON); ("scala", SDK_SCIO)].
Definition SDK_TO_EXTENSION (sdk : Sdk) : option string :=
  match sdk with
  | SDK_JAVA => Some "java"
  | SDK_GO => Some "go"
  | SDK_PYTHON => Some "py"
  | SDK_SCIO => Some "scala"
  | SDK_UNSPECIFIED => None
  end.
Definition URL_VCS_PREFIX : string := "https://github.com/apache/beam/blob/master".
Definition test_ends : list string := ["test"; "it"].
Definition katas : string := "katas".
Definition examples_dir : string := "examples".
Definition relpath_from_root (path start : string) : result string :=
  if String.eqb path "" then Raise (ValueError "no path specified") else Ok path.
Definition float_sub (r : string) (n : Z) : string := r +:+ " - " +:+ pretty n.
Definition no_from_dict {A} (v : yaml_value) : result A :=
  Raise (TypeError "from_dict").
End ConfigValues.

(** [_check_file] and [_get_example] with the reference parser and these
    constants. *)
Definition check_file_ref (required_tag_fields : list string) :=
  _check_file MiniYaml.load required_tag_fields
    Config.BEAM_PLAYGROUND_TITLE Config.BEAM_PLAYGROUND
    ConfigValues.EXTENSION_TO_SDK ConfigValues.SDK_TO_EXTENSION
    ConfigValues.URL_VCS_PREFIX ConfigValues.test_ends ConfigValues.katas
    ConfigValues.examples_dir ConfigValues.relpath_from_root ConfigValues.float_sub
    ConfigValues.no_from_dict ConfigValues.no_from_dict.

Definition get_example_ref :=
  _get_example ConfigValues.EXTENSION_TO_SDK ConfigValues.URL_VCS_PREFIX
    ConfigValues.test_ends ConfigValues.katas ConfigValues.examples_dir
    ConfigValues.relpath_from_root ConfigValues.float_sub
    ConfigValues.no_from_dict ConfigValues.no_from_dict.

(** A world with one file. *)
Definition one_file (path text : string) : world :=
  mkWorld {[path := text]} ∅ [] [].

(** ** The status polling engine *)

(** [int(s)] on a string.  [int] skips the white space it knows at both
    ends: the ASCII characters from tab to carriage return and the space,
    and, above ASCII, the characters [str.isspace] holds for (next line and
    no-break space, below 256).  The separators 28 to 31, which [str.strip]
    removes, are no white space for [int].  Between the two comes an
    optional sign and decimal digits that single underscores may separate.
    A text with more than [int_max_str_digits] digits is refused whatever
    it is worth. *)
Definition int_isspace (c : ascii) : bool :=
  match c with
  | "009" | "010" | "011" | "012" | "013" | " " | "133" | "160" => true
  | _ => false
  end%char.

Fixpoint int_skip_spaces (s : string) : string :=
  match s with
  | "" => ""
  | String c s' => if int_isspace c then int_skip_spaces s' else s
  end.

(** The scan: the longest run of digits and underscores, and what follows
    it. *)
Fixpoint digit_run (s : string) : string * string :=
  match s with
  | "" => ("", "")
  | String c s' =>
      if MiniYaml.is_digit c || Ascii.eqb c "_"
      then let '(run, rest) := digit_run s' in (String c run, rest)
      else ("", s)
  end.

Fixpoint count_digits (s : string) : nat :=
  match s with
  | "" => 0
  | String c s' => (if MiniYaml.is_digit c then 1 else 0) + count_digits s'
  end.

(** The value of a run, when it starts and ends with a digit and no two
    underscores meet. *)
Fixpoint digits_go (acc : Z) (after_digit : bool) (s : string) : option Z :=
  match s with
  | "" => if after_digit then Some acc else None
  | String c s' =>
      if MiniYaml.is_digit c
      then digits_go (10 * acc + Z.of_nat (nat_of_ascii c - 48)) true s'
      else if Ascii.eqb c "_" && after_digit then
             if MiniYaml.head_is MiniYaml.is_digit s' then digits_go acc false s' else None
           else None
  end.

(** [sys.get_int_max_str_digits()], as the interpreter starts with. *)
Definition int_max_str_digits : nat := 4300.

Definition invalid_literal : exn :=
  ValueError "invalid literal for int() with base 10".

Definition int_of_str (s : string) : result Z :=
  let text := int_skip_spaces s in
  let '(negative, body) :=
    match text with
    | String "-" r => (true, r)
    | String "+" r => (false, r)
    | _ => (false, text)
    end in
  let '(run, rest) := digit_run body in
  match digits_go 0 false run with
  | None => Raise invalid_literal
  | Some n =>
      if (int_max_str_digits <? count_digits run)%nat
      then Raise (ValueError "Exceeds the limit (4300 digits) for integer string conversion")
      else if String.eqb (int_skip_spaces rest) ""
      then Ok (if negative then (- n)%Z else n)
      else Raise invalid_literal
  end.

(** [c * n] for a one-character string [c]. *)
Fixpoint str_repeat (c : ascii) (n : nat) : string :=
  match n with
  | O => ""
  | S n' => String c (str_repeat c n')
  end.

Example int_plain : int_of_str " 12 " = Ok 12%Z ∧ int_of_str "1_000" = Ok 1000%Z
  ∧ int_of_str "-3" = Ok (-3)%Z ∧ int_of_str "007" = Ok 7%Z
  ∧ int_of_str (String "160" (String "012" "+7" +:+ String "133" "")) = Ok 7%Z.
Proof. repeat split. Qed.
Example int_invalid : raises (int_of_str "") ∧ raises (int_of_str "ten")
  ∧ raises (int_of_str "1__0") ∧ raises (int_of_str "3.5") ∧ raises (int_of_str "- 1")
  ∧ raises (int_of_str "1 2") ∧ raises (int_of_str "_1") ∧ raises (int_of_str "1_").
Proof. repeat split; by eexists. Qed.
(** A separator is white space for [str.strip] and not for [int]. *)
Example int_separator :
  Str.lstrip (String "028" "7") = "7" ∧ int_of_str (String "028" "7") = Raise invalid_literal
  ∧ int_of_str (String "031" "7") = Raise invalid_literal.
Proof. repeat split. Qed.
(** The limit counts the digits, leading zeros too, and neither the sign
    nor the underscores; it is tested before the text after the run. *)
Example int_digit_limit :
  int_of_str (str_repeat "0" 4300) = Ok 0%Z
  ∧ int_of_str ("+" +:+ str_repeat "0" 4300) = Ok 0%Z
  ∧ int_of_str (str_repeat "0" 4301)
    = Raise (ValueError "Exceeds the limit (4300 digits) for integer string conversion")
  ∧ int_of_str (str_repeat "1" 4301 +:+ "x")
    = Raise (ValueError "Exceeds the limit (4300 digits) for integer string conversion")
  ∧ int_of_str (str_repeat "1" 4301 +:+ "_") = Raise invalid_literal.
Proof. repeat split; vm_compute; reflexivity. Qed.

(** The payload of [client.run_code]. *)
Record api_Dataset : Type := mkApiDataset {
  api_type : Z;
  api_options : list (string * string);
  api_dataset_path : string
}.

Record run_code_request : Type := mkRequest {
  req_code : string;
  req_sdk : Sdk;
  req_pipeline_options : yaml_value;
  req_datasets : list api_Dataset
}.

(** What a backend call does to the task that awaits it. *)
Inductive reply (A : Type) : Type :=
| Returns (a : A)
| Raises (e : exn).
Arguments Returns {A} a.
Arguments Raises {A} e.

(** Where the coroutine of one example stands.  [Created] covers the time
    before the coroutine first runs and the wait in
    [semaphore.acquire()]; the next three hold a slot of the semaphore. *)
Inductive task : Type :=
| Created
| Submitting (request : run_code_request)
| Polling (pipeline_id : string)
| Sleeping (pipeline_id : string)
| Finished
| Failed (e : exn).

(** The awaited [tqdm.gather] of the coroutines.  It wraps every coroutine in a task
    of the event loop and awaits them as they complete: it returns when all
    have returned, and re-raises the exception of a failed one when it
    meets it.  It cancels nothing: the tasks of the siblings stay on the
    loop. *)
Inductive gather_state : Type :=
| Running
| Returned
| Raised (e : exn).

Record engine : Type := mkEngine {
  semaphore : Z;
  tasks : list task;
  examples : list Example;
  gather : gather_state
}.

(** The points where the event loop resumes a coroutine: coroutine [i]
    gets through [semaphore.acquire()]; [client.run_code] or
    [client.check_status] answers it, with a value or an exception;
    its [asyncio.sleep] is over; the gathering coroutine sees that all have
    returned, or meets the failed coroutine [i]. *)
Inductive event : Type :=
| Acquire (i : nat)
| RunCode (i : nat) (r : reply string)
| CheckStatus (i : nat) (r : reply Status)
| Wake (i : nat)
| GatherReturn
| GatherRaise (i : nat).

(** [status in [STATUS_VALIDATING, STATUS_PREPARING, STATUS_COMPILING,
    STATUS_EXECUTING]] *)
Definition polled (s : Status) : bool :=
  bool_decide (s ∈ [STATUS_VALIDATING; STATUS_PREPARING; STATUS_COMPILING; STATUS_EXECUTING]).

Definition in_flight (t : task) : bool :=
  match t with
  | Submitting _ | Polling _ | Sleeping _ => true
  | _ => false
  end.

Definition ended (t : task) : bool :=
  match t with
  | Finished | Failed _ => true
  | _ => false
  end.

(** [asyncio.Semaphore(value)] *)
Definition Semaphore (value : Z) : result Z :=
  if (value <? 0)%Z then Raise (ValueError "Semaphore initial value must be >= 0")
  else Ok value.

(** The [try] block at the head of [get_statuses]: both exceptions are
    swallowed, and an override that parses is logged at info level. *)
Definition read_concurrency (concurrency : Z) : M Z := fun w =>
  match environ w !! "BEAM_CONCURRENCY" with
  | None => (Ok concurrency, w)
  | Some text =>
      match int_of_str text with
      | Ok n => (Ok n, mkWorld (files w) (environ w) (opened w)
                         (log w ++ [LogInfoConcurrency n]))
      | Raise _ => (Ok concurrency, w)
      end
  end.

(** [get_statuses] up to the [await]: the limit, the semaphore, one
    coroutine per example. *)
Definition get_statuses_start (examples : list Example) (concurrency : Z) : M engine :=
  concurrency ← read_concurrency concurrency;
  semaphore ← lift (Semaphore concurrency);
  mret (mkEngine semaphore (replicate (length examples) Created) examples Running).

Section engine.

(** [api_pb2.EmulatorType.Value(name)]: a [ValueError] for a name the
    enumeration does not have. *)
Variable EmulatorType_Value : string → result Z.

(** The head of [_update_example_status]: the dataset payload. *)
Definition build_datasets (example : Example) : result (list api_Dataset) :=
  match datasets example, emulators example with
  | dataset_tag :: _, emulator_tag :: _ =>
      type ← EmulatorType_Value
                ("EMULATOR_TYPE_" +:+ Str.upper (emulator_name emulator_tag));
      Ok [mkApiDataset type [("topic", topic_id (emulator_topic emulator_tag))]
            (dataset_path dataset_tag)]
  | _, _ => Ok []
  end.

Definition set_task (i : nat) (t : task) (σ : engine) : engine :=
  mkEngine (semaphore σ) (<[i := t]> (tasks σ)) (examples σ) (gather σ).

Definition update_example (i : nat) (f : Example → Example) (σ : engine) : engine :=
  mkEngine (semaphore σ) (tasks σ) (alter f i (examples σ)) (gather σ).

(** [semaphore.release()] in the [finally] of [_semaphored_task]. *)
Definition release (σ : engine) : engine :=
  mkEngine (semaphore σ + 1) (tasks σ) (examples σ) (gather σ).

Definition acquire (σ : engine) : engine :=
  mkEngine (semaphore σ - 1) (tasks σ) (examples σ) (gather σ).

(** One resumption.  [None]: the event cannot happen in this state. *)
Definition step (σ : engine) (ev : event) : option engine :=
  match ev with
  | Acquire i =>
      match tasks σ !! i, examples σ !! i with
      | Some Created, Some example =>
          if (0 <? semaphore σ)%Z then
            match build_datasets example with
            | Ok datasets =>
                Some (set_task i
                        (Submitting (mkRequest (code example) (sdk example)
                                       (tag_pipeline_options (tag example)) datasets))
                        (acquire σ))
            | Raise e => Some (release (set_task i (Failed e) (acquire σ)))
            end
          else None
      | _, _ => None
      end
  | RunCode i r =>
      match tasks σ !! i with
      | Some (Submitting _) =>
          match r with
          | Returns pipeline_id =>
              Some (set_task i (Polling pipeline_id)
                      (update_example i (set_pipeline_id pipeline_id) σ))
          | Raises e => Some (release (set_task i (Failed e) σ))
          end
      | _ => None
      end
  | CheckStatus i r =>
      match tasks σ !! i with
      | Some (Polling pipeline_id) =>
          match r with
          | Returns status =>
              if polled status then Some (set_task i (Sleeping pipeline_id) σ)
              else Some (release (set_task i Finished
                                    (update_example i (set_status status) σ)))
          | Raises e => Some (release (set_task i (Failed e) σ))
          end
      | _ => None
      end
  | Wake i =>
      match tasks σ !! i with
      | Some (Sleeping pipeline_id) => Some (set_task i (Polling pipeline_id) σ)
      | _ => None
      end
  | GatherReturn =>
      match gather σ with
      | Running =>
          if forallb (λ t, match t with Finished => true | _ => false end) (tasks σ)
          then Some (mkEngine (semaphore σ) (tasks σ) (examples σ) Returned)
          else None
      | _ => None
      end
  | GatherRaise i =>
      match gather σ, tasks σ !! i with
      | Running, Some (Failed e) =>
          Some (mkEngine (semaphore σ) (tasks σ) (examples σ) (Raised e))
      | _, _ => None
      end
  end.

(** A schedule: the events in the order the loop takes them. *)
Fixpoint run (σ : engine) (evs : list event) : option engine :=
  match evs with
  | [] => Some σ
  | ev :: evs' =>
      match step σ ev with
      | Some σ' => run σ' evs'
      | None => None
      end
  end.

End engine.

(** Modelled from the spec: [api_pb2.EmulatorType] is generated code
    outside the sources; Kafka is the one emulator the data model names. *)
Definition EmulatorType_ref (name : string) : result Z :=
  if String.eqb name "EMULATOR_TYPE_KAFKA" then Ok 1%Z
  else Raise (ValueError "Enum EmulatorType has no value defined for the name").

(** A record as [_get_example] builds it, for running the engine. *)
Definition example_named (n : string) : Example :=
  mkExample (YStr n) (YStr "MEDIUM") SDK_JAVA ("examples/" +:+ n +:+ ".java")
    "class Foo {}" STATUS_UNSPECIFIED
    (mkTag (YStr n) (YStr "MEDIUM") YNull YNull (YStr "An example") (YBool false)
       (YList [YStr "Quickstart"]) (YStr "") (YBool false) (YInt 3)
       (YList [YStr "demo"]) YNull)
    ("https://github.com/apache/beam/blob/master/examples/" +:+ n +:+ ".java")
    YNull "" PRECOMPILED_OBJECT_TYPE_EXAMPLE "" "" "" "" [] [].

(** A world whose environment holds the override. *)
Definition with_override (text : string) : world :=
  mkWorld ∅ {["BEAM_CONCURRENCY" := text]} [] [].

(** ** Discovery: [find_examples] *)

(** [os.path.join(a, b)], POSIX flavour. *)
Definition os_path_join (a b : string) : string :=
  if Str.startswith "/" b then b
  else if String.eqb a "" || Str.endswith "/" a then a +:+ b
  else a +:+ "/" +:+ b.

Example join_plain : os_path_join "../.." "sdks/go" = "../../sdks/go".
Proof. reflexivity. Qed.
Example join_absolute : os_path_join "/beam" "/tmp/x" = "/tmp/x".
Proof. reflexivity. Qed.
Example join_after_sep : os_path_join "/beam/" "sdks" = "/beam/sdks".
Proof. reflexivity. Qed.

(** A [for] loop over [l] whose body updates the loop variables [s]; an
    exception in the body leaves the loop. *)
Fixpoint for_each {A S} (body : S → A → M S) (s : S) (l : list A) : M S :=
  match l with
  | [] => mret s
  | x :: l' => s' ← body s x; for_each body s' l'
  end.

Section find_examples.

Variable yaml_load : string → result yaml_value.
Variable required_tag_fields : list string.
Variable BEAM_PLAYGROUND_TITLE : string.
Variable BEAM_PLAYGROUND : string.
Variable EXTENSION_TO_SDK : gmap string Sdk.
Variable SDK_TO_EXTENSION : Sdk → option string.
Variable URL_VCS_PREFIX : string.
Variable test_ends : list string.
Variable katas : string.
Variable examples_dir : string.
Variable os_path_relpath : string → string → result string.
Variable float_sub : string → Z → string.
Variable Dataset_from_dict : yaml_value → result Dataset.
Variable Emulator_from_dict : yaml_value → result Emulator.

(** [os.walk(top)]: for each directory under [top], top first, its path
    and the names of its files.  The directory tree is not part of the
    [world]; nothing that [find_examples] calls changes it. *)
Variable os_walk : string → list (string * list string).

(** The body of the innermost loop: one file. *)
Definition find_examples_file (supported_categories : list string) (sdk : Sdk)
    (root : string) (st : bool * list Example) (filename : string)
  : M (bool * list Example) :=
  let '(has_error, examples) := st in
  let filepath := os_path_join root filename in
  '(error_during_check_file, examples) ←
    _check_file yaml_load required_tag_fields BEAM_PLAYGROUND_TITLE BEAM_PLAYGROUND
      EXTENSION_TO_SDK SDK_TO_EXTENSION URL_VCS_PREFIX test_ends katas examples_dir
      os_path_relpath float_sub Dataset_from_dict Emulator_from_dict
      examples filename filepath supported_categories sdk;
  mret (has_error || error_during_check_file, examples).

(** The three nested loops, with [has_error] and [examples] as the loop
    variables. *)
Definition find_examples_scan (root_dir : string) (subdirs : list string)
    (supported_categories : list string) (sdk : Sdk) : M (bool * list Example) :=
  for_each
    (λ st subdir,
       let subdir := os_path_join root_dir subdir in
       logging_info (LogInfoSubdir subdir);;
       for_each
         (λ st '(root, files),
            for_each (find_examples_file supported_categories sdk root) st files)
         st (os_walk subdir))
    (false, []) subdirs.

Definition find_examples (root_dir : string) (subdirs : list string)
    (supported_categories : list string) (sdk : Sdk) : M (list Example) :=
  lift (_check_no_nested subdirs);;
  '(has_error, examples) ← find_examples_scan root_dir subdirs supported_categories sdk;
  if has_error : bool then
    lift (Raise (ValueError ("Some of the beam examples contain beam playground tag with "
                             +:+ "an incorrect format")))
  else mret examples.

End find_examples.

(** ** [get_supported_categories] *)

Definition get_supported_categories (yaml_load : string → result yaml_value)
    (categories_path : string) : M yaml_value :=
  text ← open_read categories_path;
  yaml_object ← lift (yaml_load text);
  lift (subscript yaml_object TagFields.categories).

Example supported_categories_read :
  (get_supported_categories MiniYaml.load "categories.yaml"
     (one_file "categories.yaml" (ln "categories: [Quickstart, IO]"))).1
  = Ok (YList [YStr "Quickstart"; YStr "IO"]).
Proof. vm_compute. reflexivity. Qed.
Example supported_categories_missing :
  get_supported_categories MiniYaml.load "categories.yaml" (mkWorld ∅ ∅ [] [])
  = (Raise (OSError "categories.yaml"), mkWorld ∅ ∅ ["categories.yaml"] []).
Proof. reflexivity. Qed.

(** ** [_get_name] *)

Definition _get_name (filename : string) : string :=
  hd "" (Str.split "." filename).

Example get_name_java : _get_name "MinimalWordCount.java" = "MinimalWordCount".
Proof. reflexivity. Qed.
Example get_name_two_dots : _get_name "word_count.test.py" = "word_count".
Proof. reflexivity. Qed.

(** ** [validate_examples_for_duplicates_by_name] *)

(** [hash(v)] is defined: lists and dicts are unhashable. *)
Definition hashable (v : yaml_value) : bool :=
  match v with
  | YList _ | YMap _ => false
  | _ => true
  end.

(** The number an integer or a boolean compares as. *)
Definition number_of (v : yaml_value) : option Z :=
  match v with
  | YInt n => Some n
  | YBool b => Some (if b then 1 else 0)%Z
  | _ => None
  end.

Section duplicates.

(** [x == v] for a float [x] kept by its [repr]: float comparison stays a
    parameter. *)
Variable float_eq : string → yaml_value → bool.

(** [a == b] between hashable values, as a dict compares its keys. *)
Definition key_eqb (a b : yaml_value) : bool :=
  match a, b with
  | YStr s, YStr t => String.eqb s t
  | YNull, YNull => true
  | YFloat r, _ => float_eq r b
  | _, YFloat r => float_eq r a
  | _, _ =>
      match number_of a, number_of b with
      | Some n, Some m => (n =? m)%Z
      | _, _ => false
      end
  end.

Definition duplicate_names_msg (path1 path2 : string) : string :=
  "Examples have duplicate names." +:+ Str.LF +:+ "Duplicates: " +:+ Str.LF
  +:+ " - path #1: " +:+ path1 +:+ " " +:+ Str.LF +:+ " - path #2: " +:+ path2.

(** The loop, with the dict [duplicates] as the list of its items in the
    order they were inserted.  The dict starts with one item whose key is
    the class [str]; no name compares equal to a class, so that item is
    never found and the list leaves it out. *)
Fixpoint duplicates_loop (duplicates : list (yaml_value * Example))
    (examples : list Example) : M unit :=
  match examples with
  | [] => mret tt
  | example :: rest =>
      if negb (hashable (name example))
      then lift (Raise (TypeError "unhashable type"))
      else
        match List.find (λ item, key_eqb (name example) item.1) duplicates with
        | None => duplicates_loop (duplicates ++ [(name example, example)]) rest
        | Some item =>
            let err_msg := duplicate_names_msg (filepath item.2) (filepath example) in
            logging_error (LogValidationError err_msg);;
            lift (Raise (ValidationException err_msg))
        end
  end.

Definition validate_examples_for_duplicates_by_name (examples : list Example) : M unit :=
  duplicates_loop [] examples.

End duplicates.

(** * Part II: properties of the embedding *)

(** ** Strings *)

Lemma str_app_cons x (a b : string) : String x a +:+ b = String x (a +:+ b).
Proof. reflexivity. Qed.

Lemma str_app_assoc (a b c : string) : (a +:+ b) +:+ c = a +:+ (b +:+ c).
Proof. induction a as [|x a IH]; [done|]. by rewrite !str_app_cons, IH. Qed.

Lemma str_app_nil_r (a : string) : a +:+ "" = a.
Proof. induction a as [|x a IH]; [done|]. by rewrite str_app_cons, IH. Qed.

Lemma concat_cons x l : Str.concat (x :: l) = x +:+ Str.concat l.
Proof. reflexivity. Qed.

(** ** Ordering of pure paths and the nesting check *)

Section order_facts.

Lemma str_compare_refl s : (s ?= s)%string = Eq.
Proof.
  induction s as [|c s IH]; simpl; [done|].
  unfold Ascii.compare. by rewrite N.compare_refl.
Qed.

Lemma str_compare_lt_trans s1 s2 s3 :
  (s1 ?= s2)%string = Lt → (s2 ?= s3)%string = Lt → (s1 ?= s3)%string = Lt.
Proof.
  intros H12 H23.
  assert (String.le s1 s3) as H13.
  { transitivity s2; unfold String.le, String.leb; [by rewrite H12 | by rewrite H23]. }
  unfold String.le, String.leb in H13.
  destruct (s1 ?= s3)%string eqn:E; [|done|done].
  apply String.compare_eq_iff in E as ->.
  rewrite String.compare_antisym, H23 in H12. done.
Qed.

Lemma parts_compare_refl l : parts_compare l l = Eq.
Proof. induction l as [|x l IH]; simpl; [done|]. by rewrite str_compare_refl. Qed.

Lemma parts_compare_eq l k : parts_compare l k = Eq → l = k.
Proof.
  revert k. induction l as [|x l IH]; intros [|y k]; simpl; try done.
  destruct (x ?= y)%string eqn:E; try done.
  apply String.compare_eq_iff in E as ->. intros ?. f_equal. by apply IH.
Qed.

Lemma parts_compare_antisym l k : parts_compare k l = CompOpp (parts_compare l k).
Proof.
  revert k. induction l as [|x l IH]; intros [|y k]; simpl; try done.
  rewrite (String.compare_antisym x y).
  destruct (y ?= x)%string; simpl; auto.
Qed.

Lemma parts_compare_lt_trans l1 l2 l3 :
  parts_compare l1 l2 = Lt → parts_compare l2 l3 = Lt → parts_compare l1 l3 = Lt.
Proof.
  revert l2 l3. induction l1 as [|x l1 IH]; intros [|y l2] [|z l3]; simpl; try done.
  destruct (x ?= y)%string eqn:Exy; try done.
  - apply String.compare_eq_iff in Exy as ->.
    destruct (y ?= z)%string; try done. apply IH.
  - intros _. destruct (y ?= z)%string eqn:Eyz; try done.
    + apply String.compare_eq_iff in Eyz as <-. by rewrite Exy.
    + by rewrite (str_compare_lt_trans _ _ _ Exy Eyz).
Qed.

(** Lists between a list and one of its extensions extend it too. *)
Lemma prefix_between (P B C : list string) :
  P `prefix_of` B → parts_compare C P ≠ Lt → parts_compare B C ≠ Lt →
  P `prefix_of` C.
Proof.
  revert B C. induction P as [|x P IH]; intros B C HB HC1 HC2.
  { apply prefix_nil. }
  destruct HB as [B' ->]. destruct C as [|y C]; simpl in *; [done|].
  rewrite (String.compare_antisym x y) in HC2.
  destruct (y ?= x)%string eqn:E; simpl in *; try done.
  apply String.compare_eq_iff in E as ->.
  apply prefix_cons, (IH (P ++ B')%list); [by eexists|done..].
Qed.

Lemma prefix_shorter_lt (P B : list string) :
  P `prefix_of` B → P ≠ B → parts_compare P B = Lt.
Proof.
  intros [k ->]. revert k. induction P as [|x P IH]; intros k Hne; simpl.
  - destruct k; [by rewrite app_nil_r in Hne|done].
  - rewrite str_compare_refl. apply IH. intros E. apply Hne. simpl. by rewrite <- E.
Qed.

End order_facts.

Section sorted_facts.

Definition le (p q : PurePath) : Prop := lt q p = false.

Lemma le_cmp p q : le p q ↔ parts_compare (cparts q) (cparts p) ≠ Lt.
Proof. unfold le, lt. destruct (parts_compare _ _); naive_solver. Qed.

Lemma lt_le p q : lt p q = true → le p q.
Proof.
  rewrite le_cmp. unfold lt. rewrite (parts_compare_antisym (cparts p)).
  destruct (parts_compare _ _); naive_solver.
Qed.

Lemma le_refl p : le p p.
Proof. apply le_cmp. by rewrite parts_compare_refl. Qed.

Lemma le_trans p q r : le p q → le q r → le p r.
Proof.
  rewrite !le_cmp. intros Hpq Hqr Hrp.
  destruct (parts_compare (cparts q) (cparts p)) eqn:E1; [|done|].
  { apply parts_compare_eq in E1. rewrite E1 in Hqr. done. }
  destruct (parts_compare (cparts r) (cparts q)) eqn:E2; [|done|].
  { apply parts_compare_eq in E2. rewrite E2 in Hrp. congruence. }
  rewrite parts_compare_antisym in E1. rewrite parts_compare_antisym in E2.
  destruct (parts_compare (cparts p) (cparts q)) eqn:E3; try done.
  destruct (parts_compare (cparts q) (cparts r)) eqn:E4; try done.
  pose proof (parts_compare_lt_trans _ _ _ E3 E4) as E5.
  rewrite parts_compare_antisym, E5 in Hrp. done.
Qed.

Lemma insert_perm x l : insert x l ≡ₚ x :: l.
Proof.
  induction l as [|y l IH]; simpl; [done|].
  destruct (lt y x); [|done]. rewrite IH. apply perm_swap.
Qed.

Lemma sorted_perm l : sorted l ≡ₚ l.
Proof.
  induction l as [|x l IH]; simpl; [done|].
  by rewrite insert_perm, IH.
Qed.

Lemma insert_sorted x l : StronglySorted le l → StronglySorted le (insert x l).
Proof.
  induction 1 as [|y l Hl IH Hy]; simpl.
  { repeat constructor. }
  destruct (lt y x) eqn:E.
  - constructor; [done|]. rewrite insert_perm. constructor; [by apply lt_le|done].
  - constructor; [by constructor|]. constructor; [done|].
    eapply Forall_impl; [exact Hy|]. intros z Hz. by apply le_trans with y.
Qed.

Lemma sorted_sorted l : StronglySorted le (sorted l).
Proof. induction l; simpl; [constructor|by apply insert_sorted]. Qed.

End sorted_facts.

Section nested_facts.

Fixpoint has_char (c : ascii) (s : string) : bool :=
  match s with
  | "" => false
  | String d s' => if decide (d = c) then true else has_char c s'
  end.

Lemma has_char_app c s t : has_char c (s +:+ t) = has_char c s || has_char c t.
Proof. induction s as [|d s IH]; simpl; [done|]. by destruct (decide (d = c)). Qed.

Lemma prefix_char c d s :
  String.prefix (String c "") (String d s) = bool_decide (c = d).
Proof.
  cbn [String.prefix]. destruct (ascii_dec c d) as [E|E].
  - rewrite bool_decide_eq_true_2 by done. by destruct s.
  - by rewrite bool_decide_eq_false_2.
Qed.

Lemma split_go_no_sep s cur x :
  has_char "/" cur = false → x ∈ Str.split_go "/" 0 cur s → has_char "/" x = false.
Proof.
  revert cur. induction s as [|c s IH]; intros cur Hcur; cbn [Str.split_go].
  { intros ->%list_elem_of_singleton. done. }
  rewrite prefix_char. case_bool_decide as Hc.
  - intros [->|Hx]%elem_of_cons; [done|]. by apply (IH "").
  - apply IH. rewrite has_char_app, Hcur. simpl.
    destruct (decide (c = "/"%char)); [congruence|done].
Qed.

(** Parsed paths: one of the three roots, and no name is a root. *)
Definition wf (p : PurePath) : Prop :=
  (root p = "" ∨ root p = "/" ∨ root p = "//") ∧
  Forall (λ n, n ≠ "/" ∧ n ≠ "//") (names p).

Lemma of_string_wf s : wf (of_string s).
Proof.
  unfold of_string. destruct (splitroot s) as [r rel] eqn:E. split; simpl.
  - unfold splitroot in E. destruct s as [|c s]; [naive_solver|].
    destruct c as [[] [] [] [] [] [] [] []]; try naive_solver.
    destruct (_ =? _)%nat; naive_solver.
  - apply Forall_forall. intros x [_ Hx]%list_elem_of_filter.
    apply (split_go_no_sep _ "") in Hx; [|done].
    split; intros ->; done.
Qed.

Lemma covers_of_prefix a c :
  wf a → wf c → cparts a ≠ [] → cparts a `prefix_of` cparts c →
  path_in a (c :: parents c) = true.
Proof.
  intros [Hra Hna] [Hrc Hnc] Hne Hpre.
  assert (root a = root c ∧ names a `prefix_of` names c) as [Hr [k Hk]].
  { unfold cparts in *. destruct a as [ra na], c as [rc nc]; simpl in *.
    destruct (decide (ra = "")) as [->|?], (decide (rc = "")) as [->|?]; simpl in *.
    - done.
    - destruct na as [|nm na]; [done|]. destruct Hpre as [k Hk]. simplify_eq/=.
      apply Forall_cons in Hna as [[??] _]. by destruct Hrc as [?|[?|?]]; simplify_eq.
    - destruct Hpre as [k Hk]. destruct nc as [|nm nc]; simplify_eq/=.
      apply Forall_cons in Hnc as [[??] _]. by destruct Hra as [?|[?|?]]; simplify_eq.
    - destruct Hpre as [k Hk]. simplify_eq/=. split; [done|by eexists]. }
  unfold path_in. apply existsb_exists.
  exists (mk (root c) (take (length (names a)) (names c))). split.
  - destruct (decide (length (names a) = length (names c))) as [E|E].
    + left. rewrite E, firstn_all. by destruct c.
    + right. unfold parents. apply in_map_iff. eexists. split; [done|].
      rewrite <- in_rev. apply in_seq. rewrite Hk, length_app in *. lia.
  - unfold eqb. apply bool_decide_eq_true. unfold cparts. simpl.
    rewrite Hr. f_equal. by rewrite Hk, take_app_length.
Qed.

Lemma strict_ancestor_prefix a b :
  strict_ancestor a b →
  cparts a `prefix_of` cparts b ∧ cparts a ≠ cparts b.
Proof.
  unfold strict_ancestor, path_in, parents. intros (x & Hx & E)%existsb_exists.
  apply in_map_iff in Hx as (k & <- & Hk). rewrite <- in_rev in Hk. apply in_seq in Hk.
  unfold eqb in E. apply bool_decide_eq_true in E. rewrite E. unfold cparts; simpl.
  split.
  - apply prefix_app. exists (drop k (names b)). by rewrite take_drop.
  - intros E'%(f_equal length). rewrite !length_app, length_take in E'. lia.
Qed.

Lemma check_pairs_cons x c s :
  check_pairs (zip (x :: c :: s) (tail (x :: c :: s)))
  = if path_in x (c :: parents c)
    then Raise (ValueError (to_str c +:+ " is a subdirectory of " +:+ to_str x))
    else check_pairs (zip (c :: s) (tail (c :: s))).
Proof. reflexivity. Qed.

Lemma check_pairs_raises_sorted s a b :
  StronglySorted le s → Forall wf s → a ∈ s → b ∈ s →
  cparts a ≠ [] → cparts a `prefix_of` cparts b → cparts a ≠ cparts b →
  raises (check_pairs (zip s (tail s))).
Proof.
  intros Hs Hwf Ha Hb Hne Hpre Hab.
  induction Hs as [|x s Hs IH Hx]; [by apply elem_of_nil in Ha|].
  apply Forall_cons in Hwf as [Hwx Hwf].
  assert (b ∈ s) as Hb'.
  { apply elem_of_cons in Hb as [->|]; [|done]. exfalso.
    apply elem_of_cons in Ha as [->|Ha]; [done|].
    rewrite Forall_forall in Hx. apply Hx, le_cmp in Ha.
    by apply Ha, prefix_shorter_lt. }
  destruct s as [|c s]; [by apply elem_of_nil in Hb'|].
  rewrite check_pairs_cons.
  destruct (path_in x (c :: parents c)) eqn:Hin; [by eexists|].
  apply IH; [done| |done]. 
  apply elem_of_cons in Ha as [->|Ha]; [exfalso|done].
  rewrite covers_of_prefix in Hin; [done|done|by apply Forall_cons in Hwf as [??]|done|].
  apply (prefix_between _ (cparts b)); [done| |].
  - apply le_cmp. by apply Forall_cons in Hx as [??].
  - apply le_cmp. apply StronglySorted_inv in Hs as [_ Hc].
    apply elem_of_cons in Hb' as [->|Hb']; [apply le_refl|].
    rewrite Forall_forall in Hc. by apply Hc.
Qed.

(** The check finds every nesting whose ancestor is not the empty
    relative path. *)
Lemma check_no_nested_complete subdirs a b :
  a ∈ subdirs → b ∈ subdirs →
  strict_ancestor (of_string a) (of_string b) →
  cparts (of_string a) ≠ [] →
  raises (_check_no_nested subdirs).
Proof.
  intros Ha Hb [Hpre Hne]%strict_ancestor_prefix Hnil.
  unfold _check_no_nested.
  apply (check_pairs_raises_sorted _ (of_string a) (of_string b)); try done.
  - apply sorted_sorted.
  - rewrite sorted_perm. apply Forall_forall.
    intros x (s & -> & _)%list_elem_of_fmap. apply of_string_wf.
  - rewrite sorted_perm. by apply list_elem_of_fmap_2.
  - rewrite sorted_perm. by apply list_elem_of_fmap_2.
Qed.

End nested_facts.

(** A trailing separator does not change the parsed path, as long as the
    path has a name component. *)
Lemma split_go_trailing_sep s cur :
  Str.split_go "/" 0 cur (s +:+ "/") = Str.split_go "/" 0 cur s ++ [""].
Proof.
  revert cur. induction s as [|c s IH]; intros cur; [done|].
  rewrite str_app_cons. cbn [Str.split_go]. rewrite !prefix_char.
  case_bool_decide; cbn [String.length Nat.sub]; by rewrite IH.
Qed.

Lemma lstrip_sep_trailing s :
  lstrip_sep s ≠ "" → lstrip_sep (s +:+ "/") = lstrip_sep s +:+ "/".
Proof.
  induction s as [|c s IH]; [done|]. rewrite str_app_cons. cbn [lstrip_sep].
  destruct (decide (c = "/"%char)) as [->|Hc]; [exact IH|].
  intros _. destruct c as [[] [] [] [] [] [] [] []]; done.
Qed.

Lemma lstrip_sep_length s : (String.length (lstrip_sep s) ≤ String.length s)%nat.
Proof.
  induction s as [|c s IH]; [done|]. cbn [lstrip_sep].
  destruct (decide (c = "/"%char)) as [->|Hc]; [simpl; lia|].
  destruct c as [[] [] [] [] [] [] [] []]; simpl; lia.
Qed.

Lemma str_length_app (a b : string) :
  String.length (a +:+ b) = (String.length a + String.length b)%nat.
Proof. induction a as [|c a IH]; [done|]. rewrite str_app_cons. simpl. by rewrite IH. Qed.

Lemma of_string_trailing_sep s :
  names (of_string s) ≠ [] → of_string (s +:+ "/") = of_string s.
Proof.
  unfold of_string.
  assert (∀ rel, filter (λ x, x ≠ "" ∧ x ≠ ".") (Str.split "/" (rel +:+ "/"))
                 = filter (λ x, x ≠ "" ∧ x ≠ ".") (Str.split "/" rel)) as Hnames.
  { intros rel. unfold Str.split. rewrite split_go_trailing_sep, filter_app.
    rewrite filter_cons, filter_nil. destruct (decide _) as [[? _]|]; [done|].
    by rewrite app_nil_r. }
  destruct s as [|c s]; [done|].
  destruct (decide (c = "/"%char)) as [->|Hc].
  - unfold splitroot. rewrite str_app_cons.
    set (t := String "/" s). change (String "/" (s +:+ "/")) with (t +:+ "/").
    destruct (decide (lstrip_sep t = "")) as [E|E].
    { rewrite E. by destruct (_ =? 2)%nat. }
    intros _. rewrite lstrip_sep_trailing by done. rewrite !str_length_app.
    replace (String.length t + String.length "/" - (String.length (lstrip_sep t) + String.length "/"))%nat
      with (String.length t - String.length (lstrip_sep t))%nat by lia.
    destruct (_ =? 2)%nat; simpl; by rewrite Hnames.
  - intros _. rewrite str_app_cons.
    assert (∀ r, splitroot (String c r) = ("", String c r)) as Hsr.
    { intros r. unfold splitroot. destruct c as [[] [] [] [] [] [] [] []]; done. }
    rewrite !Hsr. simpl. change (String c (s +:+ "/")) with (String c s +:+ "/").
    by rewrite Hnames.
Qed.

(** C6 (failing input).  The empty relative path is an ancestor of the
    relative root [a], yet the check accepts the roots [.], [/x], [a]: the
    absolute root sorts between the two, and only neighbours are compared. *)
Theorem check_no_nested_misses_dot_ancestor :
  strict_ancestor (of_string ".") (of_string "a") ∧
  sorted (of_string <$> ["."; "/x"; "a"]) = [mk "" []; mk "/" ["x"]; mk "" ["a"]] ∧
  _check_no_nested ["."; "/x"; "a"] = Ok tt.
Proof. split_and!; reflexivity. Qed.

(** Under the ordering of Python 3.12 the three roots are refused, and
    the same defect shows on a descendant whose name sorts before the
    dot. *)
Example check_no_nested_normcase_misses_dot_ancestor :
  _check_no_nested_normcase ["."; "/x"; "a"]
  = Raise (ValueError "a is a subdirectory of .") ∧
  strict_ancestor (of_string ".") (of_string "-x") ∧
  _check_no_nested_normcase ["-x"; "."] = Ok tt ∧
  _check_no_nested ["-x"; "."] = Raise (ValueError "-x is a subdirectory of .").
Proof. split_and!; reflexivity. Qed.

(** The same three roots without the absolute one are refused, in any
    order. *)
Example dot_ancestor_detected :
  _check_no_nested ["."; "a"] = Raise (ValueError "a is a subdirectory of .") ∧
  _check_no_nested ["a"; "."] = Raise (ValueError "a is a subdirectory of .").
Proof. split; reflexivity. Qed.

(** ** The tag validator *)

Section validate_facts.

Variable order : list string.
Variable tag : dict.

(** A required field is present and, unless it is [pipeline_options],
    neither the empty string nor [None]. *)
Definition field_ok (f : string) : Prop :=
  tag !! f ≠ None ∧
  (yaml_eq_str (dict_get tag f) "" || is_none (dict_get tag f))
  && negb (String.eqb f TagFields.pipeline_options) = false.

Definition required_ok : Prop := Forall field_ok order.

Definition missing_field (r : log_record) : option string :=
  match r with
  | LogMissingField f => Some f
  | _ => None
  end.

Definition is_required_log (r : log_record) : bool :=
  match r with
  | LogMissingField _ | LogEmptyField _ => true
  | _ => false
  end.

(** The errors of the three format rules, in the order the code checks
    them: one for [multifile], one per unsupported category (or one when
    [categories] is not a list), one for [context_line]. *)
Definition multifile_errors : list log_record :=
  let multifile := dict_get tag TagFields.multifile in
  if bool_decide (Str.lower (py_str multifile) ∈ ["true"; "false"]) then []
  else [LogMultifile multifile].

Definition categories_errors (supported_categories : list string) : list log_record :=
  match dict_get tag TagFields.categories with
  | YList items =>
      LogUnsupportedCategory <$>
        filter (λ c, existsb (yaml_eq_str c) supported_categories = false) items
  | v => [LogCategoriesType v]
  end.

Definition context_line_errors : list log_record :=
  let context_line := dict_get tag TagFields.context_line in
  if isinstance_int context_line then [] else [LogContextLine context_line].

Definition format_errors (supported_categories : list string) : list log_record :=
  multifile_errors ++ categories_errors supported_categories ++ context_line_errors.

Lemma check_field_spec f v0 l0 :
  ∃ l', check_field tag (v0, l0) f = (v0 && bool_decide (field_ok f), l0 ++ l') ∧
        omap missing_field l' = (if decide (tag !! f = None) then [f] else []) ∧
        Forall (λ r, is_required_log r = true) l' ∧
        (field_ok f → l' = []).
Proof.
  unfold check_field, field_ok.
  destruct (decide (tag !! f = None)) as [Hf|Hf].
  - exists [LogMissingField f]. rewrite bool_decide_eq_false_2 by tauto.
    rewrite andb_false_r. repeat split; [by repeat constructor|tauto].
  - destruct v0; simpl.
    + destruct (_ && negb _) eqn:E.
      * exists [LogEmptyField f]. rewrite bool_decide_eq_false_2 by (intros [_ ?]; congruence).
        repeat split; [by repeat constructor|intros [_ ?]; congruence].
      * exists []. rewrite bool_decide_eq_true_2 by done.
        rewrite app_nil_r. repeat split; by constructor.
    + exists []. rewrite app_nil_r. repeat split; by constructor.
Qed.

Lemma check_fields_spec fs v0 l0 :
  ∃ l', foldl (check_field tag) (v0, l0) fs
        = (v0 && bool_decide (Forall field_ok fs), l0 ++ l') ∧
        omap missing_field l' = filter (λ f, tag !! f = None) fs ∧
        Forall (λ r, is_required_log r = true) l' ∧
        (Forall field_ok fs → l' = []).
Proof.
  revert v0 l0. induction fs as [|f fs IH]; intros v0 l0; cbn [foldl].
  { exists []. rewrite app_nil_r, bool_decide_eq_true_2, andb_true_r by constructor. done. }
  destruct (check_field_spec f v0 l0) as (l'' & -> & Hm & Hr & Hnil).
  destruct (IH (v0 && bool_decide (field_ok f)) (l0 ++ l'')) as (l' & -> & Hm' & Hr' & Hnil').
  exists (l'' ++ l'). repeat split.
  - rewrite app_assoc. f_equal. rewrite <- andb_assoc. f_equal.
    destruct (bool_decide_reflect (field_ok f)), (bool_decide_reflect (Forall field_ok fs)); simpl.
    + rewrite bool_decide_eq_true_2; [done|by constructor].
    + rewrite bool_decide_eq_false_2; [done|]. by intros [??]%Forall_cons.
    + rewrite bool_decide_eq_false_2; [done|]. by intros [??]%Forall_cons.
    + rewrite bool_decide_eq_false_2; [done|]. by intros [??]%Forall_cons.
  - rewrite omap_app, Hm, Hm', filter_cons. by destruct (decide (tag !! f = None)).
  - by apply Forall_app.
  - intros [??]%Forall_cons. by rewrite Hnil, Hnil'.
Qed.

Lemma check_categories_spec cats items v0 l0 :
  foldl (check_category cats) (v0, l0) items
  = (v0 && forallb (λ c, existsb (yaml_eq_str c) cats) items,
     l0 ++ (LogUnsupportedCategory <$>
              filter (λ c, existsb (yaml_eq_str c) cats = false) items)).
Proof.
  revert v0 l0. induction items as [|c items IH]; intros v0 l0; simpl.
  { by rewrite app_nil_r, andb_true_r. }
  rewrite filter_cons. destruct (existsb (yaml_eq_str c) cats) eqn:E; simpl; rewrite IH.
  - by destruct (decide (true = false)).
  - destruct (decide (false = false)); [|done].
    rewrite andb_false_r. simpl. by rewrite <- app_assoc.
Qed.

(** Once every required field is there, the result is the list of format
    errors and whether it is empty. *)
Lemma validate_format cats :
  required_ok →
  _validate order tag cats = (bool_decide (format_errors cats = []), format_errors cats).
Proof.
  intros Hok. unfold _validate.
  destruct (check_fields_spec order true []) as (l' & -> & _ & _ & Hnil).
  rewrite (Hnil Hok). unfold required_ok in Hok. rewrite bool_decide_eq_true_2 by done.
  simpl. unfold format_errors, multifile_errors, categories_errors, context_line_errors.
  destruct (bool_decide (_ ∈ _)); simpl;
    destruct (dict_get tag TagFields.categories) as [| | | | |items|]; simpl;
    rewrite ?check_categories_spec; simpl;
    destruct (isinstance_int _); simpl; rewrite ?app_nil_r; try done.
  all: try (destruct (filter _ items); done).
  all: try (by rewrite bool_decide_eq_false_2 by (by intros ?%app_eq_nil; naive_solver)).
  f_equal. clear. induction items as [|c items IH]; [done|]. simpl.
  rewrite filter_cons. destruct (existsb (yaml_eq_str c) cats); simpl.
  - by destruct (decide (true = false)).
  - by destruct (decide (false = false)).
Qed.

End validate_facts.
Definition tag_of (entries : list (string * yaml_value)) : dict := dict_of_entries entries.

(** The tag of the documented example: every field right. *)
Definition tag_foo : dict :=
  tag_of [("name", YStr "Foo"); ("description", YStr "An example");
          ("complexity", YStr "MEDIUM"); ("categories", YList [YStr "Quickstart"]);
          ("multifile", YStr "false"); ("default_example", YBool false);
          ("context_line", YInt 3); ("pipeline_options", YStr "");
          ("tags", YList [YStr "demo"])].

(** No [name], and each of the three format rules broken. *)
Definition tag_several_defects : dict :=
  tag_of [("description", YStr "An example");
          ("complexity", YStr "MEDIUM"); ("categories", YList [YStr "Unknown"]);
          ("multifile", YStr "maybe"); ("default_example", YBool false);
          ("context_line", YStr "3"); ("pipeline_options", YStr "");
          ("tags", YList [YStr "demo"])].

Example validate_foo : _validate TagFields.required tag_foo ["Quickstart"] = (true, []).
Proof. vm_compute. reflexivity. Qed.

Example validate_format_defects :
  _validate TagFields.required (<["name" := YStr "Foo"]> tag_several_defects) ["Quickstart"]
  = (false, [LogMultifile (YStr "maybe"); LogUnsupportedCategory (YStr "Unknown");
             LogContextLine (YStr "3")]).
Proof. vm_compute. reflexivity. Qed.

(** C5, as stated, fails: with [name] missing the validator returns after
    the required-field loop, and none of the three broken format rules of
    the same tag is reported. *)
Lemma validate_skips_format_rules_when_field_missing :
  _validate TagFields.required tag_several_defects ["Quickstart"]
  = (false, [LogMissingField "name"]) ∧
  format_errors tag_several_defects ["Quickstart"]
  = [LogMultifile (YStr "maybe"); LogUnsupportedCategory (YStr "Unknown");
     LogContextLine (YStr "3")].
Proof. split; vm_compute; reflexivity. Qed.

(** C5 (amended).  Whatever the order in which the required fields are
    met: [_validate] answers [True] exactly when every required field is
    present and non-empty and no format rule is broken; when the required
    fields are in order, the log is the list of all broken format rules
    (multifile, each unsupported category or a non-list [categories],
    context_line), not only the first; when a required field is missing or
    empty, every missing field is logged once, and the format rules are not
    looked at. *)
Theorem validate_reports_by_stage (order : list string) (tag : dict) (cats : list string) :
  (fst (_validate order tag cats) = true
   ↔ required_ok order tag ∧ format_errors tag cats = []) ∧
  (required_ok order tag → snd (_validate order tag cats) = format_errors tag cats) ∧
  (¬ required_ok order tag →
   fst (_validate order tag cats) = false ∧
   omap missing_field (snd (_validate order tag cats))
   = filter (λ f, tag !! f = None) order ∧
   Forall (λ r, is_required_log r = true) (snd (_validate order tag cats))).
Proof.
  destruct (decide (required_ok order tag)) as [Hok|Hno].
  - rewrite (validate_format order tag cats Hok). simpl. split_and!.
    + rewrite bool_decide_eq_true. tauto.
    + done.
    + done.
  - assert (_validate order tag cats
            = foldl (check_field tag) (true, []) order) as ->.
    { unfold _validate.
      destruct (check_fields_spec tag order true []) as (l' & -> & _).
      unfold required_ok in Hno. by rewrite bool_decide_eq_false_2. }
    destruct (check_fields_spec tag order true []) as (l' & -> & Hm & Hr & _).
    unfold required_ok in Hno. rewrite bool_decide_eq_false_2 by done. simpl.
    split_and!; try done. split; [intros [=]|tauto].
Qed.

(** ** The tag extractor *)

Section get_tag_facts.

Variable yaml_load : string → result yaml_value.
Variable BEAM_PLAYGROUND_TITLE : string.
Variable BEAM_PLAYGROUND : string.

Local Abbreviation get_tag_loop := (get_tag_loop yaml_load BEAM_PLAYGROUND_TITLE).
Local Abbreviation get_tag_lines := (get_tag_lines yaml_load BEAM_PLAYGROUND_TITLE BEAM_PLAYGROUND).

(** The comment markers the extractor strips. *)
Definition supported_markers : list string := ["//"; "#"].

(** A file made of the lines of [block], each behind the comment marker. *)
Definition embed (marker : string) (block : list string) : list string :=
  (λ l, marker +:+ l) <$> block.

(** The marker in front of a line leaves no trace in the formatted line. *)
Lemma format_line_marker marker l :
  marker ∈ supported_markers → format_line (marker +:+ l) = format_line l.
Proof.
  unfold supported_markers. rewrite !elem_of_cons, elem_of_nil.
  intros [->|[->|[]]]; unfold format_line.
  - replace (Str.replace "//" "" ("//" +:+ l)) with (Str.replace "//" "" l); [done|].
    by destruct l.
  - replace (Str.replace "//" "" ("#" +:+ l)) with ("#" +:+ Str.replace "//" "" l)
      by by destruct l.
    replace (Str.replace "#" "" ("#" +:+ Str.replace "//" "" l))
      with (Str.replace "#" "" (Str.replace "//" "" l)); [done|].
    by destruct (Str.replace "//" "" l).
Qed.

Lemma candidate_step (y line : string) rest j :
  y +:+ Str.concat (format_line <$> take (S j) (line :: rest))
  = (y +:+ format_line line) +:+ Str.concat (format_line <$> take j rest).
Proof. by rewrite str_app_assoc. Qed.

Lemma raw_step (t line : string) rest j :
  t +:+ Str.concat (take (S j) (line :: rest))
  = (t +:+ line) +:+ Str.concat (take j rest).
Proof. by rewrite str_app_assoc. Qed.

(** The accumulating state: the loop keeps the longest run of lines
    each of which still parses when added to the candidate.  It ends at
    the end of the file, or at the first line with which the candidate
    does not load: with the lines kept so far if the loader raises a
    [YAMLError], and with the exception of the loader if it raises another
    one. *)
Lemma loop_accumulating lines y t :
  ∃ k : nat, (k ≤ length lines)%nat ∧
    (∀ j, j < k →
       ∃ v, yaml_load (y +:+ Str.concat (format_line <$> take (S j) lines)) = Ok v) ∧
    ((k = length lines ∧
      get_tag_loop lines true y t
      = Ok (true, y +:+ Str.concat (format_line <$> take k lines),
            t +:+ Str.concat (take k lines))) ∨
     (k < length lines ∧
      ∃ e, yaml_load (y +:+ Str.concat (format_line <$> take (S k) lines)) = Raise e ∧
           get_tag_loop lines true y t
           = match e with
             | YAMLError =>
                 Ok (true, y +:+ Str.concat (format_line <$> take k lines),
                     t +:+ Str.concat (take k lines))
             | _ => Raise e
             end)).
Proof.
  revert y t. induction lines as [|line rest IH]; intros y t.
  { exists 0. simpl. rewrite !str_app_nil_r. split_and!; [lia|lia|by left]. }
  cbn [get_tag_loop negb].
  destruct (yaml_load (y +:+ format_line line)) as [v|e] eqn:E.
  - destruct (IH (y +:+ format_line line) (t +:+ line)) as (k & Hk & Hall & Hend).
    exists (S k). cbn [length]. split_and!; [lia| |].
    + intros [|j] Hj; rewrite candidate_step.
      * rewrite take_0. change (Str.concat (format_line <$> [])) with "".
        rewrite str_app_nil_r, E. by eexists.
      * apply Hall. lia.
    + rewrite !candidate_step, raw_step.
      destruct Hend as [[-> ->]|(Hlt & e & He & ->)]; [by left|right].
      split; [lia|]. by exists e.
  - exists 0. rewrite !take_0. change (Str.concat (format_line <$> [])) with "".
    change (Str.concat []) with "". rewrite !str_app_nil_r. cbn [length].
    split_and!; [lia|lia|right]. split; [lia|]. exists e.
    rewrite candidate_step, take_0.
    change (Str.concat (format_line <$> [])) with "". rewrite str_app_nil_r.
    split; [done|]. by destruct e.
Qed.

(** The lines kept are a run of lines in any case where the loop ends
    with its variables. *)
Lemma loop_accumulating_Ok lines y t a y' t' :
  get_tag_loop lines true y t = Ok (a, y', t') →
  ∃ k : nat, (k ≤ length lines)%nat ∧ a = true ∧
    y' = y +:+ Str.concat (format_line <$> take k lines) ∧
    t' = t +:+ Str.concat (take k lines) ∧
    (∀ j, j < k →
       ∃ v, yaml_load (y +:+ Str.concat (format_line <$> take (S j) lines)) = Ok v) ∧
    (k < length lines →
       yaml_load (y +:+ Str.concat (format_line <$> take (S k) lines)) = Raise YAMLError).
Proof.
  intros Hloop. destruct (loop_accumulating lines y t) as (k & Hk & Hall & Hend).
  exists k. destruct Hend as [[-> Heq]|(Hlt & e & He & Heq)]; rewrite Heq in Hloop.
  - simplify_eq. split_and!; try done. lia.
  - destruct e; simplify_eq. split_and!; done.
Qed.

(** Before the marker line, lines that are not the marker are skipped. *)
Lemma loop_not_started pre line rest :
  Forall (λ l, Str.lstrip (format_line l) ≠ BEAM_PLAYGROUND_TITLE) pre →
  Str.lstrip (format_line line) = BEAM_PLAYGROUND_TITLE →
  get_tag_loop (pre ++ line :: rest) false "" ""
  = get_tag_loop rest true BEAM_PLAYGROUND_TITLE line.
Proof.
  intros Hpre Hline. induction Hpre as [|l pre Hl _ IH]; cbn [app get_tag_loop negb].
  - by rewrite Hline, String.eqb_refl.
  - apply String.eqb_neq in Hl. by rewrite Hl.
Qed.

Lemma loop_no_marker lines :
  Forall (λ l, Str.lstrip (format_line l) ≠ BEAM_PLAYGROUND_TITLE) lines →
  get_tag_loop lines false "" "" = Ok (false, "", "").
Proof.
  induction 1 as [|l pre Hl _ IH]; cbn [get_tag_loop negb]; [done|].
  apply String.eqb_neq in Hl. by rewrite Hl.
Qed.

(** What a call of [get_tag] found under the top-level key, without the
    raw text. *)
Definition mapping_of (r : result (option (ExampleTagOf yaml_value)))
  : result (option yaml_value) :=
  match r with
  | Ok t => Ok (tag_as_dict <$> t)
  | Raise e => Raise e
  end.

(** The loop variables that do not hold raw text. *)
Definition parsed_part (r : result (bool * string * string)) : result (bool * string) :=
  match r with
  | Ok st => Ok st.1
  | Raise e => Raise e
  end.

Lemma loop_embed marker block st y t t' :
  marker ∈ supported_markers →
  parsed_part (get_tag_loop (embed marker block) st y t)
  = parsed_part (get_tag_loop block st y t').
Proof.
  intros Hm. revert st y t t'. induction block as [|l block IH]; intros st y t t'; [done|].
  cbn [embed fmap list_fmap get_tag_loop]. rewrite (format_line_marker _ _ Hm).
  destruct st; cbn [negb].
  - destruct (yaml_load _) as [v|[]]; [apply IH|done..].
  - destruct (String.eqb _ _); apply IH.
Qed.

(** The marker in front of the lines of a block leaves no trace in what
    the extractor parses: it finds behind the marker what it finds in the
    block itself. *)
Lemma get_tag_lines_embed marker block :
  marker ∈ supported_markers →
  mapping_of (get_tag_lines (embed marker block)) = mapping_of (get_tag_lines block).
Proof.
  intros Hm. unfold get_tag_lines.
  pose proof (loop_embed marker block false "" "" "" Hm) as H.
  destruct (get_tag_loop (embed marker block) false "" "") as [[[a y] t]|e];
    destruct (get_tag_loop block false "" "") as [[[a' y'] t']|e'];
    simplify_eq/=; [|done].
  destruct a'; [|done].
  destruct (yaml_load y') as [v|]; [|done]. simpl.
  by destruct (subscript v BEAM_PLAYGROUND).
Qed.

(** C4 (amended).  Once a line matches the marker, the candidate is the
    marker line followed by the formatted lines kept so far.  Each next
    line is kept exactly when the candidate, marker line included, still
    loads with the line added.  The loop ends at the end of the file or at
    the first line with which the candidate does not load: if the loader
    raised a [YAMLError] there, with the marker line and the lines kept as
    the raw text; if it raised any other exception, with that exception,
    which nothing catches. *)
Theorem accumulation_stops_at_first_failure (pre : list string) (line : string)
    (rest : list string) :
  Forall (λ l, Str.lstrip (format_line l) ≠ BEAM_PLAYGROUND_TITLE) pre →
  Str.lstrip (format_line line) = BEAM_PLAYGROUND_TITLE →
  ∃ k : nat, (k ≤ length rest)%nat ∧
    (∀ j, j < k →
       ∃ v, yaml_load
              (BEAM_PLAYGROUND_TITLE +:+ Str.concat (format_line <$> take (S j) rest))
            = Ok v) ∧
    ((k = length rest ∧
      get_tag_loop (pre ++ line :: rest) false "" ""
      = Ok (true, BEAM_PLAYGROUND_TITLE +:+ Str.concat (format_line <$> take k rest),
            line +:+ Str.concat (take k rest))) ∨
     (k < length rest ∧
      ∃ e, yaml_load
             (BEAM_PLAYGROUND_TITLE +:+ Str.concat (format_line <$> take (S k) rest))
           = Raise e ∧
           get_tag_loop (pre ++ line :: rest) false "" ""
           = match e with
             | YAMLError =>
                 Ok (true,
                     BEAM_PLAYGROUND_TITLE +:+ Str.concat (format_line <$> take k rest),
                     line +:+ Str.concat (take k rest))
             | _ => Raise e
             end)).
Proof.
  intros Hpre Hline. rewrite (loop_not_started _ _ _ Hpre Hline).
  apply loop_accumulating.
Qed.

End get_tag_facts.

(** *** The extractor on concrete files *)

Definition block_foo : list string :=
  [ln " Beam-playground:"; ln "   name: Foo"; ln "   complexity: MEDIUM";
   ln "   context_line: 3"].

Definition block_url : list string :=
  [ln "Beam-playground:"; ln "  name: Foo"; ln "  url_notebook: https://a.b/c"].

Example get_tag_foo :
  get_tag_lines MiniYaml.load Config.BEAM_PLAYGROUND_TITLE Config.BEAM_PLAYGROUND
    (ln "// licence text" :: embed "//" block_foo ++ [ln ""; ln "import os"])
  = Ok (Some (mkExampleTag
                (YMap [("name", YStr "Foo"); ("complexity", YStr "MEDIUM");
                       ("context_line", YInt 3)])
                (Str.concat (embed "//" block_foo ++ [ln ""])))).
Proof. vm_compute. reflexivity. Qed.

(** C3 (failing input).  The block [block_url], whose [url_notebook] is
    a URL, loads as bare YAML to a mapping with the URL.  Behind either
    comment marker, the extractor returns a mapping in which the two
    slashes of the URL are gone: [line.replace] deletes every slash pair
    and every hash of a line, those of the values with that of the comment
    marker. *)
Theorem extraction_alters_marker_characters :
  (tag_object ← MiniYaml.load (Str.concat block_url);
   subscript tag_object Config.BEAM_PLAYGROUND)
  = Ok (YMap [("name", YStr "Foo"); ("url_notebook", YStr "https://a.b/c")]) ∧
  get_tag_lines MiniYaml.load Config.BEAM_PLAYGROUND_TITLE Config.BEAM_PLAYGROUND
    (embed "//" block_url)
  = Ok (Some (mkExampleTag
                (YMap [("name", YStr "Foo"); ("url_notebook", YStr "https:a.b/c")])
                (Str.concat (embed "//" block_url)))) ∧
  get_tag_lines MiniYaml.load Config.BEAM_PLAYGROUND_TITLE Config.BEAM_PLAYGROUND
    (embed "#" block_url)
  = Ok (Some (mkExampleTag
                (YMap [("name", YStr "Foo"); ("url_notebook", YStr "https:a.b/c")])
                (Str.concat (embed "#" block_url)))) ∧
  format_line (ln "//  url_notebook: https://a.b/c") = ln "  url_notebook: https:a.b/c" ∧
  format_line (ln "#  pipeline_options: --n 1 # one") = ln "  pipeline_options: --n 1  one".
Proof. split_and!; vm_compute; reflexivity. Qed.

(** A file with a top-level key right after the block. *)
Definition file_top_level_key : list string :=
  [ln "# Beam-playground:"; ln "#   name: Foo"; ln "#key: v"; ln "import os"].

(** C4, as stated, fails: the third line of this file is kept, although
    the candidate without the marker line does not parse once the line is
    added; it is the candidate with the marker line that parses. *)
Lemma marker_line_is_part_of_the_parsed_candidate :
  get_tag_loop MiniYaml.load Config.BEAM_PLAYGROUND_TITLE file_top_level_key false "" ""
  = Ok (true,
        Str.concat [ln "Beam-playground:"; ln "   name: Foo"; ln "key: v"],
        Str.concat [ln "# Beam-playground:"; ln "#   name: Foo"; ln "#key: v"]) ∧
  MiniYaml.load (Str.concat [ln "   name: Foo"; ln "key: v"]) = Raise YAMLError ∧
  MiniYaml.load (Str.concat [ln "Beam-playground:"; ln "   name: Foo"; ln "key: v"])
  = Ok (YMap [("Beam-playground", YMap [("name", YStr "Foo")]); ("key", YStr "v")]).
Proof. split_and!; vm_compute; reflexivity. Qed.

Lemma accumulation_stops_witness :
  ∃ k : nat, (k ≤ 3)%nat ∧
    (∀ j, j < k →
       ∃ v, MiniYaml.load
              (Config.BEAM_PLAYGROUND_TITLE +:+
                 Str.concat (format_line <$>
                               take (S j) [ln "//   name: Foo"; ln ""; ln "import os"]))
            = Ok v) ∧
    ((k = 3 ∧
      get_tag_loop MiniYaml.load Config.BEAM_PLAYGROUND_TITLE
        ([ln "// licence text"] ++ ln "// Beam-playground:"
           :: [ln "//   name: Foo"; ln ""; ln "import os"]) false "" ""
      = Ok (true,
            Config.BEAM_PLAYGROUND_TITLE +:+
              Str.concat (format_line <$> take k [ln "//   name: Foo"; ln ""; ln "import os"]),
            ln "// Beam-playground:" +:+
              Str.concat (take k [ln "//   name: Foo"; ln ""; ln "import os"]))) ∨
     (k < 3 ∧
      ∃ e, MiniYaml.load
             (Config.BEAM_PLAYGROUND_TITLE +:+
                Str.concat (format_line <$>
                              take (S k) [ln "//   name: Foo"; ln ""; ln "import os"]))
           = Raise e ∧
           get_tag_loop MiniYaml.load Config.BEAM_PLAYGROUND_TITLE
             ([ln "// licence text"] ++ ln "// Beam-playground:"
                :: [ln "//   name: Foo"; ln ""; ln "import os"]) false "" ""
           = match e with
             | YAMLError =>
                 Ok (true,
                     Config.BEAM_PLAYGROUND_TITLE +:+
                       Str.concat (format_line <$>
                                     take k [ln "//   name: Foo"; ln ""; ln "import os"]),
                     ln "// Beam-playground:" +:+
                       Str.concat (take k [ln "//   name: Foo"; ln ""; ln "import os"]))
             | _ => Raise e
             end)).
Proof.
  apply (accumulation_stops_at_first_failure MiniYaml.load Config.BEAM_PLAYGROUND_TITLE
           [ln "// licence text"] (ln "// Beam-playground:")
           [ln "//   name: Foo"; ln ""; ln "import os"]).
  - repeat constructor. vm_compute. discriminate.
  - reflexivity.
Defined.

(** [yaml.load] with [SafeLoader] turns a plain scalar written as a date
    into a [datetime.date], whose constructor raises [ValueError] when the
    month has no such day.  The reference parser with that one behaviour
    of the loader, for the 30th of February 2001. *)
Definition load_checking_dates (text : string) : result yaml_value :=
  if Str.contains "2001-02-30" text
  then Raise (ValueError "day is out of range for month")
  else MiniYaml.load text.

(** A line of the block that makes the loader raise what is no
    [YAMLError] ends the extraction with that exception: no tag is
    returned, and the lines read so far are lost with it. *)
Example get_tag_raises_what_the_loader_raises :
  get_tag_loop load_checking_dates Config.BEAM_PLAYGROUND_TITLE
    [ln "# Beam-playground:"; ln "#   name: Foo"; ln "#   date: 2001-02-30"; ln "import os"]
    false "" ""
  = Raise (ValueError "day is out of range for month") ∧
  (get_tag load_checking_dates Config.BEAM_PLAYGROUND_TITLE Config.BEAM_PLAYGROUND
     "examples/foo.py"
     (one_file "examples/foo.py"
        (Str.concat [ln "# Beam-playground:"; ln "#   name: Foo";
                     ln "#   date: 2001-02-30"; ln "import os"]))).1
  = Raise (ValueError "day is out of range for month").
Proof. split; vm_compute; reflexivity. Qed.

(** ** The example builder *)

Lemma bind_Ok_inv {A B} (m : M A) (k : A → M B) w b w' :
  (m ≫= k) w = (Ok b, w') → ∃ a w1, m w = (Ok a, w1) ∧ k a w1 = (Ok b, w').
Proof.
  unfold mbind, M_bind. destruct (m w) as [[a|e] w1]; [|done]. intros ?. by exists a, w1.
Qed.

Lemma lift_Ok_inv {A} (r : result A) w a w' : lift r w = (Ok a, w') → r = Ok a ∧ w' = w.
Proof. unfold lift. by intros [= -> ->]. Qed.

Lemma ret_Ok_inv {A} (x a : A) (w w' : world) :
  (mret x : M A) w = (Ok a, w') → a = x ∧ w' = w.
Proof. by intros [= -> ->]. Qed.

(** The integer a tag value stands for. *)
Definition int_value (v : yaml_value) : Z :=
  match v with
  | YInt i => i
  | YBool b => if b then 1 else 0
  | _ => 0
  end.

(** A line as [readlines] returns it when a line end follows it. *)
Definition terminated (l : string) : Prop :=
  ∃ b, l = b +:+ Str.LF ∧ Str.count Str.LF b = 0.

Lemma count_char_app c (a b : string) :
  Str.count (String c "") (a +:+ b) = Str.count (String c "") a + Str.count (String c "") b.
Proof.
  unfold Str.count. induction a as [|d a IH]; [done|].
  rewrite str_app_cons. cbn [Str.count_go String.length Nat.sub].
  rewrite !prefix_char. case_bool_decide; simpl; by rewrite IH.
Qed.

Lemma count_terminated (ls : list string) :
  Forall terminated ls → Str.count Str.LF (Str.concat ls) = length ls.
Proof.
  induction 1 as [|l ls (b & -> & Hb) _ IH]; [done|].
  rewrite concat_cons. unfold Str.LF in *. rewrite !count_char_app, Hb, IH. done.
Qed.

Section get_example_facts.

Variable yaml_load : string → result yaml_value.
Variable required_tag_fields : list string.
Variable BEAM_PLAYGROUND_TITLE : string.
Variable BEAM_PLAYGROUND : string.
Variable EXTENSION_TO_SDK : gmap string Sdk.
Variable SDK_TO_EXTENSION : Sdk → option string.
Variable URL_VCS_PREFIX : string.
Variable test_ends : list string.
Variable katas : string.
Variable examples_dir : string.
Variable os_path_relpath : string → string → result string.
Variable float_sub : string → Z → string.
Variable Dataset_from_dict : yaml_value → result Dataset.
Variable Emulator_from_dict : yaml_value → result Emulator.

Local Abbreviation get_example_here :=
  (_get_example EXTENSION_TO_SDK URL_VCS_PREFIX test_ends katas examples_dir
     os_path_relpath float_sub Dataset_from_dict Emulator_from_dict).
Local Abbreviation check_file_here :=
  (_check_file yaml_load required_tag_fields BEAM_PLAYGROUND_TITLE BEAM_PLAYGROUND
     EXTENSION_TO_SDK SDK_TO_EXTENSION URL_VCS_PREFIX test_ends katas examples_dir
     os_path_relpath float_sub Dataset_from_dict Emulator_from_dict).

Lemma make_Tag_context_line d t :
  make_Tag d = Ok t → tag_context_line t = dict_get d TagFields.context_line.
Proof. unfold make_Tag. case_bool_decide; [|done]. by intros [= <-]. Qed.

(** The record keeps the context line that the tag declares, less the
    number of line ends of the tag text. *)
Lemma get_example_context_line filepath filename t w ex w' :
  get_example_here filepath filename t w = (Ok ex, w') →
  ∃ declared,
    tag_as_dict t !! TagFields.context_line = Some declared ∧
    py_sub float_sub declared (Z.of_nat (Str.count Str.LF (tag_as_string t)))
    = Ok (tag_context_line (tag ex)).
Proof.
  unfold _get_example. intros H.
  repeat (apply bind_Ok_inv in H as (? & ? & ?%lift_Ok_inv & H)
          || apply bind_Ok_inv in H as (? & ? & ? & H)).
  destruct_and!. simplify_eq.
  match goal with H : dict_item _ TagFields.context_line = Ok ?d |- _ =>
    exists d; unfold dict_item in H;
    destruct (tag_as_dict t !! TagFields.context_line) eqn:E; [|done] end.
  simplify_eq. split; [done|].
  match goal with H : py_sub _ _ _ = Ok ?c |- _ => rewrite H end. f_equal.
  match goal with H : make_Tag _ = Ok ?tt |- _ =>
    apply make_Tag_context_line in H; unfold dict_get in H;
    rewrite lookup_insert_eq in H; simpl in H; rewrite <- H end.
  apply ret_Ok_inv in H as [-> _].
  repeat match goal with
         | H : (if ?c then _ else _) _ = (Ok _, _) |- _ => destruct c
         | H : (_ ≫= _) _ = (Ok _, _) |- _ =>
             apply bind_Ok_inv in H as (? & ? & ?%lift_Ok_inv & H); destruct_and!
         | H : mret _ _ = (Ok _, _) |- _ => apply ret_Ok_inv in H as [-> _]
         end; done.
Qed.

(** C7 (amended).  When [_get_example] builds a record from a tag whose
    declared context line is an integer, the record's context line is the
    declared one less the number of line ends in the tag text; and that
    number is the number of lines of the tag text whenever each of them
    ends with a line end. *)
Theorem context_line_less_line_ends filepath filename t w ex w' :
  get_example_here filepath filename t w = (Ok ex, w') →
  isinstance_int (dict_get (tag_as_dict t) TagFields.context_line) = true →
  tag_context_line (tag ex)
  = YInt (int_value (dict_get (tag_as_dict t) TagFields.context_line)
          - Z.of_nat (Str.count Str.LF (tag_as_string t))) ∧
  (∀ ls, tag_as_string t = Str.concat ls → Forall terminated ls →
         Str.count Str.LF (tag_as_string t) = length ls).
Proof.
  intros (declared & Hd & Hsub)%get_example_context_line Hint. split.
  - unfold dict_get in *. rewrite Hd in *. simpl in *.
    destruct declared; simplify_eq/=; done.
  - intros ls -> Hls. by apply count_terminated.
Qed.

(** C10.  A path that ends with [infrastructure/helper.py] is answered
    [False] at once: no file is opened, nothing is logged, and the list of
    examples is as it was, whatever the file holds and whatever the SDK. *)
Theorem check_file_skips_helper examples filename filepath supported_categories sdk w :
  Str.endswith "infrastructure/helper.py" filepath = true →
  check_file_here examples filename filepath supported_categories sdk w
  = (Ok (false, examples), w).
Proof. intros H. unfold _check_file. by rewrite H. Qed.

End get_example_facts.

(** *** The builder on concrete files *)

(** A Python example whose tag runs to the end of the file, the last line
    without a line end. *)
Definition tag_lines_foo : list string :=
  [ln "# Beam-playground:"; ln "#   name: Foo"; ln "#   description: An example";
   ln "#   complexity: MEDIUM"; ln "#   categories: [Quickstart]";
   ln "#   multifile: false"; ln "#   default_example: false";
   ln "#   pipeline_options:"; ln "#   tags: [demo]"; "#   context_line: 5"].

Definition foo_py : string := Str.concat (ln "print(1)" :: tag_lines_foo).

(** The same example with a line end after the last line. *)
Definition foo_py_terminated : string := foo_py +:+ Str.LF.

(** The mapping under the top-level key of that tag. *)
Definition tag_entries_foo : list (string * yaml_value) :=
  [("name", YStr "Foo"); ("description", YStr "An example");
   ("complexity", YStr "MEDIUM"); ("categories", YList [YStr "Quickstart"]);
   ("multifile", YBool false); ("default_example", YBool false);
   ("pipeline_options", YNull); ("tags", YList [YStr "demo"]);
   ("context_line", YInt 5)].

Definition tag_foo_py : ExampleTag :=
  mkExampleTag (dict_of_entries tag_entries_foo) (Str.concat tag_lines_foo).

Example get_tag_foo_py :
  get_tag MiniYaml.load Config.BEAM_PLAYGROUND_TITLE Config.BEAM_PLAYGROUND
    "examples/foo.py" (one_file "examples/foo.py" foo_py)
  = (Ok (Some (mkExampleTag (YMap tag_entries_foo) (Str.concat tag_lines_foo))),
     mkWorld {["examples/foo.py" := foo_py]} ∅ ["examples/foo.py"] []).
Proof. vm_compute. reflexivity. Qed.

(** C7, as stated, fails: the tag text of this file is ten lines of the
    file, the tag declares context line 5, and the record that
    [_check_file] builds holds 5 - 9, one less line than the tag fills,
    because the last line has no line end. *)
Lemma context_line_counts_line_ends_not_lines :
  ∃ ex w',
    check_file_ref TagFields.required [] "foo.py" "examples/foo.py" ["Quickstart"]
      SDK_PYTHON (one_file "examples/foo.py" foo_py) = (Ok (false, [ex]), w') ∧
    tag_context_line (tag ex) = YInt (5 - 9) ∧
    tag_as_dict tag_foo_py !! TagFields.context_line = Some (YInt 5) ∧
    readlines (tag_as_string tag_foo_py) = tag_lines_foo ∧
    length tag_lines_foo = 10.
Proof.
  eexists _, _. split_and!; [vm_compute; reflexivity|reflexivity..].
Qed.

(** The tag of the terminated file: the same mapping, and the ten lines
    each with its line end. *)
Definition tag_foo_py_terminated : ExampleTag :=
  mkExampleTag (tag_as_dict tag_foo_py) (Str.concat tag_lines_foo +:+ Str.LF).

Example get_tag_foo_py_terminated :
  get_tag MiniYaml.load Config.BEAM_PLAYGROUND_TITLE Config.BEAM_PLAYGROUND
    "examples/foo.py" (one_file "examples/foo.py" foo_py_terminated)
  = (Ok (Some (mkExampleTag (YMap tag_entries_foo) (tag_as_string tag_foo_py_terminated))),
     mkWorld {["examples/foo.py" := foo_py_terminated]} ∅ ["examples/foo.py"] []).
Proof. vm_compute. reflexivity. Qed.

Lemma context_line_witness :
  ∃ ex w',
    get_example_ref "examples/foo.py" "foo.py" tag_foo_py_terminated
      (one_file "examples/foo.py" foo_py_terminated) = (Ok ex, w') ∧
    tag_context_line (tag ex) = YInt (5 - 10).
Proof.
  eexists _, _. split; [vm_compute; reflexivity|].
  match goal with |- tag_context_line (tag ?e) = _ => set (ex := e) end.
  refine (proj1 (context_line_less_line_ends
                   ConfigValues.EXTENSION_TO_SDK ConfigValues.URL_VCS_PREFIX
                   ConfigValues.test_ends ConfigValues.katas ConfigValues.examples_dir
                   ConfigValues.relpath_from_root ConfigValues.float_sub
                   ConfigValues.no_from_dict ConfigValues.no_from_dict
                   "examples/foo.py" "foo.py" tag_foo_py_terminated
                   (one_file "examples/foo.py" foo_py_terminated) ex _ _ _)).
  - vm_compute. reflexivity.
  - reflexivity.
Defined.

Example foo_py_builds_example :
  ∃ ex w',
    check_file_ref TagFields.required [] "foo.py" "examples/foo.py" ["Quickstart"]
      SDK_PYTHON (one_file "examples/foo.py" foo_py_terminated) = (Ok (false, [ex]), w') ∧
    name ex = YStr "Foo" ∧ sdk ex = SDK_PYTHON ∧ code ex = ln "print(1)" ∧
    tag_context_line (tag ex) = YInt (5 - 10) ∧
    opened w' = ["examples/foo.py"; "examples/foo.py"] ∧ log w' = [].
Proof. eexists _, _. split_and!; [vm_compute; reflexivity|reflexivity..]. Qed.

(** The same file under a path the filter rejects. *)
Lemma check_file_skips_helper_witness :
  check_file_ref TagFields.required [] "helper.py" "playground/infrastructure/helper.py"
    ["Quickstart"] SDK_PYTHON
    (one_file "playground/infrastructure/helper.py" foo_py_terminated)
  = (Ok (false, []), one_file "playground/infrastructure/helper.py" foo_py_terminated).
Proof.
  apply (check_file_skips_helper MiniYaml.load TagFields.required
           Config.BEAM_PLAYGROUND_TITLE Config.BEAM_PLAYGROUND
           ConfigValues.EXTENSION_TO_SDK ConfigValues.SDK_TO_EXTENSION
           ConfigValues.URL_VCS_PREFIX ConfigValues.test_ends ConfigValues.katas
           ConfigValues.examples_dir ConfigValues.relpath_from_root
           ConfigValues.float_sub ConfigValues.no_from_dict ConfigValues.no_from_dict).
  reflexivity.
Defined.

(** ** The status polling engine *)

Section engine_facts.

Variable EmulatorType_Value : string → result Z.

Local Abbreviation step := (step EmulatorType_Value).
Local Abbreviation run := (run EmulatorType_Value).

Open Scope Z_scope.

(** The number of coroutines past [semaphore.acquire()] and not yet at
    [semaphore.release()]. *)
Fixpoint flying (ts : list task) : Z :=
  match ts with
  | [] => 0
  | t :: ts' => (if in_flight t then 1 else 0) + flying ts'
  end.

(** The state [get_statuses] awaits from: every coroutine created, the
    semaphore full. *)
Definition start (N : Z) (es : list Example) : engine :=
  mkEngine N (replicate (length es) Created) es Running.

(** The state [get_statuses] starts from with a limit [n], or the
    [ValueError] of the semaphore for a negative one. *)
Definition start_with_limit (n : Z) (es : list Example) : result engine :=
  if (n <? 0)%Z then Raise (ValueError "Semaphore initial value must be >= 0")
  else Ok (start n es).

Lemma get_statuses_start_unfold es d w :
  get_statuses_start es d w
  = match read_concurrency d w with
    | (Ok n, w') => (start_with_limit n es, w')
    | (Raise e, w') => (Raise e, w')
    end.
Proof.
  unfold get_statuses_start, mbind, M_bind, start_with_limit, Semaphore, lift.
  destruct (read_concurrency d w) as [[n|e] w']; [|done].
  by destruct (n <? 0)%Z.
Qed.

(** When [get_statuses] gets to its [await], the semaphore holds the
    limit in force, which is not negative, every coroutine is created and
    the records are those handed in. *)
Lemma get_statuses_start_Ok es d w σ0 :
  (get_statuses_start es d w).1 = Ok σ0 →
  (read_concurrency d w).1 = Ok (semaphore σ0) ∧ 0 ≤ semaphore σ0 ∧
  σ0 = start (semaphore σ0) es.
Proof.
  rewrite get_statuses_start_unfold.
  destruct (read_concurrency d w) as [[n|e] w'] eqn:E; [|done]. unfold start_with_limit.
  destruct (n <? 0) eqn:Hn; [done|]. apply Z.ltb_ge in Hn. simpl. by intros [= <-].
Qed.


(** The record [e] is [e0] but for [pipeline_id] and [status]. *)
Definition same_but_id_and_status (e0 e : Example) : Prop :=
  ∃ p s, e = set_status s (set_pipeline_id p e0).

Record inv (N : Z) (es0 : list Example) (σ : engine) : Prop := mkInv {
  inv_slots : semaphore σ + flying (tasks σ) = N;
  inv_nonneg : 0 ≤ semaphore σ;
  inv_tasks : length (tasks σ) = length es0;
  inv_examples : length (examples σ) = length es0;
  inv_finished : ∀ i, tasks σ !! i = Some Finished →
                      ∃ e, examples σ !! i = Some e ∧ polled (status e) = false;
  inv_frame : ∀ i e0 e, es0 !! i = Some e0 → examples σ !! i = Some e →
                        same_but_id_and_status e0 e;
  inv_returned : gather σ = Returned → Forall (λ t, t = Finished) (tasks σ);
  inv_raised : ∀ e, gather σ = Raised e → ∃ i, tasks σ !! i = Some (Failed e)
}.

Lemma flying_nonneg ts : 0 ≤ flying ts.
Proof. induction ts as [|t ts IH]; simpl; [lia|]. destruct (in_flight t); lia. Qed.

Lemma flying_insert ts i t t' :
  ts !! i = Some t →
  flying (<[i := t']> ts)
  = flying ts - (if in_flight t then 1 else 0) + (if in_flight t' then 1 else 0).
Proof.
  revert i. induction ts as [|x ts IH]; intros [|i] H; simplify_eq/=; [lia|].
  rewrite (IH i H). lia.
Qed.

Lemma flying_replicate n : flying (replicate n Created) = 0.
Proof. induction n; simpl; lia. Qed.

Lemma same_refl e : same_but_id_and_status e e.
Proof. exists (pipeline_id e), (status e). by destruct e. Qed.

Lemma same_set_pipeline_id e0 e p :
  same_but_id_and_status e0 e → same_but_id_and_status e0 (set_pipeline_id p e).
Proof. intros (p' & s & ->). by exists p, s. Qed.

Lemma same_set_status e0 e s :
  same_but_id_and_status e0 e → same_but_id_and_status e0 (set_status s e).
Proof. intros (p & s' & ->). by exists p, s. Qed.

Lemma inv_start N es : 0 ≤ N → inv N es (start N es).
Proof.
  intros HN. split; simpl.
  - rewrite flying_replicate. lia.
  - done.
  - apply length_replicate.
  - done.
  - intros i [[=] _]%lookup_replicate.
  - intros i e0 e H1 H2. simplify_eq. apply same_refl.
  - done.
  - done.
Qed.

Definition weight (t : task) : Z := if in_flight t then 1 else 0.

(** A resumption of coroutine [i]: its task changes from a state that
    has not ended, its record changes by [f], and the semaphore moves by
    the slots taken or given back. *)
Lemma inv_update N es0 σ i t t' f s' :
  inv N es0 σ →
  tasks σ !! i = Some t → ended t = false →
  s' + weight t' = semaphore σ + weight t → 0 ≤ s' →
  (∀ e0 e, same_but_id_and_status e0 e → same_but_id_and_status e0 (f e)) →
  (t' = Finished → ∀ e, polled (status (f e)) = false) →
  inv N es0 (mkEngine s' (<[i := t']> (tasks σ)) (alter f i (examples σ)) (gather σ)).
Proof.
  intros [Hs Hn Ht He Hf Hfr Hr Hra] Hi Hend Hw Hs' Hsame Hfin. split; simpl.
  - rewrite (flying_insert _ _ _ _ Hi). unfold weight in Hw. lia.
  - done.
  - by rewrite length_insert.
  - by rewrite length_alter.
  - intros j Hj. destruct (decide (j = i)) as [->|Hne].
    + rewrite list_lookup_insert_eq in Hj by (by eapply lookup_lt_Some).
      simplify_eq. rewrite list_lookup_alter_eq.
      destruct (examples σ !! i) as [e|] eqn:E.
      * exists (f e). split; [reflexivity|]. by apply Hfin.
      * apply lookup_ge_None in E. apply lookup_lt_Some in Hi. lia.
    + rewrite list_lookup_insert_ne in Hj by done.
      rewrite list_lookup_alter_ne by done. by apply Hf.
  - intros j e0 e H0 Hj. destruct (decide (j = i)) as [->|Hne].
    + rewrite list_lookup_alter_eq in Hj.
      destruct (examples σ !! i) as [e1|] eqn:E; simplify_eq/=.
      apply Hsame. by eapply Hfr.
    + rewrite list_lookup_alter_ne in Hj by done. by eapply Hfr.
  - intros Hg. specialize (Hr Hg). rewrite Forall_lookup in Hr.
    specialize (Hr _ _ Hi). by subst t.
  - intros e Hg. destruct (Hra e Hg) as [j Hj]. exists j.
    rewrite list_lookup_insert_ne; [done|]. intros ->. by simplify_eq.
Qed.

Lemma inv_update_task N es0 σ i t t' s' :
  inv N es0 σ →
  tasks σ !! i = Some t → ended t = false →
  s' + weight t' = semaphore σ + weight t → 0 ≤ s' →
  t' ≠ Finished →
  inv N es0 (mkEngine s' (<[i := t']> (tasks σ)) (examples σ) (gather σ)).
Proof.
  intros Hinv Hi Hend Hw Hs' Hne.
  rewrite <- (list_alter_id id (examples σ) i) by done.
  by eapply inv_update.
Qed.

Lemma inv_step N es0 σ ev σ' : inv N es0 σ → step σ ev = Some σ' → inv N es0 σ'.
Proof.
  intros Hinv Hstep. pose proof (inv_nonneg _ _ _ Hinv) as Hn.
  destruct ev as [i|i r|i r|i| |i]; simpl in Hstep.
  - destruct (tasks σ !! i) as [[]|] eqn:Ei; try done.
    destruct (examples σ !! i) as [ex|] eqn:Ex; try done.
    destruct (0 <? semaphore σ) eqn:Hpos; try done. apply Z.ltb_lt in Hpos.
    destruct (build_datasets _ ex); simplify_eq.
    + eapply (inv_update_task N es0 σ i Created); eauto; simpl; unfold weight; simpl;
        lia || done.
    + eapply (inv_update_task N es0 σ i Created); eauto; simpl; unfold weight; simpl;
        lia || done.
  - destruct (tasks σ !! i) as [[| req | | | |]|] eqn:Ei; try done.
    destruct r as [p|e]; simplify_eq.
    + eapply (inv_update N es0 σ i (Submitting req) _ (set_pipeline_id p)); eauto;
        simpl; unfold weight; simpl; try lia; try done.
      intros e0 e. apply same_set_pipeline_id.
    + eapply (inv_update_task N es0 σ i (Submitting req)); eauto; simpl;
        unfold weight; simpl; lia || done.
  - destruct (tasks σ !! i) as [[| | pid | | |]|] eqn:Ei; try done.
    destruct r as [s|e]; simplify_eq.
    + destruct (polled s) eqn:Hp; simplify_eq.
      * eapply (inv_update_task N es0 σ i (Polling pid)); eauto; simpl;
          unfold weight; simpl; lia || done.
      * eapply (inv_update N es0 σ i (Polling pid) _ (set_status s)); eauto;
          simpl; unfold weight; simpl; try lia; try done.
        intros e0 e. apply same_set_status.
    + eapply (inv_update_task N es0 σ i (Polling pid)); eauto; simpl;
        unfold weight; simpl; lia || done.
  - destruct (tasks σ !! i) as [[| | | pid | |]|] eqn:Ei; try done. simplify_eq.
    eapply (inv_update_task N es0 σ i (Sleeping pid)); eauto; simpl;
      unfold weight; simpl; lia || done.
  - destruct (gather σ) eqn:Hg; try done.
    destruct (forallb _ _) eqn:Hall; simplify_eq.
    destruct Hinv as [Hs _ Ht He Hf Hfr Hr Hra]. split; simpl; try done.
    intros _. apply Forall_forall. intros t Hin.
    rewrite forallb_forall in Hall. apply list_elem_of_In, Hall in Hin. by destruct t.
  - destruct (gather σ) eqn:Hg; try done.
    destruct (tasks σ !! i) as [[]|] eqn:Ei; try done. simplify_eq.
    destruct Hinv as [Hs _ Ht He Hf Hfr Hr Hra]. split; simpl; try done.
    intros e' [= <-]. by exists i.
Qed.

Lemma inv_run N es0 σ evs σ' : inv N es0 σ → run σ evs = Some σ' → inv N es0 σ'.
Proof.
  revert σ. induction evs as [|ev evs IH]; intros σ Hinv Hrun; simpl in Hrun.
  - by simplify_eq.
  - destruct (step σ ev) as [σ1|] eqn:E; [|done]. eapply IH; [|done]. by eapply inv_step.
Qed.

Lemma run_app σ evs1 evs2 :
  run σ (evs1 ++ evs2) = run σ evs1 ≫= λ σ1, run σ1 evs2.
Proof.
  revert σ. induction evs1 as [|ev evs1 IH]; intros σ; simpl; [done|].
  destruct (step σ ev); [apply IH|done].
Qed.

(** A coroutine that holds a slot finishes if the backend answers with an
    identifier and then a status that is not polled: other tasks and
    records stay as they are and the slot comes back. *)
Lemma can_finish σ i t :
  tasks σ !! i = Some t → in_flight t = true →
  ∃ evs σ', run σ evs = Some σ' ∧
    tasks σ' = <[i := Finished]> (tasks σ) ∧
    semaphore σ' = semaphore σ + 1 ∧ gather σ' = gather σ ∧
    (∀ j, j ≠ i → examples σ' !! j = examples σ !! j).
Proof.
  intros Hi Hfly.
  assert (i < length (tasks σ))%nat as Hlt by by eapply lookup_lt_Some.
  destruct t as [|req|p|p| |]; try done.
  - exists [RunCode i (Returns ""); CheckStatus i (Returns STATUS_FINISHED)]. eexists.
    simpl. rewrite Hi. simpl. rewrite list_lookup_insert_eq by done. simpl.
    split; [done|]. simpl. rewrite list_insert_insert_eq. split_and!; try done.
    intros j Hj. simpl. by rewrite ?list_lookup_alter_ne.
  - exists [CheckStatus i (Returns STATUS_FINISHED)]. eexists.
    simpl. rewrite Hi. simpl. split_and!; try done.
    intros j Hj. simpl. by rewrite ?list_lookup_alter_ne.
  - exists [Wake i; CheckStatus i (Returns STATUS_FINISHED)]. eexists.
    simpl. rewrite Hi. simpl. rewrite list_lookup_insert_eq by done. simpl.
    split; [done|]. simpl. rewrite list_insert_insert_eq. split_and!; try done.
    intros j Hj. simpl. by rewrite ?list_lookup_alter_ne.
Qed.

Lemma flying_pos ts : 0 < flying ts → ∃ k t, ts !! k = Some t ∧ in_flight t = true.
Proof.
  induction ts as [|t ts IH]; simpl; [lia|]. destruct (in_flight t) eqn:E.
  - intros _. by exists 0%nat, t.
  - intros H. destruct IH as (k & t' & ? & ?); [lia|]. by exists (S k), t'.
Qed.

(** With a limit of at least one, a coroutine that has not ended can
    always be run to its end, whatever happened to the others: if it waits
    for a slot and none is free, a coroutine that holds one finishes first.
    It ends as [Finished] unless its own payload cannot be built; any
    other task is as before, or held a slot and has finished. *)
Lemma can_end N es0 σ i t :
  1 ≤ N → inv N es0 σ → tasks σ !! i = Some t → ended t = false →
  ∃ evs σ' t', run σ evs = Some σ' ∧ tasks σ' !! i = Some t' ∧ gather σ' = gather σ ∧
    (t' = Finished ∨
     ∃ ex e, examples σ !! i = Some ex ∧
             build_datasets EmulatorType_Value ex = Raise e ∧ t' = Failed e) ∧
    (∀ j, j ≠ i →
       tasks σ' !! j = tasks σ !! j ∨
       (tasks σ' !! j = Some Finished ∧
        ∃ tj, tasks σ !! j = Some tj ∧ in_flight tj = true)).
Proof.
  intros HN Hinv Hi Hend.
  assert (i < length (tasks σ))%nat as Hlt by by eapply lookup_lt_Some.
  destruct (in_flight t) eqn:Hfly.
  { destruct (can_finish σ i t Hi Hfly) as (evs & σ' & Hrun & Ht & _ & Hg & _).
    exists evs, σ', Finished. rewrite Ht. split_and!; try done.
    - by apply list_lookup_insert_eq.
    - by left.
    - intros j Hj. left. by rewrite list_lookup_insert_ne. }
  destruct t; try done. clear Hend Hfly.
  assert (∃ evs1 σ1, run σ evs1 = Some σ1 ∧ inv N es0 σ1 ∧ 0 < semaphore σ1 ∧
            tasks σ1 !! i = Some Created ∧ gather σ1 = gather σ ∧
            examples σ1 !! i = examples σ !! i ∧
            (∀ j, j ≠ i →
               tasks σ1 !! j = tasks σ !! j ∨
               (tasks σ1 !! j = Some Finished ∧
                ∃ tj, tasks σ !! j = Some tj ∧ in_flight tj = true)))
    as (evs1 & σ1 & Hrun1 & Hinv1 & Hpos & Hi1 & Hg1 & Hex1 & Hoth1).
  { destruct (decide (0 < semaphore σ)) as [Hpos|Hzero].
    { exists [], σ. split_and!; try done. intros j _. by left. }
    pose proof (inv_slots _ _ _ Hinv) as Hs. pose proof (inv_nonneg _ _ _ Hinv) as Hn.
    destruct (flying_pos (tasks σ)) as (k & tk & Hk & Hfk); [lia|].
    assert (k ≠ i) as Hki. { intros ->. rewrite Hi in Hk. by simplify_eq. }
    destruct (can_finish σ k tk Hk Hfk) as (evs & σ' & Hrun & Ht & Hsem & Hg & Hex).
    exists evs, σ'. split_and!; try done.
    - by eapply inv_run.
    - lia.
    - by rewrite Ht, list_lookup_insert_ne.
    - by apply Hex.
    - intros j Hj. rewrite Ht. destruct (decide (j = k)) as [->|Hjk].
      + right. split; [|by exists tk]. apply list_lookup_insert_eq.
        by eapply lookup_lt_Some.
      + left. by rewrite list_lookup_insert_ne. }
  assert (i < length (examples σ1))%nat as Hlt1.
  { rewrite (inv_examples _ _ _ Hinv1), <- (inv_tasks _ _ _ Hinv1).
    by eapply lookup_lt_Some. }
  destruct (lookup_lt_is_Some_2 _ _ Hlt1) as [ex Hex].
  assert (i < length (tasks σ1))%nat as Hlt2 by by eapply lookup_lt_Some.
  destruct (build_datasets EmulatorType_Value ex) as [ds|e] eqn:Hb.
  - set (req := mkRequest (code ex) (sdk ex) (tag_pipeline_options (tag ex)) ds).
    set (σ2 := set_task i (Submitting req) (acquire σ1)).
    destruct (can_finish σ2 i (Submitting req))
      as (evs2 & σ3 & Hrun2 & Ht3 & _ & Hg3 & _); [by apply list_lookup_insert_eq|done|].
    exists (evs1 ++ Acquire i :: evs2), σ3, Finished. split_and!.
    + rewrite run_app, Hrun1. simpl. rewrite Hi1, Hex.
      apply Z.ltb_lt in Hpos. rewrite Hpos, Hb. done.
    + rewrite Ht3. apply list_lookup_insert_eq. subst σ2. simpl. by rewrite length_insert.
    + by rewrite Hg3.
    + by left.
    + intros j Hj. rewrite Ht3. subst σ2. simpl.
      rewrite !list_lookup_insert_ne by done. by apply Hoth1.
  - exists (evs1 ++ [Acquire i]), (release (set_task i (Failed e) (acquire σ1))), (Failed e).
    split_and!.
    + rewrite run_app, Hrun1. simpl. rewrite Hi1, Hex.
      apply Z.ltb_lt in Hpos. rewrite Hpos, Hb. done.
    + simpl. by apply list_lookup_insert_eq.
    + done.
    + right. exists ex, e. by rewrite <- Hex1.
    + intros j Hj. simpl. rewrite list_lookup_insert_ne by done. by apply Hoth1.
Qed.

End engine_facts.

Section engine_claims.

Variable EmulatorType_Value : string → result Z.

Local Abbreviation step := (step EmulatorType_Value).
Local Abbreviation run := (run EmulatorType_Value).
Local Abbreviation build_datasets := (build_datasets EmulatorType_Value).

Open Scope Z_scope.

(** *** What the engine writes *)

Definition frame (es0 : list Example) (σ : engine) : Prop :=
  ∀ i e0 e, es0 !! i = Some e0 → examples σ !! i = Some e → same_but_id_and_status e0 e.

Lemma step_examples σ ev σ' :
  step σ ev = Some σ' →
  examples σ' = examples σ ∨
  (∃ i p, examples σ' = alter (set_pipeline_id p) i (examples σ)) ∨
  (∃ i s, examples σ' = alter (set_status s) i (examples σ)).
Proof.
  intros Hstep. destruct ev as [i|i r|i r|i| |i]; simpl in Hstep.
  - destruct (tasks σ !! i) as [[]|]; try done.
    destruct (examples σ !! i); try done. destruct (0 <? semaphore σ); try done.
    destruct (build_datasets _); simplify_eq; by left.
  - destruct (tasks σ !! i) as [[]|]; try done. destruct r; simplify_eq.
    + right. left. by eexists _, _.
    + by left.
  - destruct (tasks σ !! i) as [[]|]; try done. destruct r as [s|]; simplify_eq.
    + destruct (polled s); simplify_eq; [by left|]. right. right. by eexists _, _.
    + by left.
  - destruct (tasks σ !! i) as [[]|]; try done. simplify_eq. by left.
  - destruct (gather σ); try done. destruct (forallb _ _); simplify_eq. by left.
  - destruct (gather σ); try done. destruct (tasks σ !! i) as [[]|]; try done.
    simplify_eq. by left.
Qed.

Lemma frame_alter es0 σ σ' f i :
  (∀ e0 e, same_but_id_and_status e0 e → same_but_id_and_status e0 (f e)) →
  frame es0 σ → examples σ' = alter f i (examples σ) → frame es0 σ'.
Proof.
  intros Hf Hfr Hex j e0 e H0 Hj. rewrite Hex in Hj.
  destruct (decide (i = j)) as [->|Hne].
  - rewrite list_lookup_alter_eq in Hj.
    destruct (examples σ !! j) as [e1|] eqn:E; simplify_eq/=. apply Hf. by eapply Hfr.
  - rewrite list_lookup_alter_ne in Hj by done. by eapply Hfr.
Qed.

Lemma frame_step es0 σ ev σ' : frame es0 σ → step σ ev = Some σ' → frame es0 σ'.
Proof.
  intros Hfr [Hex|[(i & p & Hex)|(i & s & Hex)]]%step_examples.
  - intros j e0 e H0 Hj. rewrite Hex in Hj. by eapply Hfr.
  - eapply frame_alter; [|done..]. intros e0 e. apply same_set_pipeline_id.
  - eapply frame_alter; [|done..]. intros e0 e. apply same_set_status.
Qed.

Lemma frame_run es0 σ evs σ' : frame es0 σ → run σ evs = Some σ' → frame es0 σ'.
Proof.
  revert σ. induction evs as [|ev evs IH]; intros σ Hfr Hrun; simpl in Hrun.
  - by simplify_eq.
  - destruct (step σ ev) as [σ1|] eqn:E; [|done]. eapply IH; [|done]. by eapply frame_step.
Qed.

(** C9.  Whatever the schedule and the answers of the backend, each
    record is the record that was handed in with [pipeline_id] and
    [status] possibly replaced: every other field, [output] and [logs]
    among them, is as it was. *)
Theorem polling_writes_only_id_and_status N es evs σ i e0 e :
  run (start N es) evs = Some σ → es !! i = Some e0 → examples σ !! i = Some e →
  e = set_status (status e) (set_pipeline_id (pipeline_id e) e0) ∧
  name e = name e0 ∧ complexity e = complexity e0 ∧ sdk e = sdk e0 ∧
  filepath e = filepath e0 ∧ code e = code e0 ∧ tag e = tag e0 ∧
  url_vcs e = url_vcs e0 ∧ url_notebook e = url_notebook e0 ∧ logs e = logs e0 ∧
  type e = type e0 ∧ output e = output e0 ∧ compile_output e = compile_output e0 ∧
  graph e = graph e0 ∧ datasets e = datasets e0 ∧ emulators e = emulators e0.
Proof.
  intros Hrun H0 He.
  assert (frame es (start N es)) as Hfr.
  { intros j a b Ha Hb. simpl in Hb. simplify_eq. apply same_refl. }
  destruct (frame_run _ _ _ _ Hfr Hrun i e0 e H0 He) as (p & s & ->).
  by destruct e0.
Qed.

(** A resumption of one coroutine leaves the others, and their records,
    as they are. *)
Definition coroutine (ev : event) : option nat :=
  match ev with
  | Acquire i | RunCode i _ | CheckStatus i _ | Wake i => Some i
  | GatherReturn | GatherRaise _ => None
  end.

Lemma step_other σ ev σ' j :
  step σ ev = Some σ' → coroutine ev ≠ Some j →
  tasks σ' !! j = tasks σ !! j ∧ examples σ' !! j = examples σ !! j.
Proof.
  intros Hstep Hj. destruct ev as [i|i r|i r|i| |i]; simpl in Hstep, Hj.
  - destruct (tasks σ !! i) as [[]|]; try done.
    destruct (examples σ !! i); try done. destruct (0 <? semaphore σ); try done.
    destruct (build_datasets _); simplify_eq; simpl;
      (rewrite list_lookup_insert_ne; [done|congruence]).
  - destruct (tasks σ !! i) as [[]|]; try done.
    destruct r; simplify_eq; simpl;
      rewrite ?list_lookup_alter_ne, list_lookup_insert_ne; done || congruence.
  - destruct (tasks σ !! i) as [[]|]; try done.
    destruct r as [s|]; [destruct (polled s)|]; simplify_eq; simpl;
      rewrite ?list_lookup_alter_ne, list_lookup_insert_ne; done || congruence.
  - destruct (tasks σ !! i) as [[]|]; try done. simplify_eq. simpl.
    rewrite list_lookup_insert_ne; [done|congruence].
  - destruct (gather σ); try done. by destruct (forallb _ _); simplify_eq.
  - destruct (gather σ); try done. by destruct (tasks σ !! i) as [[]|]; simplify_eq.
Qed.

Lemma ended_step σ ev σ' i t :
  step σ ev = Some σ' → tasks σ !! i = Some t → ended t = true →
  tasks σ' !! i = Some t ∧ examples σ' !! i = examples σ !! i.
Proof.
  intros Hstep Hi Hend.
  destruct (decide (coroutine ev = Some i)) as [Hev|Hev].
  - exfalso. destruct ev as [j|j r|j r|j| |j]; simplify_eq/=;
      rewrite Hi in Hstep; by destruct t.
  - destruct (step_other σ ev σ' i Hstep Hev) as [-> ->]. done.
Qed.

(** *** What the backend answered a coroutine *)

(** The identifier that [client.run_code] returns to coroutine [i] at an
    event, and the status that [client.check_status] answers it. *)
Definition run_code_id (i : nat) (ev : event) : option string :=
  match ev with
  | RunCode j (Returns p) => if decide (j = i) then Some p else None
  | _ => None
  end.

Definition check_status_answer (i : nat) (ev : event) : option Status :=
  match ev with
  | CheckStatus j (Returns s) => if decide (j = i) then Some s else None
  | _ => None
  end.

(** Over a schedule, in order. *)
Definition submitted (i : nat) (evs : list event) : list string :=
  omap (run_code_id i) evs.

Definition answered (i : nat) (evs : list event) : list Status :=
  omap (check_status_answer i) evs.

(** The record [e] of a coroutine that has finished, given the record
    [e0] that was handed in: [run_code] answered once, [check_status]
    answered polled statuses and then one that is not, and the record is
    [e0] with the identifier and that last status stored. *)
Definition stored (e0 e : Example) (ids : list string) (answers : list Status) : Prop :=
  ∃ p s before,
    ids = [p] ∧ answers = before ++ [s] ∧
    Forall (λ s', polled s' = true) before ∧ polled s = false ∧
    e = set_status s (set_pipeline_id p e0).

(** What the record of a coroutine holds, given where the coroutine
    stands, the record [e0] that was handed in and what the backend has
    answered the coroutine so far. *)
Definition record_at (t : task) (e0 e : Example) (ids : list string)
    (answers : list Status) : Prop :=
  match t with
  | Created | Submitting _ => ids = [] ∧ answers = [] ∧ e = e0
  | Polling p | Sleeping p =>
      ids = [p] ∧ Forall (λ s, polled s = true) answers ∧ e = set_pipeline_id p e0
  | Finished => stored e0 e ids answers
  | Failed _ =>
      (ids = [] ∧ answers = [] ∧ e = e0) ∨
      (∃ p, ids = [p] ∧ Forall (λ s, polled s = true) answers ∧ e = set_pipeline_id p e0)
  end.

Definition lifecycle (es0 : list Example) (evs : list event) (σ : engine) : Prop :=
  ∀ i t e0, tasks σ !! i = Some t → es0 !! i = Some e0 →
            ∃ e, examples σ !! i = Some e ∧
                 record_at t e0 e (submitted i evs) (answered i evs).

Lemma lifecycle_start N es : lifecycle es [] (start N es).
Proof. intros i t e0 [-> _]%lookup_replicate He0. by exists e0. Qed.

Lemma history_other ev j :
  coroutine ev ≠ Some j → run_code_id j ev = None ∧ check_status_answer j ev = None.
Proof.
  destruct ev as [k|k [p|e]|k [s|e]|k| |k]; simpl; try done; intros H;
    case_decide; try done; subst; by destruct H.
Qed.

Lemma history_snoc i evs ev :
  submitted i (evs ++ [ev]) = submitted i evs ++ from_option (λ p, [p]) [] (run_code_id i ev) ∧
  answered i (evs ++ [ev])
  = answered i evs ++ from_option (λ s, [s]) [] (check_status_answer i ev).
Proof.
  unfold submitted, answered. rewrite !omap_app. cbn [omap list_omap].
  by destruct (run_code_id i ev), (check_status_answer i ev).
Qed.

Lemma lifecycle_step es0 evs σ ev σ' :
  lifecycle es0 evs σ → step σ ev = Some σ' → lifecycle es0 (evs ++ [ev]) σ'.
Proof.
  intros Hl Hstep j t' e0 Hj He0.
  destruct (history_snoc j evs ev) as [-> ->].
  destruct (decide (coroutine ev = Some j)) as [Hev|Hev].
  2:{ destruct (step_other _ _ _ j Hstep Hev) as [Ht Hx]. rewrite Ht in Hj. rewrite Hx.
      destruct (history_other ev j Hev) as [-> ->]. cbn [from_option].
      rewrite !app_nil_r. by apply Hl. }
  destruct ev as [i|i r|i r|i| |i]; simplify_eq/=.
  - destruct (tasks σ !! j) as [[]|] eqn:Hi; try done.
    destruct (Hl j Created e0 Hi He0) as (e' & He' & -> & -> & ->).
    rewrite He' in Hstep. destruct (0 <? semaphore σ); [|done].
    apply lookup_lt_Some in Hi.
    destruct (build_datasets e0); simplify_eq/=;
      rewrite list_lookup_insert_eq in Hj by done; simplify_eq;
      exists e0; split; try done; simpl; auto.
  - destruct (tasks σ !! j) as [[|req| | | |]|] eqn:Hi; try done.
    destruct (Hl j _ e0 Hi He0) as (e' & He' & -> & -> & ->).
    apply lookup_lt_Some in Hi. case_decide; [|done].
    destruct r as [p|e]; simplify_eq/=;
      rewrite list_lookup_insert_eq in Hj by done; simplify_eq.
    + exists (set_pipeline_id p e0). rewrite list_lookup_alter_eq, He'. by split.
    + exists e0. split; [done|]. simpl. auto.
  - destruct (tasks σ !! j) as [[| |p| | |]|] eqn:Hi; try done.
    destruct (Hl j _ e0 Hi He0) as (e' & He' & Hids & Hans & ->).
    apply lookup_lt_Some in Hi. case_decide; [|done].
    destruct r as [s|e]; simplify_eq/=.
    + destruct (polled s) eqn:Hp; simplify_eq/=;
        rewrite list_lookup_insert_eq in Hj by done; simplify_eq.
      * exists (set_pipeline_id p e0). split; [done|]. simpl. rewrite app_nil_r.
        split_and!; try done. apply Forall_app. split; [done|]. by apply Forall_singleton.
      * exists (set_status s (set_pipeline_id p e0)).
        rewrite list_lookup_alter_eq, He'. split; [done|]. simpl. rewrite app_nil_r.
        by exists p, s, (answered j evs).
    + rewrite list_lookup_insert_eq in Hj by done. simplify_eq.
      exists (set_pipeline_id p e0). split; [done|]. simpl. rewrite !app_nil_r.
      right. by exists p.
  - destruct (tasks σ !! j) as [[| | |p| |]|] eqn:Hi; try done.
    destruct (Hl j _ e0 Hi He0) as (e' & He' & Hids & Hans & ->).
    apply lookup_lt_Some in Hi. simplify_eq/=.
    rewrite list_lookup_insert_eq in Hj by done. simplify_eq.
    exists (set_pipeline_id p e0). rewrite !app_nil_r. by split.
Qed.

Lemma lifecycle_run es0 evs0 σ evs σ' :
  lifecycle es0 evs0 σ → run σ evs = Some σ' → lifecycle es0 (evs0 ++ evs) σ'.
Proof.
  revert evs0 σ. induction evs as [|ev evs IH]; intros evs0 σ Hl Hrun; cbn [run] in Hrun.
  - simplify_eq. by rewrite app_nil_r.
  - destruct (step σ ev) as [σ1|] eqn:E; [|done].
    rewrite (cons_middle ev evs0 evs), app_assoc. eapply IH; [|done].
    by eapply lifecycle_step.
Qed.

(** A coroutine that has ended stays as it is, with its record. *)
Lemma ended_run σ evs σ' i t :
  run σ evs = Some σ' → tasks σ !! i = Some t → ended t = true →
  tasks σ' !! i = Some t ∧ examples σ' !! i = examples σ !! i.
Proof.
  revert σ. induction evs as [|ev evs IH]; intros σ Hrun Hi Hend; cbn [run] in Hrun.
  - by simplify_eq.
  - destruct (step σ ev) as [σ1|] eqn:E; [|done].
    destruct (ended_step _ _ _ _ _ E Hi Hend) as [Hi1 Hex1].
    destruct (IH σ1 Hrun Hi1 Hend) as [? ?]. split; [done|congruence].
Qed.


(** *** Completion *)

Fixpoint pending (ts : list task) : nat :=
  match ts with
  | [] => 0
  | t :: ts' => (if ended t then 0 else 1) + pending ts'
  end.

Definition is_failed (t : task) : bool :=
  match t with
  | Failed _ => true
  | _ => false
  end.

(** The payload of a record can be built. *)
Definition buildable (e : Example) : Prop := ∃ ds, build_datasets e = Ok ds.

Lemma pending_zero ts : pending ts = 0%nat → Forall (λ t, ended t = true) ts.
Proof.
  induction ts as [|t ts IH]; simpl; [constructor|].
  destruct (ended t) eqn:E; [|lia]. intros H. constructor; [done|]. apply IH. lia.
Qed.

Lemma pending_pos ts : pending ts ≠ 0%nat → ∃ i t, ts !! i = Some t ∧ ended t = false.
Proof.
  induction ts as [|t ts IH]; simpl; [done|]. destruct (ended t) eqn:E.
  - intros H. destruct IH as (i & t' & ? & ?); [lia|]. by exists (S i), t'.
  - intros _. by exists 0%nat, t.
Qed.

Lemma pending_mono ts ts' :
  length ts' = length ts →
  (∀ j t, ts !! j = Some t → ended t = true → ∃ t', ts' !! j = Some t' ∧ ended t' = true) →
  (pending ts' ≤ pending ts)%nat.
Proof.
  revert ts'. induction ts as [|t ts IH]; intros [|t' ts'] Hlen Hmono; simplify_eq/=; [lia|].
  assert (pending ts' ≤ pending ts)%nat.
  { apply IH; [done|]. intros j tj Hj Hej. apply (Hmono (S j) tj Hj Hej). }
  destruct (ended t) eqn:E.
  - destruct (Hmono 0%nat t eq_refl E) as (? & [= <-] & ->). lia.
  - destruct (ended t'); lia.
Qed.

Lemma pending_decrease ts ts' i t t' :
  length ts' = length ts →
  ts !! i = Some t → ended t = false → ts' !! i = Some t' → ended t' = true →
  (∀ j t, ts !! j = Some t → ended t = true → ∃ t', ts' !! j = Some t' ∧ ended t' = true) →
  (pending ts' < pending ts)%nat.
Proof.
  revert ts' i. induction ts as [|x ts IH]; intros [|x' ts'] [|i] Hlen Hi He Hi' He' Hmono;
    simplify_eq/=.
  - rewrite He, He'.
    assert (pending ts' ≤ pending ts)%nat; [|lia].
    apply pending_mono; [done|]. intros j tj Hj Hej. apply (Hmono (S j) tj Hj Hej).
  - assert (pending ts' < pending ts)%nat.
    { eapply IH; eauto. intros j tj Hj Hej. apply (Hmono (S j) tj Hj Hej). }
    destruct (ended x) eqn:E.
    + destruct (Hmono 0%nat x eq_refl E) as (? & [= <-] & ->). lia.
    + destruct (ended x'); lia.
Qed.

Lemma build_same e0 e : same_but_id_and_status e0 e → build_datasets e = build_datasets e0.
Proof. intros (p & s & ->). by destruct e0. Qed.

(** Every coroutine can be run to its end; when every payload can be
    built and none has failed so far, none fails. *)
Lemma can_end_all N es0 n σ :
  1 ≤ N → pending (tasks σ) = n → inv N es0 σ →
  ∃ evs σ', run σ evs = Some σ' ∧ inv N es0 σ' ∧
    Forall (λ t, ended t = true) (tasks σ') ∧ gather σ' = gather σ ∧
    (Forall buildable es0 →
     existsb is_failed (tasks σ) = false → existsb is_failed (tasks σ') = false).
Proof.
  intros HN. revert σ. induction (lt_wf n) as [n _ IH]. intros σ Hn Hinv.
  destruct (decide (pending (tasks σ) = 0%nat)) as [Hz|Hnz].
  { exists [], σ. split_and!; try done. by apply pending_zero. }
  destruct (pending_pos _ Hnz) as (i & t & Hi & Hend).
  destruct (can_end EmulatorType_Value N es0 σ i t HN Hinv Hi Hend)
    as (evs & σ1 & t' & Hrun & Hi' & Hg & Ht' & Hoth).
  pose proof (inv_run _ _ _ _ _ _ Hinv Hrun) as Hinv1.
  assert (ended t' = true) as Hend'.
  { destruct Ht' as [->|(? & ? & _ & _ & ->)]; done. }
  assert (∀ j tj, tasks σ !! j = Some tj → ended tj = true →
                  ∃ tj', tasks σ1 !! j = Some tj' ∧ ended tj' = true) as Hmono.
  { intros j tj Hj Hej. destruct (decide (j = i)) as [->|Hne]; [by eauto|].
    destruct (Hoth j Hne) as [->|[-> _]]; eauto. }
  assert (pending (tasks σ1) < pending (tasks σ))%nat as Hlt.
  { eapply pending_decrease; eauto.
    by rewrite (inv_tasks _ _ _ Hinv1), (inv_tasks _ _ _ Hinv). }
  destruct (IH (pending (tasks σ1)) ltac:(lia) σ1 eq_refl Hinv1)
    as (evs2 & σ2 & Hrun2 & Hinv2 & Hall & Hg2 & Hnf).
  exists (evs ++ evs2), σ2. split_and!; try done.
  - by rewrite run_app, Hrun.
  - by rewrite Hg2.
  - intros Hb Hno. apply Hnf; [done|].
    apply not_true_is_false. intros (x & Hin & Hf)%existsb_exists.
    apply list_elem_of_In, list_elem_of_lookup in Hin as [j Hj].
    rewrite <- not_true_iff_false in Hno. apply Hno, existsb_exists.
    destruct (decide (j = i)) as [->|Hne].
    + rewrite Hi' in Hj. simplify_eq.
      destruct Ht' as [->|(ex & e & Hex & Hbe & ->)]; [done|].
      assert (i < length es0)%nat as Hlen.
      { rewrite <- (inv_tasks _ _ _ Hinv). by eapply lookup_lt_Some. }
      destruct (lookup_lt_is_Some_2 _ _ Hlen) as [e0 He0].
      rewrite Forall_lookup in Hb. destruct (Hb _ _ He0) as [ds Hds].
      rewrite (build_same e0 ex) in Hbe; [congruence|].
      by eapply (inv_frame _ _ _ Hinv).
    + destruct (Hoth j Hne) as [Heq|[Heq _]]; rewrite Heq in Hj.
      * exists x. split; [|done]. apply list_elem_of_In, list_elem_of_lookup. by exists j.
      * by simplify_eq.
Qed.

(** C1 (amended).  When [get_statuses] gets to its [await] with a
    semaphore of at least one slot, then in every state a schedule can
    reach: the semaphore was made with the limit in force, the override or
    the caller's; at most that many coroutines are past the semaphore;
    there are as many records as were handed in; once the gathered call
    has returned, every record is the record handed in with the identifier
    that [run_code] returned to its coroutine and the last status that
    [check_status] answered it, which is not polled; and while no
    coroutine has failed and every payload can be built, the call can still
    return. *)
Theorem at_most_N_in_flight (es : list Example) (d : Z) (w : world) (σ0 : engine)
    (evs : list event) (σ : engine) :
  (get_statuses_start es d w).1 = Ok σ0 → 1 ≤ semaphore σ0 →
  run σ0 evs = Some σ →
  (read_concurrency d w).1 = Ok (semaphore σ0) ∧
  flying (tasks σ) ≤ semaphore σ0 ∧
  length (examples σ) = length es ∧
  (gather σ = Returned →
   ∀ i e0, es !! i = Some e0 →
     ∃ e, examples σ !! i = Some e ∧ stored e0 e (submitted i evs) (answered i evs)) ∧
  (gather σ = Running → Forall buildable es → existsb is_failed (tasks σ) = false →
   ∃ evs' σ', run σ evs' = Some σ' ∧ gather σ' = Returned).
Proof.
  intros (Hread & _ & Hstart)%get_statuses_start_Ok HN Hrun.
  set (N := semaphore σ0) in *. rewrite Hstart in Hrun.
  assert (inv N es σ) as Hinv by (eapply inv_run; [apply inv_start; lia|done]).
  split_and!.
  - done.
  - pose proof (inv_slots _ _ _ Hinv). pose proof (inv_nonneg _ _ _ Hinv). lia.
  - apply (inv_examples _ _ _ Hinv).
  - intros Hg i e0 He0.
    assert (i < length (tasks σ))%nat as Hlt.
    { rewrite (inv_tasks _ _ _ Hinv). by eapply lookup_lt_Some. }
    destruct (lookup_lt_is_Some_2 _ _ Hlt) as [t Ht].
    pose proof (inv_returned _ _ _ Hinv Hg) as Hall. rewrite Forall_lookup in Hall.
    rewrite (Hall _ _ Ht) in Ht.
    apply (lifecycle_run es [] _ _ _ (lifecycle_start N es) Hrun i Finished e0 Ht He0).
  - intros Hg Hb Hnf.
    destruct (can_end_all N es _ σ HN eq_refl Hinv)
      as (evs1 & σ1 & Hrun1 & Hinv1 & Hall & Hg1 & Hnf1).
    specialize (Hnf1 Hb Hnf).
    assert (forallb (λ t, match t with Finished => true | _ => false end) (tasks σ1) = true)
      as Hfin.
    { apply forallb_forall. intros t Hin. rewrite Forall_forall in Hall.
      pose proof Hin as Hin'. apply list_elem_of_In, Hall in Hin'.
      rewrite <- not_true_iff_false in Hnf1. destruct t; try done.
      exfalso. apply Hnf1, existsb_exists. by eexists. }
    assert (step σ1 GatherReturn
            = Some (mkEngine (semaphore σ1) (tasks σ1) (examples σ1) Returned)) as Hstep.
    { cbn. rewrite Hg1, Hg. by rewrite Hfin. }
    exists (evs1 ++ [GatherReturn]). eexists. split.
    + rewrite run_app, Hrun1. cbn [mbind option_bind]. cbn -[step]. by rewrite Hstep.
    + done.
Qed.

(** C2 (amended).  Take the resumption at which a coroutine fails, in a
    run of [get_statuses] with a semaphore of at least one slot.  That
    step changes no sibling: the state of every other coroutine and its
    record are as before, and so is the gathered call; the slot of the
    failed coroutine is back in the semaphore.  And at any later point the
    failed coroutine is still failed, and every sibling that has not ended
    and whose payload can be built can still be run to its end: it
    finishes, with the last status that [check_status] answered it, which
    is not polled, stored in its record.  (The gathered call itself raises
    as soon as it sees the failure, whether or not the siblings have
    ended.) *)
Theorem failure_leaves_siblings_runnable (es : list Example) (d : Z) (w : world)
    (σ0 : engine) (evs : list event) (σ : engine) (ev : event) (σ' : engine)
    (i : nat) (e : exn) :
  (get_statuses_start es d w).1 = Ok σ0 → 1 ≤ semaphore σ0 →
  run σ0 evs = Some σ → step σ ev = Some σ' →
  coroutine ev = Some i → tasks σ' !! i = Some (Failed e) →
  (∀ j, j ≠ i → tasks σ' !! j = tasks σ !! j ∧ examples σ' !! j = examples σ !! j) ∧
  gather σ' = gather σ ∧
  semaphore σ' + flying (tasks σ') = semaphore σ0 ∧
  ∀ evs2 σ2, run σ' evs2 = Some σ2 →
    tasks σ2 !! i = Some (Failed e) ∧
    ∀ j t e0, tasks σ2 !! j = Some t → ended t = false →
      es !! j = Some e0 → buildable e0 →
      ∃ evs3 σ3 e3,
        run σ2 evs3 = Some σ3 ∧ tasks σ3 !! j = Some Finished ∧
        tasks σ3 !! i = Some (Failed e) ∧ gather σ3 = gather σ2 ∧
        examples σ3 !! j = Some e3 ∧
        stored e0 e3 (submitted j (evs ++ ev :: evs2 ++ evs3))
          (answered j (evs ++ ev :: evs2 ++ evs3)).
Proof.
  intros (_ & _ & Hstart)%get_statuses_start_Ok HN Hrun Hstep Hev Hi.
  set (N := semaphore σ0) in *. rewrite Hstart in Hrun.
  assert (inv N es σ) as Hinv by (eapply inv_run; [apply inv_start; lia|done]).
  assert (inv N es σ') as Hinv' by by eapply inv_step.
  assert (run (start N es) (evs ++ [ev]) = Some σ') as Hrun'.
  { rewrite run_app, Hrun. cbn [mbind option_bind run]. by rewrite Hstep. }
  split_and!.
  - intros j Hj. apply (step_other σ ev σ' j Hstep). congruence.
  - destruct ev as [k|k r|k r|k| |k]; try done; cbn [step] in Hstep.
    + destruct (tasks σ !! k) as [[]|]; try done. destruct (examples σ !! k); try done.
      destruct (0 <? semaphore σ); try done. by destruct (build_datasets _); simplify_eq.
    + destruct (tasks σ !! k) as [[]|]; try done. by destruct r; simplify_eq.
    + destruct (tasks σ !! k) as [[]|]; try done.
      destruct r as [s|]; [destruct (polled s)|]; by simplify_eq.
    + destruct (tasks σ !! k) as [[]|]; try done. by simplify_eq.
  - apply (inv_slots _ _ _ Hinv').
  - intros evs2 σ2 Hrun2.
    destruct (ended_run _ _ _ _ _ Hrun2 Hi eq_refl) as [Hi2 _]. split; [done|].
    intros j t e0 Hj Hend He0 Hb.
    assert (inv N es σ2) as Hinv2 by by eapply inv_run.
    destruct (can_end EmulatorType_Value N es σ2 j t HN Hinv2 Hj Hend)
      as (evs3 & σ3 & t' & Hrun3 & Hj3 & Hg & Ht' & Hoth).
    assert (t' = Finished) as ->.
    { destruct Ht' as [->|(ex & e' & Hex & Hbe & ->)]; [done|].
      destruct Hb as [ds Hds].
      rewrite (build_same e0 ex) in Hbe; [congruence|].
      by eapply (inv_frame _ _ _ Hinv2). }
    assert (run (start N es) (evs ++ ev :: evs2 ++ evs3) = Some σ3) as Hall.
    { rewrite (cons_middle ev evs), app_assoc, run_app, Hrun'. cbn [mbind option_bind].
      by rewrite run_app, Hrun2. }
    destruct (lifecycle_run es [] _ _ _ (lifecycle_start N es) Hall j Finished e0 Hj3 He0)
      as (e3 & He3 & Hst).
    exists evs3, σ3, e3. split_and!; try done.
    by destruct (ended_run _ _ _ _ _ Hrun3 Hi2 eq_refl).
Qed.


End engine_claims.

(** *** The engine on concrete batches *)

Definition three : list Example := example_named <$> ["a"; "b"; "c"].
Definition five : list Example := example_named <$> ["a"; "b"; "c"; "d"; "e"].

(** Three jobs under a limit of two: the third waits until a slot is
    free. *)
Definition schedule_three : list event :=
  [Acquire 0; Acquire 1; RunCode 0 (Returns "p0");
   CheckStatus 0 (Returns STATUS_EXECUTING); RunCode 1 (Returns "p1"); Wake 0;
   CheckStatus 1 (Returns STATUS_FINISHED); Acquire 2;
   CheckStatus 0 (Returns STATUS_FINISHED); RunCode 2 (Returns "p2");
   CheckStatus 2 (Returns STATUS_COMPILE_ERROR); GatherReturn].

Example third_job_waits :
  run EmulatorType_ref (start 2 three) [Acquire 0; Acquire 1; Acquire 2] = None.
Proof. reflexivity. Qed.

Lemma at_most_N_in_flight_witness :
  ∃ σ0 σ,
    (get_statuses_start three 10 (with_override "2")).1 = Ok σ0 ∧
    run EmulatorType_ref σ0 schedule_three = Some σ ∧
    gather σ = Returned ∧
    (read_concurrency 10 (with_override "2")).1 = Ok 2%Z ∧
    (flying (tasks σ) ≤ 2)%Z ∧ length (examples σ) = 3%nat ∧
    ∃ e, examples σ !! 2%nat = Some e ∧
         stored (example_named "c") e (submitted 2 schedule_three)
           (answered 2 schedule_three) ∧
         pipeline_id e = "p2" ∧ status e = STATUS_COMPILE_ERROR.
Proof.
  eexists _, _. split; [vm_compute; reflexivity|]. split; [vm_compute; reflexivity|].
  split; [reflexivity|].
  match goal with |- _ ∧ (flying (tasks ?s) ≤ _)%Z ∧ _ => set (σ := s) end.
  destruct (at_most_N_in_flight EmulatorType_ref three 10 (with_override "2")
              (start 2 three) schedule_three σ
              ltac:(vm_compute; reflexivity) ltac:(simpl; lia)
              ltac:(vm_compute; reflexivity)) as (H1 & H2 & H3 & H4 & _).
  split; [exact H1|]. split; [exact H2|]. split; [exact H3|].
  destruct (H4 eq_refl 2%nat (example_named "c") eq_refl) as (e & He & Hst).
  exists e. split; [exact He|]. split; [exact Hst|].
  vm_compute in He. injection He as <-. split; reflexivity.
Defined.

(** Job 3 of 5 fails at submission while the other four wait for the
    backend. *)
Definition schedule_third_fails : list event :=
  [Acquire 0; Acquire 1; Acquire 2; Acquire 3; Acquire 4;
   RunCode 2 (Raises (BackendError "unavailable"))].

(** Records handed in with a polled status. *)
Definition five_executing : list Example := set_status STATUS_EXECUTING <$> five.

(** C1, as stated, fails: the batch call also completes by raising.
    After job 3 has raised, the gathered call raises while the four
    siblings wait for the backend: [check_status] has answered none of the
    five coroutines, no status has been stored, and the records are as they
    were handed in.  When they came with a polled status, that is the
    status they hold when the call completes. *)
Lemma batch_completes_with_nothing_stored :
  (∃ σ0 σ,
     (get_statuses_start five 5 (mkWorld ∅ ∅ [] [])).1 = Ok σ0 ∧
     run EmulatorType_ref σ0 (schedule_third_fails ++ [GatherRaise 2]) = Some σ ∧
     gather σ = Raised (BackendError "unavailable") ∧
     examples σ = five ∧
     Forall (λ i, answered i (schedule_third_fails ++ [GatherRaise 2]) = [])
       [0; 1; 2; 3; 4]%nat) ∧
  (∃ σ0 σ,
     (get_statuses_start five_executing 5 (mkWorld ∅ ∅ [] [])).1 = Ok σ0 ∧
     run EmulatorType_ref σ0 (schedule_third_fails ++ [GatherRaise 2]) = Some σ ∧
     gather σ = Raised (BackendError "unavailable") ∧
     status <$> examples σ = replicate 5 STATUS_EXECUTING ∧
     Forall (λ e, polled (status e) = true) (examples σ)).
Proof.
  split; eexists _, _; (split; [vm_compute; reflexivity|]);
    (split; [vm_compute; reflexivity|]); split_and!; try reflexivity;
    repeat constructor.
Qed.

(** C2, as stated, fails: after job 3 has raised, the gathered call can
    raise at once, while the four siblings are still waiting for the
    backend and none of them has stored a status. *)
Lemma batch_raises_before_siblings_end :
  ∃ σ, run EmulatorType_ref (start 5 five) (schedule_third_fails ++ [GatherRaise 2]) = Some σ ∧
       gather σ = Raised (BackendError "unavailable") ∧
       ended <$> tasks σ = [false; false; true; false; false] ∧
       examples σ = five.
Proof. eexists. split_and!; vm_compute; reflexivity. Qed.

Lemma failure_leaves_siblings_runnable_witness :
  ∃ σ0 σ σ',
    (get_statuses_start five 5 (mkWorld ∅ ∅ [] [])).1 = Ok σ0 ∧
    run EmulatorType_ref σ0 [Acquire 0; Acquire 1; Acquire 2; Acquire 3; Acquire 4]
    = Some σ ∧
    step EmulatorType_ref σ (RunCode 2 (Raises (BackendError "unavailable"))) = Some σ' ∧
    (∀ j, j ≠ 2%nat →
          tasks σ' !! j = tasks σ !! j ∧ examples σ' !! j = examples σ !! j) ∧
    gather σ' = gather σ ∧
    (semaphore σ' + flying (tasks σ') = 5)%Z ∧
    ∀ evs2 σ2, run EmulatorType_ref σ' evs2 = Some σ2 →
      tasks σ2 !! 2%nat = Some (Failed (BackendError "unavailable")) ∧
      ∀ j t e0, tasks σ2 !! j = Some t → ended t = false →
        five !! j = Some e0 → buildable EmulatorType_ref e0 →
        ∃ evs3 σ3 e3,
          run EmulatorType_ref σ2 evs3 = Some σ3 ∧ tasks σ3 !! j = Some Finished ∧
          tasks σ3 !! 2%nat = Some (Failed (BackendError "unavailable")) ∧
          gather σ3 = gather σ2 ∧
          examples σ3 !! j = Some e3 ∧
          stored e0 e3
            (submitted j ([Acquire 0; Acquire 1; Acquire 2; Acquire 3; Acquire 4]
                          ++ RunCode 2 (Raises (BackendError "unavailable"))
                          :: evs2 ++ evs3))
            (answered j ([Acquire 0; Acquire 1; Acquire 2; Acquire 3; Acquire 4]
                         ++ RunCode 2 (Raises (BackendError "unavailable"))
                         :: evs2 ++ evs3)).
Proof.
  eexists _, _, _. split; [vm_compute; reflexivity|]. split; [vm_compute; reflexivity|].
  split; [vm_compute; reflexivity|].
  apply (failure_leaves_siblings_runnable EmulatorType_ref five 5 (mkWorld ∅ ∅ [] [])
           (start 5 five) [Acquire 0; Acquire 1; Acquire 2; Acquire 3; Acquire 4] _
           (RunCode 2 (Raises (BackendError "unavailable"))) _
           2 (BackendError "unavailable")).
  - vm_compute. reflexivity.
  - simpl. lia.
  - vm_compute. reflexivity.
  - vm_compute. reflexivity.
  - reflexivity.
  - reflexivity.
Defined.

(** After the failure of job 3, job 1 is run to its end: the status that
    the backend answers last is the one its record holds. *)
Example sibling_finishes_after_the_failure :
  ∃ σ, run EmulatorType_ref (start 5 five)
         (schedule_third_fails
          ++ [GatherRaise 2; RunCode 0 (Returns "p0");
              CheckStatus 0 (Returns STATUS_EXECUTING); Wake 0;
              CheckStatus 0 (Returns STATUS_RUN_ERROR)]) = Some σ ∧
       tasks σ !! 0%nat = Some Finished ∧
       examples σ !! 0%nat
       = Some (set_status STATUS_RUN_ERROR (set_pipeline_id "p0" (example_named "a"))) ∧
       gather σ = Raised (BackendError "unavailable").
Proof. eexists. split_and!; vm_compute; reflexivity. Qed.

Lemma polling_writes_only_id_and_status_witness :
  ∃ σ e, run EmulatorType_ref (start 2 three) schedule_three = Some σ ∧
         examples σ !! 2%nat = Some e ∧
         pipeline_id e = "p2" ∧ status e = STATUS_COMPILE_ERROR ∧
         e = set_status (status e) (set_pipeline_id (pipeline_id e) (example_named "c")) ∧
         output e = output (example_named "c") ∧ logs e = logs (example_named "c").
Proof.
  eexists _, _. split; [vm_compute; reflexivity|].
  split; [vm_compute; reflexivity|].
  match goal with |- pipeline_id ?x = _ ∧ _ => set (e := x) end.
  destruct (polling_writes_only_id_and_status EmulatorType_ref 2 three schedule_three
              _ 2%nat (example_named "c") e
              ltac:(vm_compute; reflexivity) ltac:(reflexivity) ltac:(reflexivity))
    as (H0 & _ & _ & _ & _ & _ & _ & _ & _ & Hlogs & _ & Hout & _).
  split_and!; [reflexivity|reflexivity|exact H0|exact Hout|exact Hlogs].
Defined.

(** *** The concurrency override *)













Example override_used :
  (get_statuses_start three 10 (with_override " 2 ")).1 = Ok (start 2 three).
Proof. reflexivity. Qed.
Example override_not_a_number :
  get_statuses_start three 10 (with_override "many")
  = (Ok (start 10 three), with_override "many").
Proof. reflexivity. Qed.
Example override_absent :
  get_statuses_start three 10 (mkWorld ∅ ∅ [] []) = (Ok (start 10 three), mkWorld ∅ ∅ [] []).
Proof. reflexivity. Qed.
(** A separator in front of the number, or more digits than [int]
    converts: the override is dropped without a word. *)
Example override_with_separator_or_too_long :
  get_statuses_start three 10 (with_override (String "028" "7"))
  = (Ok (start 10 three), with_override (String "028" "7")) ∧
  get_statuses_start three 10 (with_override (str_repeat "0" 4300 +:+ "7"))
  = (Ok (start 10 three), with_override (str_repeat "0" 4300 +:+ "7")).
Proof. split; vm_compute; reflexivity. Qed.
(** With the override [0] the call starts, and no coroutine ever gets a
    slot. *)
Example override_zero :
  (get_statuses_start three 10 (with_override "0")).1 = Ok (start 0 three) ∧
  Forall (λ i, step EmulatorType_ref (start 0 three) (Acquire i) = None) [0; 1; 2]%nat.
Proof. split; [reflexivity|]. repeat constructor. Qed.


(** ** More on [_check_no_nested] *)

Lemma cparts_inj p q : wf p → wf q → cparts p = cparts q → p = q.
Proof.
  intros [Hrp Hnp] [Hrq Hnq]. destruct p as [rp np], q as [rq nq]. unfold cparts. simpl in *.
  destruct (decide (rp = "")) as [->|Hp], (decide (rq = "")) as [->|Hq]; simpl.
  - by intros ->.
  - intros ->. apply Forall_cons in Hnp as [[??] _].
    by destruct Hrq as [?|[?|?]]; simplify_eq.
  - intros <-. apply Forall_cons in Hnq as [[??] _].
    by destruct Hrp as [?|[?|?]]; simplify_eq.
  - by intros [= -> ->].
Qed.

Lemma le_antisym p q : wf p → wf q → le p q → le q p → p = q.
Proof.
  intros Hp Hq H1%le_cmp H2%le_cmp. apply cparts_inj; [done..|].
  rewrite (parts_compare_antisym (cparts q)) in H2.
  destruct (parts_compare (cparts q) (cparts p)) eqn:E; try done.
  symmetry. by apply parts_compare_eq.
Qed.

Lemma sorted_wf l : Forall wf l → Forall wf (sorted l).
Proof. by rewrite sorted_perm. Qed.

Lemma strongly_sorted_unique l1 l2 :
  Forall wf l1 → StronglySorted le l1 → StronglySorted le l2 → l1 ≡ₚ l2 → l1 = l2.
Proof.
  intros Hwf Hl1. revert l2 Hwf.
  induction Hl1 as [|x1 l1 ? IH Hx1]; intros l2 Hwf Hl2 E.
  { symmetry. by apply Permutation_nil. }
  destruct Hl2 as [|x2 l2 ? Hx2].
  { by apply Permutation_nil_r in E. }
  apply Forall_cons in Hwf as [Hw1 Hwf].
  assert (x1 = x2); subst.
  { rewrite Forall_forall in Hx1, Hx2.
    assert (x2 ∈ x1 :: l1) as Hx2' by (by rewrite E; left).
    assert (x1 ∈ x2 :: l2) as Hx1' by (by rewrite <- E; left).
    apply elem_of_cons in Hx1' as [?|Hx1']; [done|].
    apply elem_of_cons in Hx2' as [?|Hx2']; [done|].
    apply le_antisym; [done| |by apply Hx1|by apply Hx2].
    rewrite Forall_forall in Hwf. by apply Hwf. }
  f_equal. apply IH; [done..|]. by apply (inj (x2 ::.)).
Qed.

(** Sorting depends on the paths only, not on the order they come in. *)
Lemma sorted_permutation l1 l2 : Forall wf l1 → l1 ≡ₚ l2 → sorted l1 = sorted l2.
Proof.
  intros Hwf Hperm. apply strongly_sorted_unique.
  - by apply sorted_wf.
  - apply sorted_sorted.
  - apply sorted_sorted.
  - by rewrite !sorted_perm.
Qed.

Lemma of_string_all_wf subdirs : Forall wf (of_string <$> subdirs).
Proof. apply Forall_forall. intros x (s & -> & _)%list_elem_of_fmap. apply of_string_wf. Qed.

Lemma path_in_self x : path_in x (x :: parents x) = true.
Proof. unfold path_in. simpl. unfold eqb. by rewrite bool_decide_eq_true_2. Qed.

(** In a sorted list of parsed paths, a path that occurs twice is next to
    itself. *)
Lemma check_pairs_raises_dup s :
  StronglySorted le s → Forall wf s → ¬ NoDup s → raises (check_pairs (zip s (tail s))).
Proof.
  intros Hs Hwf Hdup. induction Hs as [|x s Hs IH Hx]; [by destruct Hdup; constructor|].
  apply Forall_cons in Hwf as [Hwx Hwf].
  destruct s as [|c s]. { destruct Hdup. repeat constructor. by intros ?%elem_of_nil. }
  rewrite check_pairs_cons.
  destruct (path_in x (c :: parents c)) eqn:Hin; [by eexists|].
  apply IH; [done|]. intros Hnd. apply Hdup. constructor; [|done]. intros Hxs.
  assert (x = c) as ->; [|by rewrite path_in_self in Hin].
  apply Forall_cons in Hx as [Hxc _]. apply Forall_cons in Hwf as [Hwc _].
  apply le_antisym; [done..|].
  apply elem_of_cons in Hxs as [->|Hxs]; [apply le_refl|].
  apply StronglySorted_inv in Hs as [_ Hc]. rewrite Forall_forall in Hc. by apply Hc.
Qed.

Lemma nested_or_repeated_raise (subdirs : list string) i j a b :
  i ≠ j → subdirs !! i = Some a → subdirs !! j = Some b →
  of_string a = of_string b ∨
  (strict_ancestor (of_string a) (of_string b) ∧ cparts (of_string a) ≠ []) →
  ∃ msg, _check_no_nested subdirs = Raise (ValueError msg).
Proof.
  intros Hij Hi Hj Hcase.
  assert (raises (_check_no_nested subdirs)) as [e He].
  { destruct Hcase as [Heq|[Hanc Hne]].
    - unfold _check_no_nested. apply check_pairs_raises_dup.
      + apply sorted_sorted.
      + apply sorted_wf, of_string_all_wf.
      + rewrite sorted_perm. intros Hnd. apply Hij.
        apply (NoDup_lookup _ i j (of_string a) Hnd); rewrite list_lookup_fmap.
        * by rewrite Hi.
        * by rewrite Hj, Heq.
    - apply (check_no_nested_complete subdirs a b); try done.
      + by eapply list_elem_of_lookup_2.
      + by eapply list_elem_of_lookup_2. }
  unfold _check_no_nested in *.
  revert He. generalize (sorted (map of_string subdirs)). intros s.
  induction s as [|x [|c s] IH]; [done..|]. rewrite check_pairs_cons.
  destruct (path_in _ _); [|exact IH]. intros [= <-]. by eexists.
Qed.

(** X1.  [_check_no_nested] refuses every list in which two entries name
    the same path, and every list in which an entry is a strict ancestor
    of another one, as long as the ancestor is not the empty relative
    path. *)
Theorem nested_or_repeated_roots_are_refused (subdirs : list string) i j a b :
  i ≠ j → subdirs !! i = Some a → subdirs !! j = Some b →
  of_string a = of_string b ∨
  (strict_ancestor (of_string a) (of_string b) ∧ cparts (of_string a) ≠ []) →
  ∃ msg, _check_no_nested subdirs = Raise (ValueError msg).
Proof. apply nested_or_repeated_raise. Qed.

Lemma nested_or_repeated_roots_witness :
  (∃ msg, _check_no_nested ["sdks/go"; "learning"; "sdks"] = Raise (ValueError msg)) ∧
  (∃ msg, _check_no_nested ["sdks"; "learning"; "./sdks/"] = Raise (ValueError msg)).
Proof.
  split.
  - apply (nested_or_repeated_roots_are_refused _ 2 0 "sdks" "sdks/go");
      [lia|reflexivity|reflexivity|].
    right. split; [reflexivity|]. vm_compute. discriminate.
  - apply (nested_or_repeated_roots_are_refused _ 0 2 "sdks" "./sdks/");
      [lia|reflexivity|reflexivity|].
    left. reflexivity.
Defined.

Lemma check_pairs_raise_inv s e :
  check_pairs (zip s (tail s)) = Raise e →
  ∃ k x y, s !! k = Some x ∧ s !! S k = Some y ∧
    path_in x (y :: parents y) = true ∧
    e = ValueError (to_str y +:+ " is a subdirectory of " +:+ to_str x).
Proof.
  induction s as [|x [|c s] IH]; [done..|]. rewrite check_pairs_cons.
  destruct (path_in x (c :: parents c)) eqn:Hin.
  - intros [= <-]. by exists 0, x, c.
  - intros (k & x' & y' & ? & ? & ? & ?)%IH. by exists (S k), x', y'.
Qed.

(** X2.  [_check_no_nested] raises only when it should: the exception
    names two entries at different places of the list, the first of which
    is the second or one of its ancestors. *)
Theorem refused_roots_are_nested_or_repeated (subdirs : list string) e :
  _check_no_nested subdirs = Raise e →
  ∃ i j a b, i ≠ j ∧ subdirs !! i = Some a ∧ subdirs !! j = Some b ∧
    path_in (of_string a) (of_string b :: parents (of_string b)) = true ∧
    e = ValueError (to_str (of_string b) +:+ " is a subdirectory of "
                    +:+ to_str (of_string a)).
Proof.
  unfold _check_no_nested. intros (k & x & y & Hx & Hy & Hin & ->)%check_pairs_raise_inv.
  pose proof (sorted_perm (map of_string subdirs)) as Hperm.
  apply Permutation_inj in Hperm as [_ (f & Hf & Hlook)].
  rewrite Hlook in Hx, Hy. change (map of_string subdirs) with (of_string <$> subdirs) in *.
  rewrite list_lookup_fmap in Hx, Hy.
  destruct (subdirs !! f k) as [a|] eqn:Ha; [|done].
  destruct (subdirs !! f (S k)) as [b|] eqn:Hb; [|done].
  simpl in Hx, Hy. simplify_eq. exists (f k), (f (S k)), a, b. split_and!; try done.
  intros E. apply Hf in E. lia.
Qed.

Lemma refused_roots_witness :
  ∃ i j a b, i ≠ j ∧ ["sdks/go"; "learning"; "sdks"] !! i = Some a ∧
    ["sdks/go"; "learning"; "sdks"] !! j = Some b ∧
    path_in (of_string a) (of_string b :: parents (of_string b)) = true ∧
    ValueError "sdks/go is a subdirectory of sdks"
    = ValueError (to_str (of_string b) +:+ " is a subdirectory of "
                  +:+ to_str (of_string a)).
Proof.
  apply (refused_roots_are_nested_or_repeated ["sdks/go"; "learning"; "sdks"]).
  reflexivity.
Defined.

(** X3.  The outcome of [_check_no_nested], the message of the exception
    included, does not depend on the order of the list. *)
Theorem check_no_nested_order_independent (subdirs subdirs' : list string) :
  subdirs ≡ₚ subdirs' → _check_no_nested subdirs = _check_no_nested subdirs'.
Proof.
  intros Hperm. unfold _check_no_nested.
  change (map of_string) with (fmap (M := list) of_string).
  rewrite (sorted_permutation (of_string <$> subdirs) (of_string <$> subdirs')); [done| |].
  - apply of_string_all_wf.
  - by rewrite Hperm.
Qed.

Lemma check_no_nested_order_witness :
  _check_no_nested ["sdks/go"; "learning"; "sdks"]
  = _check_no_nested ["learning"; "sdks"; "sdks/go"].
Proof.
  apply check_no_nested_order_independent.
  apply (perm_trans (l' := ["learning"; "sdks/go"; "sdks"])).
  - apply perm_swap.
  - apply perm_skip, perm_swap.
Defined.

(** X4.  A separator written after a root that has a name component
    changes nothing: the list with the separators added has the outcome of
    the list without them. *)
Theorem check_no_nested_ignores_trailing_separator (subdirs : list string) :
  Forall (λ s, names (of_string s) ≠ []) subdirs →
  _check_no_nested ((λ s, s +:+ "/") <$> subdirs) = _check_no_nested subdirs.
Proof.
  intros Hall. unfold _check_no_nested.
  replace (map of_string ((λ s, s +:+ "/") <$> subdirs)) with (map of_string subdirs); [done|].
  induction Hall as [|s l Hs _ IH]; [done|].
  cbn [fmap list_fmap map]. by rewrite of_string_trailing_sep, IH.
Qed.

Lemma check_no_nested_trailing_separator_witness :
  _check_no_nested ["sdks/"; "learning/katas/"] = _check_no_nested ["sdks"; "learning/katas"].
Proof.
  apply (check_no_nested_ignores_trailing_separator ["sdks"; "learning/katas"]).
  repeat constructor; vm_compute; discriminate.
Defined.
(** ** More on [_validate]: what is logged when a required field fails *)

Section validate_log_facts.

Variable tag : dict.

Lemma check_fields_invalid fs l0 :
  foldl (check_field tag) (false, l0) fs
  = (false, l0 ++ (LogMissingField <$> filter (λ g, tag !! g = None) fs)).
Proof.
  revert l0. induction fs as [|f fs IH]; intros l0; cbn [foldl].
  { by rewrite app_nil_r. }
  rewrite filter_cons. unfold check_field at 2.
  destruct (decide (tag !! f = None)); rewrite IH; [|done].
  by rewrite <- app_assoc.
Qed.

Lemma check_fields_valid fs :
  Forall (field_ok tag) fs → foldl (check_field tag) (true, []) fs = (true, []).
Proof.
  intros Hok. destruct (check_fields_spec tag fs true []) as (l' & -> & _ & _ & Hnil).
  by rewrite (Hnil Hok), bool_decide_eq_true_2.
Qed.

(** The record for the first required field that is not in order. *)
Definition first_error (f : string) : log_record :=
  if decide (tag !! f = None) then LogMissingField f else LogEmptyField f.

Lemma check_field_first_error f :
  ¬ field_ok tag f → check_field tag (true, []) f = (false, [first_error f]).
Proof.
  unfold field_ok, check_field, first_error. intros Hno.
  destruct (decide (tag !! f = None)) as [Hf|Hf]; [done|].
  destruct (_ && negb _) eqn:E; [done|]. destruct Hno. by split.
Qed.

Lemma first_bad_field fs :
  ¬ Forall (field_ok tag) fs →
  ∃ pre g post, fs = pre ++ g :: post ∧ Forall (field_ok tag) pre ∧ ¬ field_ok tag g.
Proof.
  induction fs as [|f fs IH]; intros Hno; [by destruct Hno|].
  destruct (decide (field_ok tag f)) as [Hf|Hf].
  - destruct IH as (pre & g & post & -> & Hpre & Hg).
    { intros Hfs. apply Hno. by constructor. }
    exists (f :: pre), g, post. split_and!; [done| |done]. by constructor.
  - by exists [], f, fs.
Qed.

Lemma validate_required_log pre f post cats :
  Forall (field_ok tag) pre → ¬ field_ok tag f →
  _validate (pre ++ f :: post) tag cats
  = (false, first_error f :: (LogMissingField <$> filter (λ g, tag !! g = None) post)).
Proof.
  intros Hpre Hf. unfold _validate.
  rewrite foldl_app, (check_fields_valid pre Hpre). cbn [foldl].
  rewrite (check_field_first_error f Hf), check_fields_invalid. done.
Qed.

End validate_log_facts.

(** X5.  When a required field is missing or empty, [_validate] answers
    [False] and logs: one record for the first such field in the order
    the fields are met, then one record for each later field that is
    missing.  A later field that is present but empty is not reported, and
    neither is any format rule. *)
Theorem validate_log_of_required_fields (pre : list string) (f : string)
    (post : list string) (tag : dict) (cats : list string) :
  Forall (field_ok tag) pre → ¬ field_ok tag f →
  _validate (pre ++ f :: post) tag cats
  = (false, first_error tag f :: (LogMissingField <$> filter (λ g, tag !! g = None) post)).
Proof. apply validate_required_log. Qed.

(** A tag whose description and multifile are empty and whose tags are
    missing: the empty description is met first. *)
Definition tag_empty_fields : dict :=
  tag_of [("name", YStr "Foo"); ("description", YStr "");
          ("complexity", YStr "MEDIUM"); ("categories", YList [YStr "Unknown"]);
          ("multifile", YNull); ("default_example", YBool false);
          ("context_line", YInt 3); ("pipeline_options", YStr "")].

Lemma validate_log_of_required_fields_witness :
  _validate TagFields.required tag_empty_fields ["Quickstart"]
  = (false, [LogEmptyField "description"; LogMissingField "tags"]).
Proof.
  apply (validate_log_of_required_fields ["name"; "complexity"] "description"
           ["multifile"; "categories"; "pipeline_options"; "default_example";
            "context_line"; "tags"] tag_empty_fields ["Quickstart"]).
  - repeat constructor; vm_compute; congruence.
  - intros [_ H]. vm_compute in H. discriminate.
Defined.

(** ** More on [get_tag] *)

Lemma concat_app (a b : list string) : Str.concat (a ++ b) = Str.concat a +:+ Str.concat b.
Proof.
  induction a as [|x a IH]; [done|]. cbn [app]. by rewrite !concat_cons, IH, str_app_assoc.
Qed.

(** [readlines] cuts the text and loses nothing. *)
Lemma lines_go_concat cur s : Str.concat (lines_go cur s) = cur +:+ s.
Proof.
  revert cur. induction s as [|c s IH]; intros cur; cbn [lines_go].
  - destruct (String.eqb_spec cur "") as [->|_]; [done|].
    by rewrite concat_cons.
  - destruct (Ascii.eqb_spec c "010") as [->|_].
    + rewrite concat_cons, IH. by rewrite str_app_assoc.
    + rewrite IH. by rewrite str_app_assoc.
Qed.

Lemma readlines_concat s : Str.concat (readlines s) = s.
Proof. apply lines_go_concat. Qed.

Section get_tag_more.

Variable yaml_load : string → result yaml_value.
Variable BEAM_PLAYGROUND_TITLE : string.
Variable BEAM_PLAYGROUND : string.

Local Abbreviation is_marker l := (Str.lstrip (format_line l) = BEAM_PLAYGROUND_TITLE).

Lemma first_marker (lines : list string) :
  Forall (λ l, ¬ is_marker l) lines ∨
  ∃ pre line rest, lines = pre ++ line :: rest ∧
    Forall (λ l, ¬ is_marker l) pre ∧ is_marker line.
Proof.
  induction lines as [|l lines IH]; [by left|].
  destruct (decide (is_marker l)) as [Hl|Hl].
  { right. by exists [], l, lines. }
  destruct IH as [IH|(pre & line & rest & -> & Hpre & Hline)].
  - left. by constructor.
  - right. exists (l :: pre), line, rest. split_and!; [done| |done]. by constructor.
Qed.

(** X6.  A file none of whose lines is the marker line has no tag:
    [get_tag] answers [None], whatever the parser, having opened the file
    once and logged nothing. *)
Theorem get_tag_without_marker (filepath text : string) (w : world) :
  files w !! filepath = Some text →
  Forall (λ l, ¬ is_marker l) (readlines (universal_newlines text)) →
  get_tag yaml_load BEAM_PLAYGROUND_TITLE BEAM_PLAYGROUND filepath w
  = (Ok None, mkWorld (files w) (environ w) (opened w ++ [filepath]) (log w)).
Proof.
  intros Hfile Hno. unfold get_tag, mbind, M_bind, open_read. rewrite Hfile.
  unfold lift, get_tag_lines. by rewrite loop_no_marker.
Qed.

(** X7.  Whenever [get_tag] returns a tag, whatever the value under
    the top-level key is, mapping or not: the raw text of the tag is a run
    of whole lines of the file, from the first marker line on, so that the
    text [_get_example] reads from the same file holds it verbatim; and
    the value of the tag is what the loader finds under the top-level key
    of the marker line followed by the formatted lines of that run. *)
Theorem tag_text_is_a_run_of_lines (filepath : string) (w w' : world)
    (t : ExampleTagOf yaml_value) :
  get_tag yaml_load BEAM_PLAYGROUND_TITLE BEAM_PLAYGROUND filepath w = (Ok (Some t), w') →
  ∃ text before line kept after,
    files w !! filepath = Some text ∧
    readlines (universal_newlines text) = before ++ (line :: kept) ++ after ∧
    Forall (λ l, ¬ is_marker l) before ∧ is_marker line ∧
    tag_as_string t = Str.concat (line :: kept) ∧
    universal_newlines text
    = Str.concat before +:+ tag_as_string t +:+ Str.concat after ∧
    ∃ tag_object,
      yaml_load (BEAM_PLAYGROUND_TITLE +:+ Str.concat (format_line <$> kept))
      = Ok tag_object ∧
      subscript tag_object BEAM_PLAYGROUND = Ok (tag_as_dict t).
Proof.
  unfold get_tag. intros (text & w1 & Hopen & [Hlines ->]%lift_Ok_inv)%bind_Ok_inv.
  unfold open_read in Hopen. destruct (files w !! filepath) as [raw|] eqn:Hfile; [|done].
  simplify_eq. exists raw.
  set (text := universal_newlines raw) in *.
  destruct (first_marker (readlines text)) as [Hno|(pre & line & rest & Hsplit & Hpre & Hline)].
  { unfold get_tag_lines in Hlines. by rewrite loop_no_marker in Hlines. }
  unfold get_tag_lines in Hlines. rewrite Hsplit in Hlines.
  rewrite (loop_not_started _ _ _ _ _ Hpre Hline) in Hlines.
  destruct (get_tag_loop _ _ rest true _ _) as [[[a y] ts]|e] eqn:Hloop; [|done].
  apply loop_accumulating_Ok in Hloop as (k & Hk & -> & -> & -> & _).
  cbn [mbind result_bind] in Hlines.
  destruct (yaml_load _) as [v|] eqn:Hv; [|done]. cbn [mbind result_bind] in Hlines.
  destruct (subscript v BEAM_PLAYGROUND) as [tg|] eqn:Htg; [|done].
  cbn [mbind result_bind] in Hlines. simplify_eq. cbn [tag_as_string tag_as_dict].
  exists pre, line, (take k rest), (drop k rest). split_and!; try done.
  - cbn [app]. by rewrite take_drop.
  - rewrite <- (readlines_concat text) at 1. rewrite Hsplit.
    rewrite concat_app, concat_cons. f_equal. rewrite str_app_assoc. f_equal.
    by rewrite <- concat_app, take_drop.
  - by exists v.
Qed.

(** *** The formatted line *)

Lemma replace_char_gone c new s :
  has_char c new = false → has_char c (Str.replace (String c "") new s) = false.
Proof.
  intros Hnew. unfold Str.replace. induction s as [|d s IH]; [done|].
  cbn [Str.replace_go String.length Nat.sub]. rewrite prefix_char.
  case_bool_decide as Hd.
  - by rewrite has_char_app, Hnew, IH.
  - cbn [has_char]. destruct (decide (d = c)); [congruence|done].
Qed.

Lemma replace_char_keeps_absent c d new s :
  has_char c new = false → has_char c s = false →
  has_char c (Str.replace (String d "") new s) = false.
Proof.
  intros Hnew. unfold Str.replace. induction s as [|x s IH]; [done|].
  cbn [Str.replace_go String.length Nat.sub has_char]. rewrite prefix_char.
  destruct (decide (x = c)); [done|]. intros Hs. case_bool_decide.
  - by rewrite has_char_app, Hnew, IH.
  - cbn [has_char]. destruct (decide (x = c)); [done|]. by apply IH.
Qed.

(** X8.  No formatted line holds a hash or a tab: the text the parser
    sees has neither YAML comments nor tab indentation, whatever the file
    holds. *)
Theorem format_line_has_no_hash_nor_tab (line : string) :
  has_char "#" (format_line line) = false ∧ has_char "009" (format_line line) = false.
Proof.
  unfold format_line. split.
  - apply (replace_char_keeps_absent "#" "009"); [done|]. by apply (replace_char_gone "#").
  - by apply (replace_char_gone "009").
Qed.

End get_tag_more.

Lemma tag_text_is_a_run_of_lines_witness :
  ∃ text before line kept after,
    files (one_file "examples/foo.py" foo_py) !! "examples/foo.py" = Some text ∧
    readlines (universal_newlines text) = before ++ (line :: kept) ++ after ∧
    Forall (λ l, ¬ Str.lstrip (format_line l) = Config.BEAM_PLAYGROUND_TITLE) before ∧
    Str.lstrip (format_line line) = Config.BEAM_PLAYGROUND_TITLE ∧
    tag_as_string tag_foo_py = Str.concat (line :: kept) ∧
    universal_newlines text
    = Str.concat before +:+ tag_as_string tag_foo_py +:+ Str.concat after ∧
    ∃ tag_object,
      MiniYaml.load (Config.BEAM_PLAYGROUND_TITLE +:+ Str.concat (format_line <$> kept))
      = Ok tag_object ∧
      subscript tag_object Config.BEAM_PLAYGROUND = Ok (YMap tag_entries_foo).
Proof.
  apply (tag_text_is_a_run_of_lines MiniYaml.load Config.BEAM_PLAYGROUND_TITLE
           Config.BEAM_PLAYGROUND "examples/foo.py" (one_file "examples/foo.py" foo_py)
           (mkWorld {["examples/foo.py" := foo_py]} ∅ ["examples/foo.py"] [])
           (mkExampleTag (YMap tag_entries_foo) (Str.concat tag_lines_foo))).
  vm_compute. reflexivity.
Defined.


Lemma get_tag_without_marker_witness :
  get_tag MiniYaml.load Config.BEAM_PLAYGROUND_TITLE Config.BEAM_PLAYGROUND
    "examples/plain.py" (one_file "examples/plain.py" (ln "# no tag here" +:+ "print(1)"))
  = (Ok None,
     mkWorld {["examples/plain.py" := ln "# no tag here" +:+ "print(1)"]} ∅
       ["examples/plain.py"] []).
Proof.
  apply (get_tag_without_marker MiniYaml.load Config.BEAM_PLAYGROUND_TITLE
           Config.BEAM_PLAYGROUND "examples/plain.py" (ln "# no tag here" +:+ "print(1)")
           (one_file "examples/plain.py" (ln "# no tag here" +:+ "print(1)"))).
  - reflexivity.
  - repeat constructor; vm_compute; discriminate.
Defined.
(** ** More on the example builder *)

(** What [validate_example_fields] asks of a record. *)
Definition example_fields_ok (e : Example) : Prop :=
  filepath e ≠ "" ∧ name e ≠ YStr "" ∧ sdk e ≠ SDK_UNSPECIFIED ∧ code e ≠ "" ∧
  url_vcs e ≠ "" ∧ complexity e ≠ YStr "" ∧
  (datasets e = [] ↔ emulators e = []) ∧
  Forall (λ d, dataset_location d = "local" ∧
               (dataset_format d = "json" ∨ dataset_format d = "avro")) (datasets e) ∧
  Forall (λ m, emulator_name m = "kafka" ∧
               ∃ d, d ∈ datasets e ∧ dataset_name d = topic_dataset (emulator_topic m))
    (emulators e).

(** The world after one more [logging.error]. *)
Definition logged (r : log_record) (w : world) : world :=
  mkWorld (files w) (environ w) (opened w) (log w ++ [r]).

Lemma check_then c msg (k : M unit) w :
  (check c msg ;; k) w
  = if c then (Raise (ValidationException msg), logged (LogValidationError msg) w) else k w.
Proof. by destruct c. Qed.

Lemma check_last c msg w :
  check c msg w
  = if c then (Raise (ValidationException msg), logged (LogValidationError msg) w)
    else (Ok tt, w).
Proof. by destruct c. Qed.

Lemma yaml_eq_str_false v s : yaml_eq_str v s = false ↔ v ≠ YStr s.
Proof.
  destruct v; simpl; try (split; [intros _ [=]|done]).
  rewrite String.eqb_neq. split; [intros ? [=]; done|intros H ->; done].
Qed.

Lemma dataset_valid_spec d :
  dataset_valid d = true ↔
  dataset_location d = "local" ∧ (dataset_format d = "json" ∨ dataset_format d = "avro").
Proof.
  unfold dataset_valid. rewrite andb_true_iff, !bool_decide_eq_true.
  rewrite !elem_of_cons, elem_of_nil. tauto.
Qed.

Lemma emulator_valid_spec ds m :
  emulator_valid (dataset_name <$> ds) m = true ↔
  emulator_name m = "kafka" ∧
  ∃ d, d ∈ ds ∧ dataset_name d = topic_dataset (emulator_topic m).
Proof.
  unfold emulator_valid. rewrite andb_true_iff, !bool_decide_eq_true.
  rewrite list_elem_of_fmap. split; intros [? (d & ? & ?)]; split; try done; by exists d.
Qed.

Lemma forallb_Forall {A} (p : A → bool) (P : A → Prop) l :
  (∀ x, p x = true ↔ P x) → forallb p l = true ↔ Forall P l.
Proof.
  intros Hp. rewrite forallb_forall, Forall_forall.
  split; intros H x Hx; apply Hp, H; by apply list_elem_of_In.
Qed.

Lemma validate_example_fields_cases e w :
  (example_fields_ok e ∧ validate_example_fields e w = (Ok tt, w)) ∨
  (¬ example_fields_ok e ∧
   ∃ msg, validate_example_fields e w
          = (Raise (ValidationException msg), logged (LogValidationError msg) w)).
Proof.
  unfold validate_example_fields, example_fields_ok. rewrite !check_then, check_last.
  destruct (String.eqb_spec (filepath e) "") as [E1|E1]; [right; split; [tauto|by eexists]|].
  destruct (yaml_eq_str (name e) "") eqn:E2.
  { right. split; [|by eexists]. intros (_ & H & _).
    apply yaml_eq_str_false in H. congruence. }
  apply yaml_eq_str_false in E2.
  case_bool_decide as E3; [right; split; [tauto|by eexists]|].
  destruct (String.eqb_spec (code e) "") as [E4|E4]; [right; split; [tauto|by eexists]|].
  destruct (String.eqb_spec (url_vcs e) "") as [E5|E5]; [right; split; [tauto|by eexists]|].
  destruct (yaml_eq_str (complexity e) "") eqn:E6.
  { right. split; [|by eexists].
    intros (_ & _ & _ & _ & _ & H & _).
    apply yaml_eq_str_false in H. congruence. }
  apply yaml_eq_str_false in E6.
  destruct (bool_decide (datasets e ≠ []) && bool_decide (emulators e = [])) eqn:E7.
  { right. split; [|by eexists]. apply andb_true_iff in E7 as [H1 H2].
    apply bool_decide_eq_true in H1, H2. tauto. }
  destruct (bool_decide (emulators e ≠ []) && bool_decide (datasets e = [])) eqn:E8.
  { right. split; [|by eexists]. apply andb_true_iff in E8 as [H1 H2].
    apply bool_decide_eq_true in H1, H2. tauto. }
  assert (datasets e = [] ↔ emulators e = []) as E78.
  { apply andb_false_iff in E7, E8. rewrite !bool_decide_eq_false in E7, E8.
    destruct (decide (datasets e = [])), (decide (emulators e = [])); tauto. }
  destruct (forallb dataset_valid (datasets e)) eqn:E9; simpl.
  2:{ right. split; [|by eexists]. intros (_ & _ & _ & _ & _ & _ & _ & H & _).
      apply (forallb_Forall dataset_valid) in H; [congruence|apply dataset_valid_spec]. }
  apply (forallb_Forall _ _ _ dataset_valid_spec) in E9.
  destruct (forallb _ (emulators e)) eqn:E10; simpl.
  2:{ right. split; [|by eexists]. intros (_ & _ & _ & _ & _ & _ & _ & _ & H).
      apply (forallb_Forall (emulator_valid (dataset_name <$> datasets e))) in H;
        [congruence|apply emulator_valid_spec]. }
  apply (forallb_Forall _ _ _ (emulator_valid_spec (datasets e))) in E10.
  left. tauto.
Qed.

(** X9.  [validate_example_fields] returns, and leaves the world as it
    was, exactly for the records that have a path, a name, an SDK, code, a
    URL and a complexity, datasets if and only if emulators, every dataset
    local and in JSON or Avro, and every emulator a Kafka one whose topic
    names one of the datasets.  For every other record it raises a
    validation exception, after logging the message of that exception as
    one error record. *)
Theorem validate_example_fields_accepts_or_logs (e : Example) (w : world) :
  (example_fields_ok e ∧ validate_example_fields e w = (Ok tt, w)) ∨
  (¬ example_fields_ok e ∧
   ∃ msg, validate_example_fields e w
          = (Raise (ValidationException msg),
             mkWorld (files w) (environ w) (opened w) (log w ++ [LogValidationError msg]))).
Proof. apply validate_example_fields_cases. Qed.

Lemma validate_example_fields_Ok e w u w' :
  validate_example_fields e w = (Ok u, w') → example_fields_ok e ∧ w' = w.
Proof.
  destruct (validate_example_fields_cases e w) as [[Hok ->]|[_ [msg ->]]]; [|done].
  by intros [= _ <-].
Qed.

Section get_example_more.

Variable yaml_load : string → result yaml_value.
Variable required_tag_fields : list string.
Variable BEAM_PLAYGROUND_TITLE : string.
Variable BEAM_PLAYGROUND : string.
Variable EXTENSION_TO_SDK : gmap string Sdk.
Variable SDK_TO_EXTENSION : Sdk → option string.
Variable URL_VCS_PREFIX : string.
Variable test_ends : list string.
Variable katas : string.
Variable examples_dir : string.
Variable os_path_relpath : string → string → result string.
Variable float_sub : string → Z → string.
Variable Dataset_from_dict : yaml_value → result Dataset.
Variable Emulator_from_dict : yaml_value → result Emulator.

Local Abbreviation get_example_here :=
  (_get_example EXTENSION_TO_SDK URL_VCS_PREFIX test_ends katas examples_dir
     os_path_relpath float_sub Dataset_from_dict Emulator_from_dict).
Local Abbreviation check_file_here :=
  (_check_file yaml_load required_tag_fields BEAM_PLAYGROUND_TITLE BEAM_PLAYGROUND
     EXTENSION_TO_SDK SDK_TO_EXTENSION URL_VCS_PREFIX test_ends katas examples_dir
     os_path_relpath float_sub Dataset_from_dict Emulator_from_dict).

(** A record as it leaves [_get_example]: what it takes from the tag, the
    file name and the text of the file, and the fields that are still
    blank. *)
Definition built_from (path file_name : string) (t : ExampleTag) (text : string)
    (ex : Example) : Prop :=
  tag_as_dict t !! TagFields.name = Some (name ex) ∧
  tag_as_dict t !! TagFields.complexity = Some (complexity ex) ∧
  url_notebook ex = dict_get (tag_as_dict t) TagFields.url_notebook ∧
  EXTENSION_TO_SDK !! Str.split_last "." file_name = Some (sdk ex) ∧
  filepath ex = path ∧
  code ex = Str.replace (tag_as_string t) "" (universal_newlines text) ∧
  type ex = _get_object_type test_ends katas examples_dir file_name path ∧
  status ex = STATUS_UNSPECIFIED ∧ pipeline_id ex = "" ∧ logs ex = "" ∧
  output ex = "" ∧ compile_output ex = "" ∧ graph ex = "".

Lemma get_url_vcs_world path w u w' :
  _get_url_vcs URL_VCS_PREFIX os_path_relpath path w = (Ok u, w') → w' = w.
Proof.
  unfold _get_url_vcs. intros (r & w1 & Henv & H)%bind_Ok_inv.
  unfold getenv in Henv. simplify_eq.
  apply bind_Ok_inv in H as (rel & w2 & [_ ->]%lift_Ok_inv & H).
  by apply ret_Ok_inv in H as [_ ->].
Qed.

Lemma optional_list_world {A} (c : bool) (r : result A) (f : A → Example) (e ex : Example)
    w w' :
  (if c then (x ← lift r; mret (f x)) else mret e) w = (Ok ex, w') →
  w' = w ∧ (ex = e ∨ ∃ x, ex = f x).
Proof.
  destruct c.
  - intros (x & w1 & [_ ->]%lift_Ok_inv & [-> ->]%ret_Ok_inv)%bind_Ok_inv. eauto.
  - intros [-> ->]%ret_Ok_inv. eauto.
Qed.

Lemma get_example_post path file_name t w ex w' :
  get_example_here path file_name t w = (Ok ex, w') →
  ∃ text, files w !! path = Some text ∧
    built_from path file_name t text ex ∧ example_fields_ok ex ∧
    w' = mkWorld (files w) (environ w) (opened w ++ [path]) (log w).
Proof.
  unfold _get_example. intros H.
  apply bind_Ok_inv in H as (nm & w1 & [Hname ->]%lift_Ok_inv & H).
  apply bind_Ok_inv in H as (cx & w1 & [Hcx ->]%lift_Ok_inv & H).
  apply bind_Ok_inv in H as (sd & w1 & [Hsdk ->]%lift_Ok_inv & H).
  apply bind_Ok_inv in H as (content & w1 & Hopen & H).
  unfold open_read in Hopen. destruct (files w !! path) as [text|] eqn:Hfile; [|done].
  simplify_eq. exists text. split; [done|].
  apply bind_Ok_inv in H as (declared & w1 & [_ ->]%lift_Ok_inv & H).
  apply bind_Ok_inv in H as (cl & w1 & [_ ->]%lift_Ok_inv & H).
  apply bind_Ok_inv in H as (tt & w1 & [_ ->]%lift_Ok_inv & H).
  apply bind_Ok_inv in H as (url & w1 & ->%get_url_vcs_world & H).
  apply bind_Ok_inv in H as (ex1 & w1 & [-> Hex1]%optional_list_world & H).
  apply bind_Ok_inv in H as (ex2 & w1 & [-> Hex2]%optional_list_world & H).
  apply bind_Ok_inv in H as (u & w1 & [Hok ->]%validate_example_fields_Ok & H).
  apply ret_Ok_inv in H as [-> ->]. split_and!; [|done|done].
  unfold dict_item in Hname, Hcx.
  destruct (tag_as_dict t !! TagFields.name) as [nm'|] eqn:En; [|done].
  destruct (tag_as_dict t !! TagFields.complexity) as [cx'|] eqn:Ec; [|done].
  destruct (EXTENSION_TO_SDK !! Str.split_last "." file_name) as [sd'|] eqn:Es; [|done].
  simplify_eq.
  destruct Hex2 as [->|[es ->]], Hex1 as [->|[ds ->]]; by repeat split.
Qed.

(** X10.  A record that [_get_example] returns takes its name and
    complexity from the tag, its SDK from the extension of the file name,
    its code from the text of the file with the tag text taken out; its
    status is unspecified and its pipeline id, logs, output, compile output
    and graph are empty; it passes [validate_example_fields]; and the call
    has opened the file once and logged nothing. *)
Theorem get_example_builds_a_fresh_valid_record (path file_name : string)
    (t : ExampleTag) (w w' : world) (ex : Example) :
  get_example_here path file_name t w = (Ok ex, w') →
  ∃ text, files w !! path = Some text ∧
    built_from path file_name t text ex ∧ example_fields_ok ex ∧
    w' = mkWorld (files w) (environ w) (opened w ++ [path]) (log w).
Proof. apply get_example_post. Qed.

(** The validator logs something exactly when it answers [False]. *)
Lemma validate_log_nonempty tag cats valid errors :
  _validate required_tag_fields tag cats = (valid, errors) →
  (valid = true ∧ errors = []) ∨ (valid = false ∧ errors ≠ []).
Proof.
  destruct (decide (Forall (field_ok tag) required_tag_fields)) as [Hok|Hno].
  - rewrite (validate_format required_tag_fields tag cats Hok). intros [= <- <-].
    case_bool_decide as E; [left|right]; by rewrite ?E.
  - apply first_bad_field in Hno as (pre & g & post & -> & Hp & Hg).
    rewrite (validate_required_log tag pre g post cats Hp Hg). intros [= <- <-].
    by right.
Qed.

(** [field not in tag] holds, on a tag where [in] works. *)
Definition absent (tag : yaml_value) (field : string) : bool :=
  match contains_field tag field with
  | Ok present => negb present
  | Raise _ => false
  end.

Lemma check_fields_other_invalid tag fields logs :
  (∃ s, tag = YStr s) ∨ (∃ items, tag = YList items) →
  check_fields_other tag fields false logs
  = (Ok false, logs ++ (LogMissingField <$> List.filter (absent tag) fields)).
Proof.
  intros Htag. revert logs. induction fields as [|f fields IH]; intros logs.
  { by rewrite app_nil_r. }
  cbn [check_fields_other List.filter]. unfold absent at 1.
  destruct Htag as [[s ->]|[items ->]]; cbn [contains_field].
  - destruct (Str.contains f s); cbn [negb]; rewrite IH; [done|].
    by rewrite <- app_assoc.
  - destruct (existsb _ items); cbn [negb]; rewrite IH; [done|].
    by rewrite <- app_assoc.
Qed.

(** [_validate] on a tag that is no mapping never answers [True].  On a
    string or a list whose first required field is missing it answers
    [False], with one record for each missing field; in every other case
    it raises, having logged nothing. *)
Lemma validate_value_other tag cats :
  (∀ entries, tag ≠ YMap entries) →
  _validate_value required_tag_fields tag cats
  = match required_tag_fields with
    | [] => (Raise (AttributeError "object has no attribute 'get'"), [])
    | f :: rest =>
        match contains_field tag f with
        | Ok false =>
            (Ok false,
             LogMissingField f :: (LogMissingField <$> List.filter (absent tag) rest))
        | Ok true => (Raise (AttributeError "object has no attribute 'get'"), [])
        | Raise e => (Raise e, [])
        end
    end.
Proof.
  intros Hno. unfold _validate_value.
  destruct required_tag_fields as [|f rest].
  { destruct tag; try done. by destruct (Hno entries). }
  destruct tag as [| | | |s|items|entries]; try done.
  - cbn [check_fields_other contains_field]. destruct (Str.contains f s); cbn [negb]; [done|].
    by rewrite check_fields_other_invalid by eauto.
  - cbn [check_fields_other contains_field]. destruct (existsb _ items); cbn [negb]; [done|].
    by rewrite check_fields_other_invalid by eauto.
  - by destruct (Hno entries).
Qed.

Lemma get_tag_world path w r w' :
  get_tag yaml_load BEAM_PLAYGROUND_TITLE BEAM_PLAYGROUND path w = (Ok r, w') →
  w' = mkWorld (files w) (environ w) (opened w ++ [path]) (log w).
Proof.
  unfold get_tag. intros (text & w1 & Hopen & [_ ->]%lift_Ok_inv)%bind_Ok_inv.
  unfold open_read in Hopen. by destruct (files w !! path); simplify_eq.
Qed.

(** A path that [_check_file] looks into: not the helper itself, and with
    the extension of the SDK. *)
Definition candidate (sdk : Sdk) (path : string) : Prop :=
  Str.endswith "infrastructure/helper.py" path = false ∧
  SDK_TO_EXTENSION sdk = Some (Str.split_last "." path).

(** The five ways [_check_file] returns. *)
Definition check_file_cases (examples : list Example) (path : string)
    (cats : list string) (sdk : Sdk) (w : world)
    (has_error : bool) (exs : list Example) (w' : world) : Prop :=
  (¬ candidate sdk path ∧ has_error = false ∧ exs = examples ∧ w' = w) ∨
  (candidate sdk path ∧
   get_tag yaml_load BEAM_PLAYGROUND_TITLE BEAM_PLAYGROUND path w = (Ok None, w') ∧
   has_error = false ∧ exs = examples) ∨
  (candidate sdk path ∧
   ∃ t entries errors,
     get_tag yaml_load BEAM_PLAYGROUND_TITLE BEAM_PLAYGROUND path w
     = (Ok (Some t), mkWorld (files w) (environ w) (opened w ++ [path]) (log w)) ∧
     tag_as_dict t = YMap entries ∧
     _validate required_tag_fields (dict_of_entries entries) cats = (false, errors) ∧
     errors ≠ [] ∧
     has_error = true ∧ exs = examples ∧
     w' = mkWorld (files w) (environ w) (opened w ++ [path])
            (log w ++ errors ++ [LogIncorrectFormat path])) ∨
  (candidate sdk path ∧
   ∃ t f rest,
     get_tag yaml_load BEAM_PLAYGROUND_TITLE BEAM_PLAYGROUND path w
     = (Ok (Some t), mkWorld (files w) (environ w) (opened w ++ [path]) (log w)) ∧
     ((∃ s, tag_as_dict t = YStr s) ∨ (∃ items, tag_as_dict t = YList items)) ∧
     required_tag_fields = f :: rest ∧ contains_field (tag_as_dict t) f = Ok false ∧
     has_error = true ∧ exs = examples ∧
     w' = mkWorld (files w) (environ w) (opened w ++ [path])
            (log w ++ LogMissingField f
               :: (LogMissingField <$> List.filter (absent (tag_as_dict t)) rest)
               ++ [LogIncorrectFormat path])) ∨
  (candidate sdk path ∧
   ∃ t entries ex,
     get_tag yaml_load BEAM_PLAYGROUND_TITLE BEAM_PLAYGROUND path w
     = (Ok (Some t), mkWorld (files w) (environ w) (opened w ++ [path]) (log w)) ∧
     tag_as_dict t = YMap entries ∧
     _validate required_tag_fields (dict_of_entries entries) cats = (true, []) ∧
     has_error = false ∧ exs = examples ++ [ex] ∧
     filepath ex = path ∧ status ex = STATUS_UNSPECIFIED ∧ example_fields_ok ex ∧
     w' = mkWorld (files w) (environ w) (opened w ++ [path; path]) (log w)).

Lemma check_file_post examples file_name path cats sdk w has_error exs w' :
  check_file_here examples file_name path cats sdk w = (Ok (has_error, exs), w') →
  check_file_cases examples path cats sdk w has_error exs w'.
Proof.
  unfold _check_file, check_file_cases, candidate.
  destruct (Str.endswith _ path) eqn:Hhelper.
  { intros [[= -> ->] ->]%ret_Ok_inv. left. split_and!; try done. by intros [? _]. }
  intros (ext & w1 & [Hext ->]%lift_Ok_inv & H)%bind_Ok_inv.
  assert (SDK_TO_EXTENSION sdk = Some ext) as Hsdk.
  { destruct (SDK_TO_EXTENSION sdk); by simplify_eq. }
  clear Hext. destruct (String.eqb_spec (Str.split_last "." path) ext) as [Heq|Hne].
  2:{ apply ret_Ok_inv in H as [[= -> ->] ->]. left. split_and!; try done.
      intros [_ ?]. congruence. }
  subst ext. right.
  apply bind_Ok_inv in H as (r & w1 & Htag & H).
  pose proof (get_tag_world _ _ _ _ Htag) as ->.
  destruct r as [t|].
  2:{ apply ret_Ok_inv in H as [[= -> ->] ->]. left. by split_and!. }
  right.
  destruct (_validate_value required_tag_fields (tag_as_dict t) cats)
    as [outcome errors] eqn:Hval.
  apply bind_Ok_inv in H as (u & w1 & Hlog & H). unfold logging_errors in Hlog.
  simpl in Hlog. simplify_eq.
  apply bind_Ok_inv in H as (valid & w1 & [-> ->]%lift_Ok_inv & H).
  destruct (tag_as_dict t) as [| | | |s|items|entries] eqn:Htd.
  1-6: rewrite validate_value_other in Hval by done.
  1-6: destruct required_tag_fields as [|f rest] eqn:Hreq; [done|];
       cbn [contains_field] in Hval.
  1-4: done.
  - destruct (Str.contains f s) eqn:Hf; [done|]. simplify_eq. cbn [negb] in H.
    apply bind_Ok_inv in H as (u' & w1 & Hlog & H). unfold logging_error in Hlog.
    simpl in Hlog. simplify_eq.
    apply ret_Ok_inv in H as [[= -> ->] ->]. simpl.
    right. left. split; [done|]. exists t, f, rest. rewrite Htd. cbn [contains_field].
    rewrite Hf, <- app_assoc. split_and!; eauto.
  - destruct (existsb _ items) eqn:Hf; [done|]. simplify_eq. cbn [negb] in H.
    apply bind_Ok_inv in H as (u' & w1 & Hlog & H). unfold logging_error in Hlog.
    simpl in Hlog. simplify_eq.
    apply ret_Ok_inv in H as [[= -> ->] ->]. simpl.
    right. left. split; [done|]. exists t, f, rest. rewrite Htd. cbn [contains_field].
    rewrite Hf, <- app_assoc. split_and!; eauto.
  - cbn [_validate_value] in Hval.
    destruct (_validate required_tag_fields (dict_of_entries entries) cats)
      as [valid' errors'] eqn:Hv. simplify_eq.
    pose proof (validate_log_nonempty _ _ _ _ Hv) as [[-> ->]|[-> Hne]]; cbn [negb] in H.
    + right. right. split; [done|].
      apply bind_Ok_inv in H as (ex & w1 & Hex & H).
      apply ret_Ok_inv in H as [[= -> ->] ->].
      unfold _get_example_of in Hex. rewrite Htd in Hex.
      apply get_example_post in Hex as (text & Hfile & Hb & Hok & ->). simpl.
      exists t, entries, ex. destruct Hb as (_ & _ & _ & _ & ? & _ & _ & ? & _).
      rewrite app_nil_r, <- app_assoc. by split_and!.
    + left. split; [done|].
      apply bind_Ok_inv in H as (u' & w1 & Hlog & H). unfold logging_error in Hlog.
      simpl in Hlog. simplify_eq.
      apply ret_Ok_inv in H as [[= -> ->] ->]. simpl.
      eexists t, entries, _. rewrite <- app_assoc. by split_and!.
Qed.

(** X11.  [_check_file] returns in one of five ways.  For a path that is
    the helper or has not the extension of the SDK: [False], and nothing
    has happened.  For any other path the file is read for its tag, and:
    with no tag, [False] and nothing else; with a tag that is a mapping
    and that the validator refuses, [True], the list of examples as it was,
    and the log longer by the errors of the validator, at least one, and
    the incorrect-format record of the path; with a tag that is a string or
    a list in which the first required field is not found, [True] again,
    the list as it was, and the log longer by one record for each required
    field that is not found and the incorrect-format record; with a tag
    that is a mapping and that the validator accepts, [False], nothing
    logged, the file read a second time, and the list longer by one record
    for this path, with an unspecified status, that passes
    [validate_example_fields]. *)
Theorem check_file_appends_or_reports (examples : list Example)
    (file_name path : string) (cats : list string) (sdk : Sdk) (w : world)
    (has_error : bool) (exs : list Example) (w' : world) :
  check_file_here examples file_name path cats sdk w = (Ok (has_error, exs), w') →
  check_file_cases examples path cats sdk w has_error exs w'.
Proof. apply check_file_post. Qed.

End get_example_more.

Lemma get_example_builds_a_fresh_valid_record_witness :
  ∃ ex w',
    get_example_ref "examples/foo.py" "foo.py" tag_foo_py_terminated
      (one_file "examples/foo.py" foo_py_terminated) = (Ok ex, w') ∧
    ∃ text, files (one_file "examples/foo.py" foo_py_terminated) !! "examples/foo.py"
            = Some text ∧
      built_from ConfigValues.EXTENSION_TO_SDK ConfigValues.test_ends ConfigValues.katas
        ConfigValues.examples_dir "examples/foo.py" "foo.py" tag_foo_py_terminated text ex ∧
      example_fields_ok ex ∧
      w' = mkWorld (files (one_file "examples/foo.py" foo_py_terminated))
             (environ (one_file "examples/foo.py" foo_py_terminated))
             (opened (one_file "examples/foo.py" foo_py_terminated) ++ ["examples/foo.py"])
             (log (one_file "examples/foo.py" foo_py_terminated)).
Proof.
  eexists _, _. split; [vm_compute; reflexivity|].
  apply (get_example_builds_a_fresh_valid_record
           ConfigValues.EXTENSION_TO_SDK ConfigValues.URL_VCS_PREFIX
           ConfigValues.test_ends ConfigValues.katas ConfigValues.examples_dir
           ConfigValues.relpath_from_root ConfigValues.float_sub
           ConfigValues.no_from_dict ConfigValues.no_from_dict).
  vm_compute. reflexivity.
Defined.

(** A file whose tag lacks its name. *)
Definition bad_py : string :=
  Str.concat [ln "# Beam-playground:"; ln "#   description: An example"; ln "print(2)"].

(** [yaml.load] reads an indented line without a colon under a key as
    the plain scalar of that key.  The reference parser with that one case
    added, for the tag of [note_py]. *)
Definition load_plain_scalar (text : string) : result yaml_value :=
  if String.eqb text (Str.concat [ln "Beam-playground:"; ln "   see the README"])
  then Ok (YMap [("Beam-playground", YStr "see the README")])
  else MiniYaml.load text.

(** A file whose tag is a sentence and no mapping. *)
Definition note_py : string :=
  Str.concat [ln "# Beam-playground:"; ln "#   see the README"; ln "print(3)"].

(** A file whose tag has nothing under the top-level key. *)
Definition empty_tag_py : string :=
  Str.concat [ln "# Beam-playground:"; ln "print(4)"].

(** The tag of [note_py] is returned as any other, and [_check_file]
    reports it: no required field is a piece of the sentence.  The tag of
    [empty_tag_py] is [None], on which [in] raises. *)
Example check_file_on_tags_that_are_no_mapping :
  get_tag load_plain_scalar Config.BEAM_PLAYGROUND_TITLE Config.BEAM_PLAYGROUND
    "examples/note.py" (one_file "examples/note.py" note_py)
  = (Ok (Some (mkExampleTag (YStr "see the README")
                 (Str.concat [ln "# Beam-playground:"; ln "#   see the README"]))),
     mkWorld {["examples/note.py" := note_py]} ∅ ["examples/note.py"] []) ∧
  _check_file load_plain_scalar TagFields.required
    Config.BEAM_PLAYGROUND_TITLE Config.BEAM_PLAYGROUND
    ConfigValues.EXTENSION_TO_SDK ConfigValues.SDK_TO_EXTENSION
    ConfigValues.URL_VCS_PREFIX ConfigValues.test_ends ConfigValues.katas
    ConfigValues.examples_dir ConfigValues.relpath_from_root ConfigValues.float_sub
    ConfigValues.no_from_dict ConfigValues.no_from_dict
    [] "note.py" "examples/note.py" ["Quickstart"] SDK_PYTHON
    (one_file "examples/note.py" note_py)
  = (Ok (true, []),
     mkWorld {["examples/note.py" := note_py]} ∅ ["examples/note.py"]
       ((LogMissingField <$> TagFields.required)
        ++ [LogIncorrectFormat "examples/note.py"])) ∧
  check_file_ref TagFields.required [] "empty.py" "examples/empty.py" ["Quickstart"]
    SDK_PYTHON (one_file "examples/empty.py" empty_tag_py)
  = (Raise (TypeError "argument is not iterable"),
     mkWorld {["examples/empty.py" := empty_tag_py]} ∅ ["examples/empty.py"] []) ∧
  _validate_value ["name"; "tags"] (YStr "my name is Foo") ["Quickstart"]
  = (Raise (AttributeError "object has no attribute 'get'"), []) ∧
  _validate_value ["tags"; "name"] (YList [YStr "name"]) ["Quickstart"]
  = (Ok false, [LogMissingField "tags"]).
Proof. split_and!; vm_compute; reflexivity. Qed.

Lemma check_file_appends_or_reports_witness :
  (∃ exs w',
     check_file_ref TagFields.required [] "foo.py" "examples/foo.py" ["Quickstart"]
       SDK_PYTHON (one_file "examples/foo.py" foo_py_terminated) = (Ok (false, exs), w') ∧
     check_file_cases MiniYaml.load TagFields.required Config.BEAM_PLAYGROUND_TITLE
       Config.BEAM_PLAYGROUND ConfigValues.SDK_TO_EXTENSION
       [] "examples/foo.py" ["Quickstart"] SDK_PYTHON
       (one_file "examples/foo.py" foo_py_terminated) false exs w') ∧
  (∃ exs w',
     check_file_ref TagFields.required [] "bad.py" "examples/bad.py" ["Quickstart"]
       SDK_PYTHON (one_file "examples/bad.py" bad_py) = (Ok (true, exs), w') ∧
     check_file_cases MiniYaml.load TagFields.required Config.BEAM_PLAYGROUND_TITLE
       Config.BEAM_PLAYGROUND ConfigValues.SDK_TO_EXTENSION
       [] "examples/bad.py" ["Quickstart"] SDK_PYTHON
       (one_file "examples/bad.py" bad_py) true exs w') ∧
  (∃ exs w',
     _check_file load_plain_scalar TagFields.required
       Config.BEAM_PLAYGROUND_TITLE Config.BEAM_PLAYGROUND
       ConfigValues.EXTENSION_TO_SDK ConfigValues.SDK_TO_EXTENSION
       ConfigValues.URL_VCS_PREFIX ConfigValues.test_ends ConfigValues.katas
       ConfigValues.examples_dir ConfigValues.relpath_from_root ConfigValues.float_sub
       ConfigValues.no_from_dict ConfigValues.no_from_dict
       [] "note.py" "examples/note.py" ["Quickstart"] SDK_PYTHON
       (one_file "examples/note.py" note_py) = (Ok (true, exs), w') ∧
     check_file_cases load_plain_scalar TagFields.required Config.BEAM_PLAYGROUND_TITLE
       Config.BEAM_PLAYGROUND ConfigValues.SDK_TO_EXTENSION
       [] "examples/note.py" ["Quickstart"] SDK_PYTHON
       (one_file "examples/note.py" note_py) true exs w').
Proof.
  split_and!.
  3:{ eexists _, _. split; [vm_compute; reflexivity|].
      apply (check_file_appends_or_reports load_plain_scalar TagFields.required
               Config.BEAM_PLAYGROUND_TITLE Config.BEAM_PLAYGROUND
               ConfigValues.EXTENSION_TO_SDK ConfigValues.SDK_TO_EXTENSION
               ConfigValues.URL_VCS_PREFIX ConfigValues.test_ends ConfigValues.katas
               ConfigValues.examples_dir ConfigValues.relpath_from_root
               ConfigValues.float_sub ConfigValues.no_from_dict ConfigValues.no_from_dict
               [] "note.py").
      vm_compute. reflexivity. }
  - eexists _, _. split; [vm_compute; reflexivity|].
    apply (check_file_appends_or_reports MiniYaml.load TagFields.required
             Config.BEAM_PLAYGROUND_TITLE Config.BEAM_PLAYGROUND
             ConfigValues.EXTENSION_TO_SDK ConfigValues.SDK_TO_EXTENSION
             ConfigValues.URL_VCS_PREFIX ConfigValues.test_ends ConfigValues.katas
             ConfigValues.examples_dir ConfigValues.relpath_from_root
             ConfigValues.float_sub ConfigValues.no_from_dict ConfigValues.no_from_dict
             [] "foo.py").
    vm_compute. reflexivity.
  - eexists _, _. split; [vm_compute; reflexivity|].
    apply (check_file_appends_or_reports MiniYaml.load TagFields.required
             Config.BEAM_PLAYGROUND_TITLE Config.BEAM_PLAYGROUND
             ConfigValues.EXTENSION_TO_SDK ConfigValues.SDK_TO_EXTENSION
             ConfigValues.URL_VCS_PREFIX ConfigValues.test_ends ConfigValues.katas
             ConfigValues.examples_dir ConfigValues.relpath_from_root
             ConfigValues.float_sub ConfigValues.no_from_dict ConfigValues.no_from_dict
             [] "bad.py").
    vm_compute. reflexivity.
Defined.
(** ** [_get_name] *)

Lemma split_go_first_dot s cur :
  has_char "." cur = false →
  ∃ x l, Str.split_go "." 0 cur s = x :: l ∧ has_char "." x = false ∧
    (cur +:+ s = x ∨ ∃ rest, cur +:+ s = x +:+ "." +:+ rest).
Proof.
  revert cur. induction s as [|c s IH]; intros cur Hcur; cbn [Str.split_go].
  { exists cur, []. rewrite str_app_nil_r. eauto. }
  rewrite prefix_char. case_bool_decide as Hc.
  - subst c. exists cur, (Str.split_go "." (String.length "." - 1) "" s).
    split_and!; [done..|]. right. by exists s.
  - destruct (IH (cur +:+ String c "")) as (x & l & -> & Hx & Hsplit).
    { rewrite has_char_app, Hcur. simpl. destruct (decide (c = "."%char)); congruence. }
    exists x, l. rewrite str_app_assoc in Hsplit. by split_and!.
Qed.

(** X12.  The name [_get_name] returns is the part of the file name
    before its first dot: it holds no dot, and the file name is the name
    itself, or the name, a dot and the rest. *)
Theorem get_name_is_the_part_before_the_first_dot (filename : string) :
  has_char "." (_get_name filename) = false ∧
  (filename = _get_name filename ∨ ∃ rest, filename = _get_name filename +:+ "." +:+ rest).
Proof.
  unfold _get_name, Str.split.
  by destruct (split_go_first_dot filename "" eq_refl) as (x & l & -> & Hx & Hsplit).
Qed.

(** ** [validate_examples_for_duplicates_by_name] *)

(** The name of the record is a string, as the data class declares. *)
Definition str_named (e : Example) : Prop := ∃ s, name e = YStr s.

Section duplicates_facts.

Variable float_eq : string → yaml_value → bool.

(** The dict after the loop has met the records [seen]. *)
Definition items_of (seen : list Example) : list (yaml_value * Example) :=
  (λ e, (name e, e)) <$> seen.

Lemma key_eqb_str e1 e2 :
  str_named e1 → str_named e2 →
  key_eqb float_eq (name e1) (name e2) = true ↔ name e1 = name e2.
Proof.
  intros [s ->] [t ->]. simpl. rewrite String.eqb_eq. split; [by intros ->|by intros [=]].
Qed.

Lemma find_seen seen e :
  Forall str_named seen → str_named e →
  match List.find (λ item, key_eqb float_eq (name e) item.1) (items_of seen) with
  | Some item =>
      ∃ i e1, seen !! i = Some e1 ∧ item = (name e1, e1) ∧ name e1 = name e
  | None => name e ∉ name <$> seen
  end.
Proof.
  intros Hseen He. destruct (List.find _ _) as [item|] eqn:Hfind.
  - apply find_some in Hfind as [Hin Heq]. apply list_elem_of_In in Hin.
    unfold items_of in Hin. apply list_elem_of_fmap in Hin as (e1 & -> & Hin).
    pose proof Hin as [i Hi]%list_elem_of_lookup. exists i, e1. split_and!; [done..|].
    rewrite Forall_forall in Hseen. symmetry. by apply key_eqb_str; [|apply Hseen|].
  - intros (e1 & Hname & Hin)%list_elem_of_fmap.
    pose proof (find_none _ _ Hfind (name e1, e1)) as Hno. simpl in Hno.
    rewrite Forall_forall in Hseen.
    rewrite (proj2 (key_eqb_str e e1 He (Hseen _ Hin))) in Hno; [|done].
    discriminate Hno. apply list_elem_of_In.
    apply (list_elem_of_fmap_2 (λ e, (name e, e)) seen e1 Hin).
Qed.

Lemma duplicates_loop_spec seen rest w :
  Forall str_named seen → Forall str_named rest → NoDup (name <$> seen) →
  (NoDup (name <$> seen ++ rest) ∧ duplicates_loop float_eq (items_of seen) rest w = (Ok tt, w)) ∨
  (∃ i j e1 e2,
     i < j ∧ (seen ++ rest) !! i = Some e1 ∧ (seen ++ rest) !! j = Some e2 ∧
     name e1 = name e2 ∧ NoDup (name <$> take j (seen ++ rest)) ∧
     duplicates_loop float_eq (items_of seen) rest w
     = (Raise (ValidationException (duplicate_names_msg (filepath e1) (filepath e2))),
        mkWorld (files w) (environ w) (opened w)
          (log w ++ [LogValidationError
                       (duplicate_names_msg (filepath e1) (filepath e2))]))).
Proof.
  intros Hseen Hrest. revert seen Hseen.
  induction Hrest as [|e rest He Hrest IH]; intros seen Hseen Hnd.
  { left. by rewrite app_nil_r. }
  cbn [duplicates_loop].
  assert (hashable (name e) = true) as -> by (by destruct He as [s ->]).
  cbn [negb]. pose proof (find_seen seen e Hseen He) as Hfind.
  destruct (List.find _ _) as [item|].
  - destruct Hfind as (i & e1 & Hi & -> & Hname). right.
    exists i, (length seen), e1, e. split_and!.
    + by eapply lookup_lt_Some.
    + by apply lookup_app_l_Some.
    + by rewrite list_lookup_middle.
    + done.
    + by rewrite take_app_length.
    + done.
  - destruct (IH (seen ++ [e])) as [[Hnd' Hrun]|(i & j & e1 & e2 & Hlt & Hi & Hj & Hn & Hnd' & Hrun)].
    + apply Forall_app. by repeat constructor.
    + rewrite fmap_app. apply NoDup_app. split_and!; [done| |by apply NoDup_singleton].
      intros x Hx ->%list_elem_of_singleton. done.
    + left. rewrite <- app_assoc in Hnd'. split; [done|].
      unfold items_of in *. by rewrite fmap_app in Hrun.
    + right. rewrite <- app_assoc in Hi, Hj, Hnd'. exists i, j, e1, e2.
      split_and!; try done. unfold items_of in *. by rewrite fmap_app in Hrun.
Qed.

(** X13.  On records whose names are strings,
    [validate_examples_for_duplicates_by_name] returns, with the world as
    it was, exactly when no two records share a name.  Otherwise it raises
    a validation exception at the first record whose name was met before:
    the message names the path of the earlier record and the path of that
    one, and the same message is logged, once. *)
Theorem duplicate_names_are_reported_at_the_first_repeat (examples : list Example)
    (w : world) :
  Forall str_named examples →
  (NoDup (name <$> examples) ∧
   validate_examples_for_duplicates_by_name float_eq examples w = (Ok tt, w)) ∨
  (∃ i j e1 e2,
     i < j ∧ examples !! i = Some e1 ∧ examples !! j = Some e2 ∧
     name e1 = name e2 ∧ NoDup (name <$> take j examples) ∧
     validate_examples_for_duplicates_by_name float_eq examples w
     = (Raise (ValidationException (duplicate_names_msg (filepath e1) (filepath e2))),
        mkWorld (files w) (environ w) (opened w)
          (log w ++ [LogValidationError
                       (duplicate_names_msg (filepath e1) (filepath e2))]))).
Proof.
  intros Hall. apply (duplicates_loop_spec [] examples w); [constructor|done|constructor].
Qed.

End duplicates_facts.

(** Three records, the third with the name of the first. *)
Definition name_met_twice : list Example := example_named <$> ["a"; "b"; "a"].

Lemma duplicate_names_witness :
  (NoDup (name <$> name_met_twice) ∧
   validate_examples_for_duplicates_by_name (λ _ _, false)
     name_met_twice (mkWorld ∅ ∅ [] []) = (Ok tt, mkWorld ∅ ∅ [] [])) ∨
  (∃ i j e1 e2,
     i < j ∧ name_met_twice !! i = Some e1 ∧
     name_met_twice !! j = Some e2 ∧
     name e1 = name e2 ∧ NoDup (name <$> take j name_met_twice) ∧
     validate_examples_for_duplicates_by_name (λ _ _, false)
       name_met_twice (mkWorld ∅ ∅ [] [])
     = (Raise (ValidationException (duplicate_names_msg (filepath e1) (filepath e2))),
        mkWorld (files (mkWorld ∅ ∅ [] [])) (environ (mkWorld ∅ ∅ [] []))
          (opened (mkWorld ∅ ∅ [] []))
          (log (mkWorld ∅ ∅ [] [])
           ++ [LogValidationError (duplicate_names_msg (filepath e1) (filepath e2))]))).
Proof.
  apply (duplicate_names_are_reported_at_the_first_repeat (λ _ _, false)
           name_met_twice (mkWorld ∅ ∅ [] [])).
  repeat constructor; by eexists.
Defined.

Example duplicate_names_message :
  validate_examples_for_duplicates_by_name (λ _ _, false)
    name_met_twice (mkWorld ∅ ∅ [] [])
  = (Raise (ValidationException
              (Str.concat [ln "Examples have duplicate names."; ln "Duplicates: ";
                           ln " - path #1: examples/a.java "; " - path #2: examples/a.java"])),
     mkWorld ∅ ∅ []
       [LogValidationError
          (Str.concat [ln "Examples have duplicate names."; ln "Duplicates: ";
                       ln " - path #1: examples/a.java "; " - path #2: examples/a.java"])]).
Proof. reflexivity. Qed.

(** ** Discovery *)

Lemma M_bind_unfold {A B} (m : M A) (k : A → M B) w :
  (m ≫= k) w
  = match m w with
    | (Ok a, w') => k a w'
    | (Raise e, w') => (Raise e, w')
    end.
Proof. reflexivity. Qed.

Lemma for_each_app {A S} (body : S → A → M S) l1 l2 s w :
  for_each body s (l1 ++ l2) w = (s' ← for_each body s l1; for_each body s' l2) w.
Proof.
  revert s w. induction l1 as [|x l1 IH]; intros s w; [done|].
  cbn [app for_each]. rewrite !M_bind_unfold. destruct (body s x w) as [[s1|e] w1]; [|done].
  by rewrite IH, M_bind_unfold.
Qed.

Lemma for_each_fmap {A B S} (f : A → B) (body : S → B → M S) l s w :
  for_each body s (f <$> l) w = for_each (λ s x, body s (f x)) s l w.
Proof.
  revert s w. induction l as [|x l IH]; intros s w; [done|].
  cbn [fmap list_fmap for_each]. rewrite !M_bind_unfold.
  destruct (body s (f x) w) as [[s1|e] w1]; [|done]. apply IH.
Qed.

(** Nested loops are one loop over the items in the order they are met. *)
Lemma for_each_bind {A B S} (g : A → list B) (body : S → B → M S) l s w :
  for_each (λ s x, for_each body s (g x)) s l w = for_each body s (l ≫= g) w.
Proof.
  revert s w. induction l as [|x l IH]; intros s w; [done|].
  cbn [for_each]. rewrite bind_cons, for_each_app, !M_bind_unfold.
  destruct (for_each body s (g x) w) as [[s1|e] w1]; [|done]. apply IH.
Qed.

(** A property that each round keeps, stated with the items done so
    far. *)
Lemma for_each_inv {A S} (P : list A → S → world → Prop) (body : S → A → M S)
    l0 l s w s' w' :
  (∀ l1 s x w s' w', P l1 s w → body s x w = (Ok s', w') → P (l1 ++ [x]) s' w') →
  P l0 s w → for_each body s l w = (Ok s', w') → P (l0 ++ l) s' w'.
Proof.
  intros Hstep. revert l0 s w. induction l as [|x l IH]; intros l0 s w HP Hrun.
  { apply ret_Ok_inv in Hrun as [-> ->]. by rewrite app_nil_r. }
  cbn [for_each] in Hrun. apply bind_Ok_inv in Hrun as (s1 & w1 & Hbody & Hrun).
  rewrite (cons_middle x l0 l), app_assoc. eapply IH; [|done]. by eapply Hstep.
Qed.

Section find_examples_facts.

Variable yaml_load : string → result yaml_value.
Variable required_tag_fields : list string.
Variable BEAM_PLAYGROUND_TITLE : string.
Variable BEAM_PLAYGROUND : string.
Variable EXTENSION_TO_SDK : gmap string Sdk.
Variable SDK_TO_EXTENSION : Sdk → option string.
Variable URL_VCS_PREFIX : string.
Variable test_ends : list string.
Variable katas : string.
Variable examples_dir : string.
Variable os_path_relpath : string → string → result string.
Variable float_sub : string → Z → string.
Variable Dataset_from_dict : yaml_value → result Dataset.
Variable Emulator_from_dict : yaml_value → result Emulator.
Variable os_walk : string → list (string * list string).

Local Abbreviation check_file_here :=
  (_check_file yaml_load required_tag_fields BEAM_PLAYGROUND_TITLE BEAM_PLAYGROUND
     EXTENSION_TO_SDK SDK_TO_EXTENSION URL_VCS_PREFIX test_ends katas examples_dir
     os_path_relpath float_sub Dataset_from_dict Emulator_from_dict).
Local Abbreviation find_examples_file_here :=
  (find_examples_file yaml_load required_tag_fields BEAM_PLAYGROUND_TITLE BEAM_PLAYGROUND
     EXTENSION_TO_SDK SDK_TO_EXTENSION URL_VCS_PREFIX test_ends katas examples_dir
     os_path_relpath float_sub Dataset_from_dict Emulator_from_dict).
Local Abbreviation find_examples_scan_here :=
  (find_examples_scan yaml_load required_tag_fields BEAM_PLAYGROUND_TITLE BEAM_PLAYGROUND
     EXTENSION_TO_SDK SDK_TO_EXTENSION URL_VCS_PREFIX test_ends katas examples_dir
     os_path_relpath float_sub Dataset_from_dict Emulator_from_dict os_walk).
Local Abbreviation find_examples_here :=
  (find_examples yaml_load required_tag_fields BEAM_PLAYGROUND_TITLE BEAM_PLAYGROUND
     EXTENSION_TO_SDK SDK_TO_EXTENSION URL_VCS_PREFIX test_ends katas examples_dir
     os_path_relpath float_sub Dataset_from_dict Emulator_from_dict os_walk).

(** The files the three loops meet, in order: the directory and the
    name of each. *)
Definition walked_files (root_dir : string) (subdirs : list string)
  : list (string * string) :=
  subdir ← subdirs;
  '(root, files) ← os_walk (os_path_join root_dir subdir);
  (λ filename, (root, filename)) <$> files.

(** Their paths. *)
Definition walked (root_dir : string) (subdirs : list string) : list string :=
  (λ '(root, filename), os_path_join root filename) <$> walked_files root_dir subdirs.

(** The info line of each root, in order. *)
Definition subdir_lines (root_dir : string) (subdirs : list string) : list log_record :=
  LogInfoSubdir <$> (os_path_join root_dir <$> subdirs).

(** The two loops under a root are one loop over its files. *)
Lemma walk_flat cats sdk (walk : list (string * list string)) st w :
  for_each (λ st '(root, files), for_each (find_examples_file_here cats sdk root) st files)
    st walk w
  = for_each (λ st '(root, filename), find_examples_file_here cats sdk root st filename)
      st (walk ≫= λ '(root, files), (λ filename, (root, filename)) <$> files) w.
Proof.
  revert st w. induction walk as [|[root files] l IHl]; intros st w; [done|].
  cbn [for_each]. rewrite bind_cons, for_each_app, !M_bind_unfold, for_each_fmap.
  destruct (for_each _ st files w) as [[s1|e] w1]; [|done]. apply IHl.
Qed.

(** What holds of a record that discovery returns. *)
Definition discovered (root_dir : string) (subdirs : list string) (sdk : Sdk)
    (ex : Example) : Prop :=
  filepath ex ∈ walked root_dir subdirs ∧
  candidate SDK_TO_EXTENSION sdk (filepath ex) ∧
  status ex = STATUS_UNSPECIFIED ∧ example_fields_ok ex.

Definition is_info (r : log_record) : bool := negb (is_error r).

Lemma errors_no_info l : forallb is_error l = true → List.filter is_info l = [].
Proof.
  induction l as [|r l IH]; [done|]. cbn [forallb List.filter]. unfold is_info at 1.
  intros [-> ?]%andb_true_iff. by apply IH.
Qed.

Lemma errors_exist l : forallb is_error l = true → l ≠ [] → existsb is_error l = true.
Proof. destruct l as [|r l]; [done|]. simpl. by intros [-> _]%andb_true_iff. Qed.

Lemma no_error_all_info l : existsb is_error l = false → List.filter is_info l = l.
Proof.
  induction l as [|r l IH]; [done|]. cbn [existsb List.filter]. unfold is_info at 1.
  intros [-> ?]%orb_false_iff. cbn [negb]. f_equal. by apply IH.
Qed.

Lemma missing_fields_are_errors fs : forallb is_error (LogMissingField <$> fs) = true.
Proof. by induction fs. Qed.

(** Every record of the validator is an error. *)
Lemma validate_logs_errors tag cats valid errors :
  _validate required_tag_fields tag cats = (valid, errors) →
  forallb is_error errors = true.
Proof.
  destruct (decide (Forall (field_ok tag) required_tag_fields)) as [Hok|Hno].
  - rewrite (validate_format required_tag_fields tag cats Hok). intros [= _ <-].
    unfold format_errors, multifile_errors, categories_errors, context_line_errors.
    rewrite !forallb_app. repeat (apply andb_true_iff; split).
    + by case_bool_decide.
    + destruct (dict_get tag TagFields.categories) as [| | | | |items|]; try done.
      by induction (filter _ items).
    + by destruct (isinstance_int _).
  - apply first_bad_field in Hno as (pre & g & post & -> & Hp & Hg).
    rewrite (validate_required_log tag pre g post cats Hp Hg). intros [= _ <-].
    cbn [forallb]. rewrite missing_fields_are_errors, andb_true_r.
    unfold first_error. by destruct (decide _).
Qed.

(** What the scan keeps, with the roots and the files done so far: it
    writes no file and no variable; the log has grown by the info line of
    each root and by error records, and the flag is up exactly when there
    is an error record; every record so far is one of a file done,
    validated; every candidate among the files done has been opened; the
    records come in the order of their files, at most one for each. *)
Record scan_inv (sdk : Sdk) (w : world) (roots : list string)
    (done : list (string * string)) (st : bool * list Example) (w1 : world)
  : Prop := mkScanInv {
  scan_files : files w1 = files w;
  scan_environ : environ w1 = environ w;
  scan_log : ∃ l, log w1 = log w ++ l ∧ existsb is_error l = st.1 ∧
                  List.filter is_info l = LogInfoSubdir <$> roots;
  scan_records :
    Forall (λ ex, (∃ root filename, (root, filename) ∈ done ∧
                     filepath ex = os_path_join root filename) ∧
                  candidate SDK_TO_EXTENSION sdk (filepath ex) ∧
                  status ex = STATUS_UNSPECIFIED ∧ example_fields_ok ex) st.2;
  scan_opened :
    ∀ root filename, (root, filename) ∈ done →
      candidate SDK_TO_EXTENSION sdk (os_path_join root filename) →
      os_path_join root filename ∈ opened w1;
  scan_opened_mono : ∀ p, p ∈ opened w → p ∈ opened w1;
  scan_order :
    filepath <$> st.2
    `sublist_of` ((λ '(root, filename), os_path_join root filename) <$> done)
}.

(** The log after a file that reported: error records, at least one. *)
Lemma scan_log_reported w w1 roots b l new :
  log w1 = log w ++ l → existsb is_error l = b →
  List.filter is_info l = LogInfoSubdir <$> roots →
  forallb is_error new = true → new ≠ [] →
  ∃ l', log w1 ++ new = log w ++ l' ∧ existsb is_error l' = b || true ∧
        List.filter is_info l' = LogInfoSubdir <$> roots.
Proof.
  intros Hlog Hb Hinfo Hnew Hne. exists (l ++ new). split_and!.
  - by rewrite Hlog, <- app_assoc.
  - by rewrite existsb_app, (errors_exist _ Hnew Hne), !orb_true_r.
  - by rewrite List.filter_app, Hinfo, (errors_no_info _ Hnew), app_nil_r.
Qed.

Lemma scan_inv_step cats sdk w roots l1 st root filename w1 st' w' :
  scan_inv sdk w roots l1 st w1 →
  find_examples_file_here cats sdk root st filename w1 = (Ok st', w') →
  scan_inv sdk w roots (l1 ++ [(root, filename)]) st' w'.
Proof.
  intros [Hf He (l & Hlog & Hb & Hinfo) Hr Ho Hm Hsub] Hbody. destruct st as [b exs].
  unfold find_examples_file in Hbody.
  apply bind_Ok_inv in Hbody as ([err exs'] & w2 & Hcheck & Hret).
  apply ret_Ok_inv in Hret as [-> ->].
  apply (check_file_post yaml_load required_tag_fields BEAM_PLAYGROUND_TITLE
           BEAM_PLAYGROUND EXTENSION_TO_SDK SDK_TO_EXTENSION URL_VCS_PREFIX test_ends
           katas examples_dir os_path_relpath float_sub Dataset_from_dict
           Emulator_from_dict) in Hcheck.
  simpl in *.
  assert (∀ ex, (∃ r f, (r, f) ∈ l1 ∧ filepath ex = os_path_join r f) →
                ∃ r f, (r, f) ∈ l1 ++ [(root, filename)] ∧ filepath ex = os_path_join r f)
    as Hweak.
  { intros ex (r & f & Hin & Hp). exists r, f. split; [|done]. apply elem_of_app. by left. }
  assert (Forall (λ ex, (∃ r f, (r, f) ∈ l1 ++ [(root, filename)] ∧
                           filepath ex = os_path_join r f) ∧
                        candidate SDK_TO_EXTENSION sdk (filepath ex) ∧
                        status ex = STATUS_UNSPECIFIED ∧ example_fields_ok ex) exs) as Hr'.
  { eapply Forall_impl; [exact Hr|]. intros ex (? & ? & ? & ?). split_and!; auto. }
  assert (∀ w3, files w3 = files w1 → environ w3 = environ w1 →
            (∀ p, p ∈ opened w1 → p ∈ opened w3) →
            (candidate SDK_TO_EXTENSION sdk (os_path_join root filename) →
             os_path_join root filename ∈ opened w3) →
            (files w3 = files w) ∧ (environ w3 = environ w) ∧
            (∀ r f, (r, f) ∈ l1 ++ [(root, filename)] →
               candidate SDK_TO_EXTENSION sdk (os_path_join r f) →
               os_path_join r f ∈ opened w3) ∧
            (∀ p, p ∈ opened w → p ∈ opened w3)) as Hworld.
  { intros w3 Hf3 He3 Hm3 Hc3. split_and!; [congruence|congruence| |by auto].
    intros r f [Hin|[= -> ->]%list_elem_of_singleton]%elem_of_app Hc; [|by auto].
    apply Hm3. by apply Ho. }
  assert (filepath <$> exs
          `sublist_of` ((λ '(root, filename), os_path_join root filename)
                          <$> l1 ++ [(root, filename)])) as Hsub'.
  { rewrite fmap_app. by apply sublist_inserts_r. }
  assert (∃ l', log w1 = log w ++ l' ∧ existsb is_error l' = b || false ∧
                List.filter is_info l' = LogInfoSubdir <$> roots) as Hquiet.
  { exists l. by rewrite orb_false_r. }
  destruct Hcheck as [(Hnc & -> & -> & ->)
                     |[(Hc & Htag & -> & ->)
                      |[(Hc & t & entries & errors & Htag & Htd & Hval & Hne & -> & -> & ->)
                       |[(Hc & t & f & rest & Htag & Htd & Hreq & Habs & -> & -> & ->)
                        |(Hc & t & entries & ex & Htag & Htd & Hval & -> & -> & Hp & Hs
                          & Hok & ->)]]]].
  - destruct (Hworld w1) as (? & ? & ? & ?); try done.
  - apply get_tag_world in Htag as ->.
    destruct (Hworld (mkWorld (files w1) (environ w1) (opened w1 ++ [os_path_join root filename])
                        (log w1))) as (? & ? & ? & ?); simpl; try done.
    { intros p Hp. apply elem_of_app. by left. }
    { intros _. apply elem_of_app. right. by apply list_elem_of_singleton. }
  - destruct (Hworld (mkWorld (files w1) (environ w1) (opened w1 ++ [os_path_join root filename])
                        (log w1 ++ errors ++ [LogIncorrectFormat (os_path_join root filename)])))
      as (? & ? & ? & ?); simpl; try done.
    { intros p Hp. apply elem_of_app. by left. }
    { intros _. apply elem_of_app. right. by apply list_elem_of_singleton. }
    split; simpl; try done.
    apply (scan_log_reported w w1 roots b l); try done.
    + rewrite forallb_app, (validate_logs_errors _ _ _ _ Hval). done.
    + by destruct errors.
  - destruct (Hworld (mkWorld (files w1) (environ w1) (opened w1 ++ [os_path_join root filename])
                        (log w1 ++ LogMissingField f
                           :: (LogMissingField <$> List.filter (absent (tag_as_dict t)) rest)
                           ++ [LogIncorrectFormat (os_path_join root filename)])))
      as (? & ? & ? & ?); simpl; try done.
    { intros p Hp. apply elem_of_app. by left. }
    { intros _. apply elem_of_app. right. by apply list_elem_of_singleton. }
    split; simpl; try done.
    apply (scan_log_reported w w1 roots b l); try done.
    cbn [forallb is_error]. by rewrite forallb_app, missing_fields_are_errors.
  - destruct (Hworld (mkWorld (files w1) (environ w1)
                        (opened w1 ++ [os_path_join root filename; os_path_join root filename])
                        (log w1))) as (? & ? & ? & ?); simpl; try done.
    { intros p Hp'. apply elem_of_app. by left. }
    { intros _. apply elem_of_app. right. by left. }
    split; simpl; try done.
    + apply Forall_app. split; [done|]. apply Forall_singleton. rewrite Hp.
      split_and!; try done.
      exists root, filename. split; [|done]. apply elem_of_app. right.
      by apply list_elem_of_singleton.
    + rewrite !fmap_app. cbn [fmap list_fmap]. rewrite Hp. by apply sublist_app.
Qed.

(** The info line of a root. *)
Lemma scan_inv_info sdk w roots done st w1 subdir :
  scan_inv sdk w roots done st w1 →
  scan_inv sdk w (roots ++ [subdir]) done st
    (mkWorld (files w1) (environ w1) (opened w1) (log w1 ++ [LogInfoSubdir subdir])).
Proof.
  intros [Hf He (l & Hlog & Hb & Hinfo) Hr Ho Hm Hsub]. split; simpl; try done.
  exists (l ++ [LogInfoSubdir subdir]). split_and!.
  - by rewrite Hlog, <- app_assoc.
  - rewrite existsb_app. simpl. by rewrite !orb_false_r.
  - by rewrite List.filter_app, Hinfo, fmap_app.
Qed.

Lemma scan_inv_run root_dir subdirs cats sdk w st w' :
  find_examples_scan_here root_dir subdirs cats sdk w = (Ok st, w') →
  scan_inv sdk w (os_path_join root_dir <$> subdirs) (walked_files root_dir subdirs) st w'.
Proof.
  unfold find_examples_scan. intros Hrun.
  apply (for_each_inv
           (λ l1, scan_inv sdk w (os_path_join root_dir <$> l1) (walked_files root_dir l1))
           _ [] _ _ _ _ _) in Hrun; [done| |].
  - clear. intros l1 s subdir w1 s' w2 Hinv Hbody.
    apply bind_Ok_inv in Hbody as ([] & w3 & Hlog & Hbody).
    unfold logging_info in Hlog. simplify_eq.
    rewrite walk_flat in Hbody.
    apply (scan_inv_info _ _ _ _ _ _ (os_path_join root_dir subdir)) in Hinv.
    apply (for_each_inv (scan_inv sdk w (os_path_join root_dir <$> l1 ++ [subdir]))
             _ (walked_files root_dir l1) _ _ _ _ _) in Hbody.
    + unfold walked_files at 1. rewrite bind_app, bind_cons. simpl. by rewrite app_nil_r.
    + intros l2 s2 [root filename] w4 s3 w5. apply scan_inv_step.
    + by rewrite fmap_app.
  - split; simpl; try done; try (by constructor).
    + exists []. by rewrite app_nil_r.
    + intros ?? Hin. by apply elem_of_nil in Hin.
Qed.

Lemma walked_elem root_dir subdirs root filename :
  (root, filename) ∈ walked_files root_dir subdirs →
  os_path_join root filename ∈ walked root_dir subdirs.
Proof.
  intros Hin. unfold walked.
  apply (list_elem_of_fmap_2 (λ '(root, filename), os_path_join root filename) _ _ Hin).
Qed.

Definition incorrect_format_msg : string :=
  "Some of the beam examples contain beam playground tag with an incorrect format".

(** X14.  When [find_examples] returns, the roots have passed
    [_check_no_nested]; no file and no variable has been written; the log
    has grown by the info line of each root, in the order of the roots,
    and by nothing else; every candidate among the walked files has been
    opened; every record returned is the record of a walked candidate
    file, with an unspecified status, that passes
    [validate_example_fields]; and the records come in the order in which
    their files were walked, at most one for each file. *)
Theorem find_examples_returns_validated_records (root_dir : string)
    (subdirs : list string) (cats : list string) (sdk : Sdk) (w w' : world)
    (exs : list Example) :
  find_examples_here root_dir subdirs cats sdk w = (Ok exs, w') →
  _check_no_nested subdirs = Ok tt ∧
  files w' = files w ∧ environ w' = environ w ∧
  log w' = log w ++ subdir_lines root_dir subdirs ∧
  (∀ p, p ∈ walked root_dir subdirs → candidate SDK_TO_EXTENSION sdk p → p ∈ opened w') ∧
  Forall (discovered root_dir subdirs sdk) exs ∧
  filepath <$> exs `sublist_of` walked root_dir subdirs.
Proof.
  unfold find_examples.
  intros ([] & w1 & [Hnest ->]%lift_Ok_inv & H)%bind_Ok_inv.
  apply bind_Ok_inv in H as ([b exs'] & w1 & Hscan & H).
  apply scan_inv_run in Hscan as [Hf He (l & Hlog & Hb & Hinfo) Hr Ho Hm Hsub].
  destruct b; [done|]. apply ret_Ok_inv in H as [-> ->]. simpl in *.
  split_and!; try done.
  - by rewrite Hlog, <- (no_error_all_info l Hb), Hinfo.
  - intros p ([root filename] & -> & Hin)%list_elem_of_fmap. by apply Ho.
  - eapply Forall_impl; [exact Hr|]. intros ex ((r & f & Hin & Hp) & ? & ? & ?).
    split_and!; try done. rewrite Hp. by apply walked_elem.
Qed.

(** X15.  A tag in an incorrect format does not stop the scan, be it a
    mapping that the validator refuses or a string or a list without the
    first required field.  When the roots pass [_check_no_nested] and no
    file makes [_check_file] raise, every candidate among the walked files
    has been opened; the log has grown by the info line of each root and by
    error records; and [find_examples] raises its format error exactly
    when there is an error record among them; otherwise it returns the
    records. *)
Theorem find_examples_reports_after_the_scan (root_dir : string)
    (subdirs : list string) (cats : list string) (sdk : Sdk) (w w' : world)
    (has_error : bool) (exs : list Example) :
  _check_no_nested subdirs = Ok tt →
  find_examples_scan_here root_dir subdirs cats sdk w = (Ok (has_error, exs), w') →
  find_examples_here root_dir subdirs cats sdk w
  = (if has_error then Raise (ValueError incorrect_format_msg) else Ok exs, w') ∧
  (∃ l, log w' = log w ++ l ∧ existsb is_error l = has_error ∧
        List.filter is_info l = subdir_lines root_dir subdirs) ∧
  (∀ p, p ∈ walked root_dir subdirs → candidate SDK_TO_EXTENSION sdk p → p ∈ opened w').
Proof.
  intros Hnest Hscan. split_and!.
  - unfold find_examples. rewrite Hnest, M_bind_unfold. unfold lift at 1.
    rewrite M_bind_unfold, Hscan. by destruct has_error.
  - by apply scan_inv_run in Hscan as [_ _ Hl _ _ _ _].
  - apply scan_inv_run in Hscan as [_ _ _ _ Ho _ _].
    intros p ([root filename] & -> & Hin)%list_elem_of_fmap. by apply Ho.
Qed.

(** X16.  When two roots name the same path, or one is a strict
    ancestor of another and not the empty relative path, [find_examples]
    raises before it looks at any file: nothing has been opened and
    nothing logged. *)
Theorem find_examples_refuses_nested_roots_first (root_dir : string)
    (subdirs : list string) (cats : list string) (sdk : Sdk) (w : world) i j a b :
  i ≠ j → subdirs !! i = Some a → subdirs !! j = Some b →
  of_string a = of_string b ∨
  (strict_ancestor (of_string a) (of_string b) ∧ cparts (of_string a) ≠ []) →
  ∃ msg, find_examples_here root_dir subdirs cats sdk w = (Raise (ValueError msg), w).
Proof.
  intros Hij Hi Hj Hcase.
  destruct (nested_or_repeated_raise subdirs i j a b Hij Hi Hj Hcase) as [msg Hmsg].
  exists msg. unfold find_examples. by rewrite Hmsg.
Qed.

End find_examples_facts.

(** *** Discovery on concrete trees *)

(** A tree with one directory of files. *)
Definition walk_one (dir : string) (names : list string) (top : string)
  : list (string * list string) :=
  if String.eqb top dir then [(dir, names)] else [].

Definition find_examples_ref (os_walk : string → list (string * list string)) :=
  find_examples MiniYaml.load TagFields.required
    Config.BEAM_PLAYGROUND_TITLE Config.BEAM_PLAYGROUND
    ConfigValues.EXTENSION_TO_SDK ConfigValues.SDK_TO_EXTENSION
    ConfigValues.URL_VCS_PREFIX ConfigValues.test_ends ConfigValues.katas
    ConfigValues.examples_dir ConfigValues.relpath_from_root ConfigValues.float_sub
    ConfigValues.no_from_dict ConfigValues.no_from_dict os_walk.

Definition find_examples_scan_ref (os_walk : string → list (string * list string)) :=
  find_examples_scan MiniYaml.load TagFields.required
    Config.BEAM_PLAYGROUND_TITLE Config.BEAM_PLAYGROUND
    ConfigValues.EXTENSION_TO_SDK ConfigValues.SDK_TO_EXTENSION
    ConfigValues.URL_VCS_PREFIX ConfigValues.test_ends ConfigValues.katas
    ConfigValues.examples_dir ConfigValues.relpath_from_root ConfigValues.float_sub
    ConfigValues.no_from_dict ConfigValues.no_from_dict os_walk.

(** Two Python files, the first with a tag that lacks its name, and a
    text file. *)
Definition beam_tree : world :=
  mkWorld {["beam/examples/bad.py" := bad_py; "beam/examples/foo.py" := foo_py_terminated;
            "beam/examples/notes.txt" := "Beam-playground:"]} ∅ [] [].

Lemma find_examples_returns_validated_records_witness :
  ∃ exs w',
    find_examples_ref (walk_one "beam/examples" ["notes.txt"; "foo.py"])
      "beam" ["examples"] ["Quickstart"] SDK_PYTHON beam_tree = (Ok exs, w') ∧
    _check_no_nested ["examples"] = Ok tt ∧
    files w' = files beam_tree ∧ environ w' = environ beam_tree ∧
    log w' = log beam_tree ++ [LogInfoSubdir "beam/examples"] ∧
    (∀ p, p ∈ walked (walk_one "beam/examples" ["notes.txt"; "foo.py"]) "beam" ["examples"] →
          candidate ConfigValues.SDK_TO_EXTENSION SDK_PYTHON p → p ∈ opened w') ∧
    Forall (discovered ConfigValues.SDK_TO_EXTENSION
              (walk_one "beam/examples" ["notes.txt"; "foo.py"]) "beam" ["examples"]
              SDK_PYTHON) exs ∧
    filepath <$> exs
    `sublist_of` walked (walk_one "beam/examples" ["notes.txt"; "foo.py"]) "beam" ["examples"].
Proof.
  eexists _, _. split; [vm_compute; reflexivity|].
  apply (find_examples_returns_validated_records MiniYaml.load TagFields.required
           Config.BEAM_PLAYGROUND_TITLE Config.BEAM_PLAYGROUND
           ConfigValues.EXTENSION_TO_SDK ConfigValues.SDK_TO_EXTENSION
           ConfigValues.URL_VCS_PREFIX ConfigValues.test_ends ConfigValues.katas
           ConfigValues.examples_dir ConfigValues.relpath_from_root ConfigValues.float_sub
           ConfigValues.no_from_dict ConfigValues.no_from_dict
           (walk_one "beam/examples" ["notes.txt"; "foo.py"])
           "beam" ["examples"] ["Quickstart"] SDK_PYTHON beam_tree).
  vm_compute. reflexivity.
Defined.

Definition find_examples_scan_with (yaml_load : string → result yaml_value)
    (os_walk : string → list (string * list string)) :=
  find_examples_scan yaml_load TagFields.required
    Config.BEAM_PLAYGROUND_TITLE Config.BEAM_PLAYGROUND
    ConfigValues.EXTENSION_TO_SDK ConfigValues.SDK_TO_EXTENSION
    ConfigValues.URL_VCS_PREFIX ConfigValues.test_ends ConfigValues.katas
    ConfigValues.examples_dir ConfigValues.relpath_from_root ConfigValues.float_sub
    ConfigValues.no_from_dict ConfigValues.no_from_dict os_walk.

Definition find_examples_with (yaml_load : string → result yaml_value)
    (os_walk : string → list (string * list string)) :=
  find_examples yaml_load TagFields.required
    Config.BEAM_PLAYGROUND_TITLE Config.BEAM_PLAYGROUND
    ConfigValues.EXTENSION_TO_SDK ConfigValues.SDK_TO_EXTENSION
    ConfigValues.URL_VCS_PREFIX ConfigValues.test_ends ConfigValues.katas
    ConfigValues.examples_dir ConfigValues.relpath_from_root ConfigValues.float_sub
    ConfigValues.no_from_dict ConfigValues.no_from_dict os_walk.

(** The tree with the file whose tag is a sentence. *)
Definition beam_tree_with_note : world :=
  mkWorld {["beam/examples/note.py" := note_py; "beam/examples/bad.py" := bad_py;
            "beam/examples/foo.py" := foo_py_terminated]} ∅ [] [].

(** The file whose tag is a sentence is met first and reported, with one
    record for each required field; the scan goes on to the file whose tag
    lacks its name, reported as well, and to the good one; the call raises
    at the end. *)
Lemma find_examples_reports_after_the_scan_witness :
  ∃ exs w',
    find_examples_scan_with load_plain_scalar
      (walk_one "beam/examples" ["note.py"; "bad.py"; "foo.py"])
      "beam" ["examples"] ["Quickstart"] SDK_PYTHON beam_tree_with_note
    = (Ok (true, exs), w') ∧
    length exs = 1 ∧
    opened w' = ["beam/examples/note.py"; "beam/examples/bad.py";
                 "beam/examples/foo.py"; "beam/examples/foo.py"] ∧
    log w' = [LogInfoSubdir "beam/examples"]
             ++ (LogMissingField <$> TagFields.required)
             ++ [LogIncorrectFormat "beam/examples/note.py"; LogMissingField "name";
                 LogMissingField "complexity"; LogMissingField "multifile";
                 LogMissingField "categories"; LogMissingField "pipeline_options";
                 LogMissingField "default_example"; LogMissingField "context_line";
                 LogMissingField "tags"; LogIncorrectFormat "beam/examples/bad.py"] ∧
    find_examples_with load_plain_scalar
      (walk_one "beam/examples" ["note.py"; "bad.py"; "foo.py"])
      "beam" ["examples"] ["Quickstart"] SDK_PYTHON beam_tree_with_note
    = (Raise (ValueError incorrect_format_msg), w') ∧
    (∃ l, log w' = log beam_tree_with_note ++ l ∧ existsb is_error l = true ∧
          List.filter is_info l
          = subdir_lines "beam" ["examples"]) ∧
    (∀ p, p ∈ walked (walk_one "beam/examples" ["note.py"; "bad.py"; "foo.py"])
                "beam" ["examples"] →
          candidate ConfigValues.SDK_TO_EXTENSION SDK_PYTHON p → p ∈ opened w').
Proof.
  eexists _, _. split; [vm_compute; reflexivity|].
  match goal with |- length ?e = 1 ∧ _ => set (exs := e) end.
  split; [reflexivity|]. split; [reflexivity|]. split; [reflexivity|].
  apply (find_examples_reports_after_the_scan load_plain_scalar TagFields.required
           Config.BEAM_PLAYGROUND_TITLE Config.BEAM_PLAYGROUND
           ConfigValues.EXTENSION_TO_SDK ConfigValues.SDK_TO_EXTENSION
           ConfigValues.URL_VCS_PREFIX ConfigValues.test_ends ConfigValues.katas
           ConfigValues.examples_dir ConfigValues.relpath_from_root ConfigValues.float_sub
           ConfigValues.no_from_dict ConfigValues.no_from_dict
           (walk_one "beam/examples" ["note.py"; "bad.py"; "foo.py"])
           "beam" ["examples"] ["Quickstart"] SDK_PYTHON beam_tree_with_note _ true exs).
  - reflexivity.
  - vm_compute. reflexivity.
Defined.

Lemma find_examples_refuses_nested_roots_first_witness :
  ∃ msg,
    find_examples_ref (walk_one "beam/examples" ["bad.py"; "foo.py"])
      "beam" ["examples"; "learning"; "examples/java"] ["Quickstart"] SDK_PYTHON beam_tree
    = (Raise (ValueError msg), beam_tree).
Proof.
  apply (find_examples_refuses_nested_roots_first MiniYaml.load TagFields.required
           Config.BEAM_PLAYGROUND_TITLE Config.BEAM_PLAYGROUND
           ConfigValues.EXTENSION_TO_SDK ConfigValues.SDK_TO_EXTENSION
           ConfigValues.URL_VCS_PREFIX ConfigValues.test_ends ConfigValues.katas
           ConfigValues.examples_dir ConfigValues.relpath_from_root ConfigValues.float_sub
           ConfigValues.no_from_dict ConfigValues.no_from_dict
           (walk_one "beam/examples" ["bad.py"; "foo.py"])
           "beam" ["examples"; "learning"; "examples/java"] ["Quickstart"] SDK_PYTHON
           beam_tree 0 2 "examples" "examples/java").
  - lia.
  - reflexivity.
  - reflexivity.
  - right. split; [reflexivity|]. vm_compute. discriminate.
Defined.
(** ** More on the status polling engine *)

Section engine_more.

Variable EmulatorType_Value : string → result Z.

Local Abbreviation step_here := (step EmulatorType_Value).
Local Abbreviation run_here := (run EmulatorType_Value).

Open Scope Z_scope.

Lemma flying_ended ts : Forall (λ t, ended t = true) ts → flying ts = 0.
Proof.
  induction 1 as [|t ts Ht _ IH]; [done|]. cbn [flying]. rewrite IH.
  by destruct t.
Qed.

(** X17.  For every limit, zero included, and whatever the answers of
    the backend: the semaphore never goes below zero nor above the limit,
    it counts the slots that no coroutine holds, and once every coroutine
    has ended, finished or failed, it is back at the limit. *)
Theorem every_slot_is_given_back (N : Z) (es : list Example) (evs : list event)
    (σ : engine) :
  0 ≤ N → run_here (start N es) evs = Some σ →
  0 ≤ semaphore σ ≤ N ∧ semaphore σ = N - flying (tasks σ) ∧
  (Forall (λ t, ended t = true) (tasks σ) → semaphore σ = N).
Proof.
  intros HN Hrun.
  assert (inv N es σ) as Hinv.
  { eapply (inv_run EmulatorType_Value); [by apply inv_start|done]. }
  pose proof (inv_slots _ _ _ Hinv) as Hs. pose proof (inv_nonneg _ _ _ Hinv) as Hn.
  pose proof (flying_nonneg (tasks σ)) as Hf. split_and!; try lia.
  intros Hall. rewrite (flying_ended _ Hall) in Hs. lia.
Qed.

(** X18.  With a limit of zero and at least one example nothing can
    happen: no coroutine gets through the semaphore, and the gathered call
    neither returns nor raises.  The only schedule is the empty one. *)
Theorem zero_limit_never_starts (es : list Example) (evs : list event) (σ : engine) :
  es ≠ [] → run_here (start 0 es) evs = Some σ → evs = [] ∧ σ = start 0 es.
Proof.
  intros Hes Hrun. destruct evs as [|ev evs]; [by simplify_eq/=|]. exfalso.
  cbn [run] in Hrun.
  assert (step_here (start 0 es) ev = None) as Hstep; [|by rewrite Hstep in Hrun].
  assert (∀ i t, replicate (length es) Created !! i = Some t → t = Created) as Hcreated.
  { by intros i t [-> _]%lookup_replicate. }
  destruct ev as [i|i r|i r|i| |i]; cbn [step start tasks examples semaphore gather].
  - destruct (replicate _ _ !! i) as [t|] eqn:E; [|done].
    rewrite (Hcreated _ _ E). by destruct (es !! i).
  - destruct (replicate _ _ !! i) as [t|] eqn:E; [|done]. by rewrite (Hcreated _ _ E).
  - destruct (replicate _ _ !! i) as [t|] eqn:E; [|done]. by rewrite (Hcreated _ _ E).
  - destruct (replicate _ _ !! i) as [t|] eqn:E; [|done]. by rewrite (Hcreated _ _ E).
  - destruct es as [|e es]; [done|]. reflexivity.
  - destruct (replicate _ _ !! i) as [t|] eqn:E; [|done]. by rewrite (Hcreated _ _ E).
Qed.

(** *** The record at each stage of its coroutine *)

(** X19.  In every state a schedule can reach, the record of a
    coroutine is determined by where the coroutine stands and by what the
    backend has answered it in the schedule.  Until [run_code] has
    answered, it is the record handed in.  While the job is polled,
    [run_code] has answered the coroutine once, [check_status] has answered
    it polled statuses only, and the record is the one handed in with the
    identifier that [run_code] returned, the one under which the job is
    polled, and still its old status.  After the coroutine has finished,
    the last answer of [check_status] is a status that is not polled, the
    earlier ones are polled, and the record holds that identifier and that
    last status.  After a failure, it is the record handed in, with the
    identifier if [run_code] had answered. *)
Theorem record_follows_its_coroutine (N : Z) (es : list Example) (evs : list event)
    (σ : engine) (i : nat) (t : task) (e0 : Example) :
  run_here (start N es) evs = Some σ → tasks σ !! i = Some t → es !! i = Some e0 →
  ∃ e, examples σ !! i = Some e ∧
       record_at t e0 e (submitted i evs) (answered i evs).
Proof.
  intros Hrun Hi He0.
  by apply (lifecycle_run EmulatorType_Value es [] _ _ _ (lifecycle_start N es) Hrun).
Qed.

(** *** A coroutine that has ended stays as it is *)

(** X20.  Once a coroutine has finished or failed, no schedule resumes
    it: its state and its record, the stored status among them, are
    final. *)
Theorem ended_coroutine_is_final (σ : engine) (evs : list event) (σ' : engine)
    (i : nat) (t : task) :
  run_here σ evs = Some σ' → tasks σ !! i = Some t → ended t = true →
  tasks σ' !! i = Some t ∧ examples σ' !! i = examples σ !! i.
Proof.
  revert σ. induction evs as [|ev evs IH]; intros σ Hrun Hi Hend; cbn [run] in Hrun.
  - by simplify_eq.
  - destruct (step_here σ ev) as [σ1|] eqn:E; [|done].
    destruct (ended_step EmulatorType_Value _ _ _ _ _ E Hi Hend) as [Hi1 Hex1].
    destruct (IH σ1 Hrun Hi1 Hend) as [? ?]. split; [done|congruence].
Qed.

(** X21.  The schedule of the other coroutines does not matter to a
    coroutine: events none of which is a resumption of coroutine [j]
    leave its state and its record as they are. *)
Theorem other_coroutines_leave_the_record_alone (σ : engine) (evs : list event)
    (σ' : engine) (j : nat) :
  Forall (λ ev, coroutine ev ≠ Some j) evs → run_here σ evs = Some σ' →
  tasks σ' !! j = tasks σ !! j ∧ examples σ' !! j = examples σ !! j.
Proof.
  intros Hall. revert σ. induction Hall as [|ev evs Hev _ IH]; intros σ Hrun;
    cbn [run] in Hrun.
  - by simplify_eq.
  - destruct (step_here σ ev) as [σ1|] eqn:E; [|done].
    destruct (step_other EmulatorType_Value σ ev σ1 j E Hev) as [<- <-]. by apply IH.
Qed.

(** *** The payload of validated records *)

(** X22.  A record that passes [validate_example_fields] never fails
    in the head of [_update_example_status], provided the enumeration of
    the backend has a value for Kafka: the payload is empty for a record
    without datasets, and otherwise one dataset made of the first emulator
    and the first dataset. *)
Theorem validated_records_build_their_payload (e : Example) (kafka : Z) :
  example_fields_ok e → EmulatorType_Value "EMULATOR_TYPE_KAFKA" = Ok kafka →
  build_datasets EmulatorType_Value e
  = Ok match datasets e, emulators e with
       | d :: _, m :: _ =>
           [mkApiDataset kafka [("topic", topic_id (emulator_topic m))] (dataset_path d)]
       | _, _ => []
       end.
Proof.
  intros (_ & _ & _ & _ & _ & _ & _ & _ & Hem) Hkafka. unfold build_datasets.
  destruct (datasets e) as [|d ds]; [done|]. destruct (emulators e) as [|m ms]; [done|].
  apply Forall_cons in Hem as [[-> _] _].
  change ("EMULATOR_TYPE_" +:+ Str.upper "kafka") with "EMULATOR_TYPE_KAFKA".
  by rewrite Hkafka.
Qed.

End engine_more.
(** *** The engine on concrete batches, again *)

Lemma every_slot_is_given_back_witness :
  ∃ σ, run EmulatorType_ref (start 2 three) schedule_three = Some σ ∧
       (0 ≤ semaphore σ ≤ 2)%Z ∧ semaphore σ = (2 - flying (tasks σ))%Z ∧
       semaphore σ = 2%Z.
Proof.
  eexists. split; [vm_compute; reflexivity|].
  match goal with |- (0 ≤ semaphore ?s ≤ _)%Z ∧ _ => set (σ := s) end.
  destruct (every_slot_is_given_back EmulatorType_ref 2 three schedule_three σ
              ltac:(done) ltac:(vm_compute; reflexivity)) as (H1 & H2 & H3).
  split_and!; [exact (proj1 H1)|exact (proj2 H1)|exact H2|].
  apply H3. repeat constructor.
Defined.

Lemma zero_limit_never_starts_witness :
  three ≠ [] ∧ run EmulatorType_ref (start 0 three) [] = Some (start 0 three) ∧
  ([] : list event) = [] ∧ start 0 three = start 0 three.
Proof.
  split; [discriminate|]. split; [reflexivity|].
  apply (zero_limit_never_starts EmulatorType_ref three [] (start 0 three)).
  - discriminate.
  - reflexivity.
Defined.

Example zero_limit_refuses_every_first_event :
  run EmulatorType_ref (start 0 three) [Acquire 0] = None ∧
  run EmulatorType_ref (start 0 three) [GatherReturn] = None ∧
  run EmulatorType_ref (start 0 []) [GatherReturn]
  = Some (mkEngine 0 [] [] Returned).
Proof. split_and!; reflexivity. Qed.

Lemma record_follows_its_coroutine_witness :
  ∃ σ, run EmulatorType_ref (start 2 three) schedule_three = Some σ ∧
       tasks σ !! 0%nat = Some Finished ∧
       submitted 0 schedule_three = ["p0"] ∧
       answered 0 schedule_three = [STATUS_EXECUTING; STATUS_FINISHED] ∧
       ∃ e, examples σ !! 0%nat = Some e ∧
            record_at Finished (example_named "a") e
              (submitted 0 schedule_three) (answered 0 schedule_three).
Proof.
  eexists. split; [vm_compute; reflexivity|]. split; [reflexivity|].
  split; [reflexivity|]. split; [reflexivity|].
  match goal with |- ∃ e, examples ?s !! _ = _ ∧ _ => set (σ := s) end.
  apply (record_follows_its_coroutine EmulatorType_ref 2 three schedule_three σ 0
           Finished (example_named "a")).
  - vm_compute. reflexivity.
  - reflexivity.
  - reflexivity.
Defined.

Lemma ended_coroutine_is_final_witness :
  ∃ σ σ', run EmulatorType_ref (start 5 five) schedule_third_fails = Some σ ∧
          run EmulatorType_ref σ [RunCode 0 (Returns "p0"); GatherRaise 2] = Some σ' ∧
          tasks σ' !! 2%nat = Some (Failed (BackendError "unavailable")) ∧
          examples σ' !! 2%nat = examples σ !! 2%nat.
Proof.
  eexists _, _. split; [vm_compute; reflexivity|]. split; [vm_compute; reflexivity|].
  match goal with |- _ ∧ _ = examples ?s !! _ => set (σ := s) end.
  apply (ended_coroutine_is_final EmulatorType_ref σ
           [RunCode 0 (Returns "p0"); GatherRaise 2] _ 2
           (Failed (BackendError "unavailable"))).
  - vm_compute. reflexivity.
  - reflexivity.
  - reflexivity.
Defined.

Lemma other_coroutines_leave_the_record_alone_witness :
  ∃ σ', run EmulatorType_ref (start 2 three)
          [Acquire 0; RunCode 0 (Returns "p0"); CheckStatus 0 (Returns STATUS_FINISHED)]
        = Some σ' ∧
        tasks σ' !! 1%nat = tasks (start 2 three) !! 1%nat ∧
        examples σ' !! 1%nat = examples (start 2 three) !! 1%nat.
Proof.
  eexists. split; [vm_compute; reflexivity|].
  apply (other_coroutines_leave_the_record_alone EmulatorType_ref (start 2 three)
           [Acquire 0; RunCode 0 (Returns "p0"); CheckStatus 0 (Returns STATUS_FINISHED)]).
  - repeat constructor; discriminate.
  - vm_compute. reflexivity.
Defined.

(** A record with one dataset and one Kafka emulator on it. *)
Definition example_with_kafka : Example :=
  set_emulators [mkEmulator "kafka" (mkTopic "topic_1" "dataset_1")]
    (set_datasets [mkDataset "dataset_1" "local" "json" "dataset_1.json"]
       (example_named "a")).

Lemma validated_records_build_their_payload_witness :
  build_datasets EmulatorType_ref example_with_kafka
  = Ok [mkApiDataset 1 [("topic", "topic_1")] "dataset_1.json"].
Proof.
  apply (validated_records_build_their_payload EmulatorType_ref example_with_kafka 1).
  - unfold example_fields_ok. split_and!; try discriminate.
    + split; discriminate.
    + repeat constructor.
    + repeat constructor. eexists. split; [by left|reflexivity].
  - reflexivity.
Defined.

(** ** Tags with a key that is no field *)

Section unknown_keys.

Variable EXTENSION_TO_SDK : gmap string Sdk.
Variable URL_VCS_PREFIX : string.
Variable test_ends : list string.
Variable katas : string.
Variable examples_dir : string.
Variable os_path_relpath : string → string → result string.
Variable float_sub : string → Z → string.
Variable Dataset_from_dict : yaml_value → result Dataset.
Variable Emulator_from_dict : yaml_value → result Emulator.

(** X23.  [_get_example] returns a record only for a tag each of whose
    keys is a field of [Tag]: a tag with any other key makes it raise,
    though [_validate] has nothing against such a tag. *)
Theorem get_example_accepts_only_known_keys (path file_name : string) (t : ExampleTag)
    (w w' : world) (ex : Example) (key : string) :
  _get_example EXTENSION_TO_SDK URL_VCS_PREFIX test_ends katas examples_dir
    os_path_relpath float_sub Dataset_from_dict Emulator_from_dict
    path file_name t w = (Ok ex, w') →
  is_Some (tag_as_dict t !! key) → key ∈ TagFields.all.
Proof.
  unfold _get_example. intros H [v Hkey].
  apply bind_Ok_inv in H as (nm & w1 & _ & H).
  apply bind_Ok_inv in H as (cx & w2 & _ & H).
  apply bind_Ok_inv in H as (sd & w3 & _ & H).
  apply bind_Ok_inv in H as (content & w4 & _ & H).
  apply bind_Ok_inv in H as (declared & w5 & _ & H).
  apply bind_Ok_inv in H as (cl & w6 & _ & H).
  apply bind_Ok_inv in H as (tt & w7 & [Htag _]%lift_Ok_inv & _).
  unfold make_Tag in Htag. case_bool_decide as Hall; [|done].
  destruct (decide (key = TagFields.context_line)) as [->|Hne].
  - unfold TagFields.all. repeat constructor.
  - apply (Hall key v). by rewrite lookup_insert_ne.
Qed.

End unknown_keys.

(** The tag of [foo.py] with a key [author] added: the validator accepts
    it, and the builder raises. *)
Definition tag_with_author : ExampleTag :=
  mkExampleTag (<["author" := YStr "me"]> (tag_as_dict tag_foo_py_terminated))
    (tag_as_string tag_foo_py_terminated).

Example unknown_key_raises :
  _validate TagFields.required (tag_as_dict tag_with_author) ["Quickstart"] = (true, []) ∧
  (get_example_ref "examples/foo.py" "foo.py" tag_with_author
     (one_file "examples/foo.py" foo_py_terminated)).1
  = Raise (TypeError "unexpected keyword argument").
Proof. split; vm_compute; reflexivity. Qed.

Lemma get_example_accepts_only_known_keys_witness :
  is_Some (tag_as_dict tag_foo_py_terminated !! "tags") ∧ "tags" ∈ TagFields.all.
Proof.
  split; [eexists; vm_compute; reflexivity|].
  eapply (get_example_accepts_only_known_keys
            ConfigValues.EXTENSION_TO_SDK ConfigValues.URL_VCS_PREFIX
            ConfigValues.test_ends ConfigValues.katas ConfigValues.examples_dir
            ConfigValues.relpath_from_root ConfigValues.float_sub
            ConfigValues.no_from_dict ConfigValues.no_from_dict
            "examples/foo.py" "foo.py" tag_foo_py_terminated
            (one_file "examples/foo.py" foo_py_terminated) _ _ "tags").
  - vm_compute. reflexivity.
  - eexists. vm_compute. reflexivity.
Defined.
(** ** Datasets and emulators of a built record *)

Lemma mapM_names {A} (f : string → yaml_value → result A) (name_of : A → string)
    (g : string → yaml_value) (keys : list string) (l : list A) :
  (∀ k v a, f k v = Ok a → name_of a = k) →
  mapM (λ key, f key (g key)) keys = Ok l → name_of <$> l = keys.
Proof.
  intros Hf. revert l. induction keys as [|k keys IH]; intros l; cbn [mapM].
  { by intros [= <-]. }
  destruct (f k (g k)) as [a|] eqn:Ha; [|done]. cbn [mbind result_bind].
  destruct (mapM _ keys) as [l'|]; [|done]. intros [= <-].
  cbn [fmap list_fmap]. by rewrite (Hf _ _ _ Ha), (IH l').
Qed.

Lemma for_keys_names {A} (d : yaml_value) (f : string → yaml_value → result A)
    (name_of : A → string) (l : list A) :
  (∀ k v a, f k v = Ok a → name_of a = k) →
  for_keys d f = Ok l → ∃ entries, d = YMap entries ∧ name_of <$> l = entries.*1.
Proof.
  intros Hf. destruct d as [| | | | | |entries]; try done. cbn [for_keys].
  intros Hl. exists entries. split; [done|]. by eapply mapM_names.
Qed.

Section datasets_facts.

Variable EXTENSION_TO_SDK : gmap string Sdk.
Variable URL_VCS_PREFIX : string.
Variable test_ends : list string.
Variable katas : string.
Variable examples_dir : string.
Variable os_path_relpath : string → string → result string.
Variable float_sub : string → Z → string.
Variable Dataset_from_dict : yaml_value → result Dataset.
Variable Emulator_from_dict : yaml_value → result Emulator.

(** X24.  In a record that [_get_example] returns, the datasets are
    named after the keys of the tag's [datasets] mapping, in the order of
    the mapping, and the emulators after the keys of its [emulators]
    mapping; a value that is empty or missing gives none; and a value that
    is neither empty nor a mapping gives no record at all. *)
Theorem datasets_are_named_after_their_keys (path file_name : string) (t : ExampleTag)
    (w w' : world) (ex : Example) :
  _get_example EXTENSION_TO_SDK URL_VCS_PREFIX test_ends katas examples_dir
    os_path_relpath float_sub Dataset_from_dict Emulator_from_dict
    path file_name t w = (Ok ex, w') →
  (if truthy (dict_get (tag_as_dict t) TagFields.datasets)
   then ∃ entries, dict_get (tag_as_dict t) TagFields.datasets = YMap entries ∧
                   dataset_name <$> datasets ex = entries.*1
   else datasets ex = []) ∧
  (if truthy (dict_get (tag_as_dict t) TagFields.emulators)
   then ∃ entries, dict_get (tag_as_dict t) TagFields.emulators = YMap entries ∧
                   emulator_name <$> emulators ex = entries.*1
   else emulators ex = []).
Proof.
  unfold _get_example. intros H.
  apply bind_Ok_inv in H as (nm & w1 & _ & H).
  apply bind_Ok_inv in H as (cx & w2 & _ & H).
  apply bind_Ok_inv in H as (sd & w3 & _ & H).
  apply bind_Ok_inv in H as (content & w4 & _ & H).
  apply bind_Ok_inv in H as (declared & w5 & _ & H).
  apply bind_Ok_inv in H as (cl & w6 & _ & H).
  apply bind_Ok_inv in H as (tt & w7 & _ & H).
  apply bind_Ok_inv in H as (url & w8 & _ & H).
  apply bind_Ok_inv in H as (ex1 & w9 & Hds & H).
  apply bind_Ok_inv in H as (ex2 & w10 & Hem & H).
  apply bind_Ok_inv in H as (u & w11 & _ & H).
  apply ret_Ok_inv in H as [-> _].
  assert (∀ key, key ≠ TagFields.context_line →
            dict_get (<[TagFields.context_line := cl]> (tag_as_dict t)) key
            = dict_get (tag_as_dict t) key) as Hget.
  { intros key Hne. unfold dict_get. by rewrite lookup_insert_ne. }
  rewrite !Hget in Hds by done. rewrite !Hget in Hem by done.
  destruct (truthy (dict_get (tag_as_dict t) TagFields.datasets));
    destruct (truthy (dict_get (tag_as_dict t) TagFields.emulators)).
  - apply bind_Ok_inv in Hds as (ds & ? & [Hds _]%lift_Ok_inv & [-> _]%ret_Ok_inv).
    apply bind_Ok_inv in Hem as (es & ? & [Hem _]%lift_Ok_inv & [-> _]%ret_Ok_inv).
    split.
    + apply (for_keys_names _ _ dataset_name) in Hds; [done|].
      intros k v a Ha. destruct (Dataset_from_dict v); by simplify_eq/=.
    + apply (for_keys_names _ _ emulator_name) in Hem; [done|].
      intros k v a Ha. destruct (Emulator_from_dict v); by simplify_eq/=.
  - apply bind_Ok_inv in Hds as (ds & ? & [Hds _]%lift_Ok_inv & [-> _]%ret_Ok_inv).
    apply ret_Ok_inv in Hem as [-> _]. split; [|done].
    apply (for_keys_names _ _ dataset_name) in Hds; [done|].
    intros k v a Ha. destruct (Dataset_from_dict v); by simplify_eq/=.
  - apply ret_Ok_inv in Hds as [-> _].
    apply bind_Ok_inv in Hem as (es & ? & [Hem _]%lift_Ok_inv & [-> _]%ret_Ok_inv).
    split; [done|].
    apply (for_keys_names _ _ emulator_name) in Hem; [done|].
    intros k v a Ha. destruct (Emulator_from_dict v); by simplify_eq/=.
  - apply ret_Ok_inv in Hds as [-> _]. by apply ret_Ok_inv in Hem as [-> _].
Qed.

End datasets_facts.

(** Modelled from the spec: [config.Dataset.from_dict] and
    [config.Emulator.from_dict] are not part of the sources.  These two
    read the fields of the data model from a mapping, for running the
    builder on a tag with datasets. *)
Definition str_field (v : yaml_value) (key : string) : result string :=
  match subscript v key with
  | Ok (YStr s) => Ok s
  | Ok _ => Raise (TypeError "not a string")
  | Raise e => Raise e
  end.

Definition dataset_from_mapping (v : yaml_value) : result Dataset :=
  location ← str_field v "location";
  format ← str_field v "format";
  Ok (mkDataset "" location format "").

Definition emulator_from_mapping (v : yaml_value) : result Emulator :=
  topic ← subscript v "topic";
  id ← str_field topic "id";
  source_dataset ← str_field topic "dataset";
  Ok (mkEmulator "" (mkTopic id source_dataset)).

(** The tag of [foo.py] with one dataset and one Kafka emulator. *)
Definition tag_with_kafka : ExampleTag :=
  mkExampleTag
    (<["datasets" := YMap [("dataset_1", YMap [("location", YStr "local");
                                                ("format", YStr "json")])]]>
       (<["emulators" := YMap [("kafka", YMap [("topic",
                                   YMap [("id", YStr "topic_1");
                                         ("dataset", YStr "dataset_1")])])]]>
          (tag_as_dict tag_foo_py_terminated)))
    (tag_as_string tag_foo_py_terminated).

Lemma datasets_are_named_after_their_keys_witness :
  ∃ ex w',
    _get_example ConfigValues.EXTENSION_TO_SDK ConfigValues.URL_VCS_PREFIX
      ConfigValues.test_ends ConfigValues.katas ConfigValues.examples_dir
      ConfigValues.relpath_from_root ConfigValues.float_sub
      dataset_from_mapping emulator_from_mapping
      "examples/foo.py" "foo.py" tag_with_kafka
      (one_file "examples/foo.py" foo_py_terminated) = (Ok ex, w') ∧
    dataset_name <$> datasets ex = ["dataset_1"] ∧
    emulator_name <$> emulators ex = ["kafka"].
Proof.
  eexists _, _. split; [vm_compute; reflexivity|].
  match goal with |- dataset_name <$> datasets ?e = _ ∧ _ => set (ex := e) end.
  destruct (datasets_are_named_after_their_keys
              ConfigValues.EXTENSION_TO_SDK ConfigValues.URL_VCS_PREFIX
              ConfigValues.test_ends ConfigValues.katas ConfigValues.examples_dir
              ConfigValues.relpath_from_root ConfigValues.float_sub
              dataset_from_mapping emulator_from_mapping
              "examples/foo.py" "foo.py" tag_with_kafka
              (one_file "examples/foo.py" foo_py_terminated) _ ex
              ltac:(vm_compute; reflexivity)) as [Hd He].
  split; reflexivity.
Defined.

(** ** The outcome of the gathered call *)

Section gather_facts.

Variable EmulatorType_Value : string → result Z.

Open Scope Z_scope.

(** X25.  The gathered call returns only when every coroutine has
    finished, and then nothing is left to run: no event is possible any
    more.  It raises only the exception of a coroutine that has failed. *)
Theorem gather_returns_when_all_have_finished (N : Z) (es : list Example)
    (evs : list event) (σ : engine) :
  0 ≤ N → run EmulatorType_Value (start N es) evs = Some σ →
  (gather σ = Returned →
   Forall (λ t, t = Finished) (tasks σ) ∧ ∀ ev, step EmulatorType_Value σ ev = None) ∧
  (∀ e, gather σ = Raised e → ∃ i, tasks σ !! i = Some (Failed e)).
Proof.
  intros HN Hrun.
  assert (inv N es σ) as Hinv.
  { eapply (inv_run EmulatorType_Value); [by apply inv_start|done]. }
  split; [|apply (inv_raised _ _ _ Hinv)].
  intros Hg. pose proof (inv_returned _ _ _ Hinv Hg) as Hall. split; [done|].
  rewrite Forall_lookup in Hall.
  intros [i|i r|i r|i| |i]; cbn [step]; rewrite ?Hg; try done;
    destruct (tasks σ !! i) as [t|] eqn:Hi; try done; by rewrite (Hall _ _ Hi).
Qed.

End gather_facts.

Lemma gather_returns_when_all_have_finished_witness :
  ∃ σ, run EmulatorType_ref (start 2 three) schedule_three = Some σ ∧
       gather σ = Returned ∧
       Forall (λ t, t = Finished) (tasks σ) ∧
       ∀ ev, step EmulatorType_ref σ ev = None.
Proof.
  eexists. split; [vm_compute; reflexivity|]. split; [reflexivity|].
  match goal with |- Forall _ (tasks ?s) ∧ _ => set (σ := s) end.
  destruct (gather_returns_when_all_have_finished EmulatorType_ref 2 three
              schedule_three σ ltac:(done) ltac:(vm_compute; reflexivity)) as [Hret _].
  exact (Hret eq_refl).
Defined.
